(** * Swift-capital-fee: the payment backend, embedded and verified

    The repository holds two variants of one Express server:
    - the legacy variant ([server.js]) keeps receipts in a JSON file,
      handles the gateway webhook and runs a loan-release cron job;
    - the database variant (the second [server.js], "Enhanced PayNecta
      backend") keeps users and transactions in PostgreSQL and adds the
      balance, transaction-list and withdrawal endpoints.

    Both are embedded below ([Module Legacy], [Module Enhanced]) over a
    common model of the JavaScript values the handlers manipulate.

    Modelling conventions:
    - a JSON number is an integer: [JNum n] is the double nearest to
      [n], which is [n] itself up to 2^53; [String] prints it as
      JavaScript does, in exponent form from 1e21. Fractional amounts
      and [NaN] are outside the model;
    - an object inherits the members of [Object.prototype]. None of the
      fixed property names the handlers read is one of them, so a read
      of such a name is a lookup among the own properties; where the
      key comes from a request ([receipts[ref]] in the legacy variant)
      the inherited members are part of the lookup;
    - [String(v)] throws on an object that has an own property
      [toString]; this is modelled wherever a stored or received value
      is converted, and the phone of a request body is a value on which
      it returns;
    - an instant ([Date.now()], [CURRENT_TIMESTAMP], the ISO string of
      [new Date().toISOString()]) is its millisecond value in [Z]; a
      handler invocation reads the clock once, and once more in the
      [catch] block of [/pay]; [Date.parse] on other strings is an
      argument of the legacy cron job;
    - the gateway's answers are arguments of the handlers;
    - a handler is first modelled as running to completion between two
      events, an [await] being a sequencing point of the store monad;
      the statements of a withdrawal are then also given one by one, so
      that two withdrawals can overlap as the event loop lets them;
    - a database failure is modelled where the schema forces it: the
      UNIQUE and NOT NULL constraints and the range of
      [DECIMAL(15, 2)]. *)

From stdpp Require Import gmap strings list fin_maps sorting.
From Stdlib Require Import ZArith NArith Ascii DecimalString DecimalZ DecimalN.

Open Scope string_scope.

(** ** JavaScript values *)

#[warnings="-register-all"]
Inductive jsval :=
| JUndefined
| JNull
| JBool (b : bool)
| JNum (n : Z)
| JStr (s : string)
| JArr (items : list jsval)
| JObj (fields : list (string * jsval)).

(** [Boolean(v)]: the falsy values are [undefined], [null], [false],
    [0] and the empty string. *)
Definition truthy (v : jsval) : bool :=
  match v with
  | JUndefined | JNull => false
  | JBool b => b
  | JNum n => negb (n =? 0)%Z
  | JStr s => negb (String.eqb s "")
  | JArr _ | JObj _ => true
  end.

(** [a || b] *)
Definition js_or (a b : jsval) : jsval := if truthy a then a else b.

(** Decimal rendering of an integer number. *)
Definition dec_of_Z (z : Z) : string := NilEmpty.string_of_int (Z.to_int z).

(** *** Numbers as strings

    [Number::toString]. Up to 2^53 every integer is a double and prints
    as its decimal numeral. Beyond, [n] stands for the nearest double
    (ties to even, infinity from 2^1024), which prints with the fewest
    digits that still round to it: followed by zeros while the numeral
    has at most 21 digits, in exponent form after that. *)
Definition safe_integer : Z := 2 ^ 53.

(** The double nearest to the integer [z] > 0, [None] for infinity. *)
Definition double_of (z : Z) : option Z :=
  let e := (Z.log2 z - 52)%Z in
  let rounded :=
    if (e <=? 0)%Z then z
    else
      let q := Z.shiftr z e in
      let rest := (z - Z.shiftl q e)%Z in
      let half := Z.shiftl 1 (e - 1) in
      let q' :=
        if (rest <? half)%Z then q
        else if (half <? rest)%Z then (q + 1)%Z
        else if Z.even q then q else (q + 1)%Z in
      Z.shiftl q' e in
  if (rounded <? 2 ^ 1024)%Z then Some rounded else None.

Definition decimal_length (x : Z) : Z := Z.of_nat (String.length (dec_of_Z x)).

Definition rounds_to (x v : Z) : bool :=
  match double_of v with
  | Some y => (y =? x)%Z
  | None => false
  end.

(** The [k]-digit integer [s] and the exponent [n] with [s * 10^(n-k)]
    rounding to the double [x], if there are any; of two, the nearer to
    [x], and of two equally near the even one. *)
Definition digits_of_length (x : Z) (k : Z) : option (Z * Z) :=
  let n := decimal_length x in
  let p := (10 ^ (n - k))%Z in
  let lo := (x / p)%Z in
  let hi := (lo + 1)%Z in
  let upper := if (hi =? 10 ^ k)%Z then (1, n + 1)%Z else (hi, n) in
  match rounds_to x (lo * p), rounds_to x (hi * p) with
  | true, true =>
      let below := (x - lo * p)%Z in
      let above := (hi * p - x)%Z in
      if (below <? above)%Z then Some (lo, n)
      else if (above <? below)%Z then Some upper
      else if Z.even lo then Some (lo, n) else Some upper
  | true, false => Some (lo, n)
  | false, true => Some upper
  | false, false => None
  end.

(** Seventeen digits identify every double. *)
Definition shortest_digits (x : Z) : Z * Z :=
  let tries := omap (λ k, digits_of_length x (Z.of_nat k)) (seq 1 17) in
  default (x, decimal_length x) (head tries).

Fixpoint zeros (n : nat) : string :=
  match n with
  | O => ""
  | S m => String "0" (zeros m)
  end.

Definition double_string (x : Z) : string :=
  let '(s, n) := shortest_digits x in
  let digits := dec_of_Z s in
  let k := decimal_length s in
  if (n <=? 21)%Z then digits +:+ zeros (Z.to_nat (n - k))
  else
    match digits with
    | String d rest =>
        String d (if (k =? 1)%Z then "" else String "." rest)
          +:+ "e+" +:+ dec_of_Z (n - 1)
    | EmptyString => ""
    end.

Definition number_string (n : Z) : string :=
  if (Z.abs n <=? safe_integer)%Z then dec_of_Z n
  else
    (if (n <? 0)%Z then "-" else "")
      +:+ match double_of (Z.abs n) with
          | Some x => double_string x
          | None => "Infinity"
          end.

(** *** Conversion to a string *)

(** A thrown [TypeError]. Where a computation can throw, [inl] carries
    the error and [inr] the value. *)
Definition type_error (msg : string) : jsval := JObj [("message", JStr msg)].

(** Whether [String(v)] throws: on an object with an own property
    [toString] (no JSON value is callable, and the inherited [valueOf]
    returns the object), and on an array that has to convert such an
    item. [new Date(v)] converts an object or array in the same way. *)
Fixpoint String_throws (v : jsval) : bool :=
  match v with
  | JObj fields => existsb (λ kv, String.eqb kv.1 "toString") fields
  | JArr items =>
      (fix any (l : list jsval) : bool :=
         match l with
         | [] => false
         | x :: rest => String_throws x || any rest
         end) items
  | _ => false
  end.

(** [String(v)] when it returns, also what a template literal
    interpolates and what a property key is coerced with. An array
    joins its items with commas, [null] and [undefined] items rendering
    as the empty string. *)
Fixpoint js_String (v : jsval) : string :=
  match v with
  | JUndefined => "undefined"
  | JNull => "null"
  | JBool true => "true"
  | JBool false => "false"
  | JNum n => number_string n
  | JStr s => s
  | JArr items =>
      let item x :=
        match x with
        | JUndefined | JNull => ""
        | _ => js_String x
        end in
      (fix join (l : list jsval) : string :=
         match l with
         | [] => ""
         | [x] => item x
         | x :: rest => item x +:+ "," +:+ join rest
         end) items
  | JObj _ => "[object Object]"
  end.

(** [String(v)] as a computation that may throw. *)
Definition to_String (v : jsval) : jsval + string :=
  if String_throws v
  then inl (type_error "Cannot convert object to primitive value")
  else inr (js_String v).

(** Own-property lookup in a parsed JSON object: [JSON.parse] keeps the
    last of several bindings of one key, and makes [__proto__] an own
    property like any other. *)
Fixpoint obj_get (k : string) (fields : list (string * jsval)) : jsval :=
  match fields with
  | [] => JUndefined
  | (k', v) :: rest =>
      match obj_get k rest with
      | JUndefined => if String.eqb k k' then v else JUndefined
      | later => later
      end
  end.

(** [v?.k]; it is also [v.k] when [v] is neither [null] nor
    [undefined]. This is the read of one of the fixed names of the
    handlers: none of them is a member of [Object.prototype], and a
    primitive or an array has none of them. *)
Definition get_prop (v : jsval) (k : string) : jsval :=
  match v with
  | JObj fields => obj_get k fields
  | _ => JUndefined
  end.

Definition is_digit (a : ascii) : bool :=
  (48 <=? nat_of_ascii a)%nat && (nat_of_ascii a <=? 57)%nat.

(** [s.replace(/\D/g, "")] *)
Fixpoint strip_non_digits (s : string) : string :=
  match s with
  | EmptyString => EmptyString
  | String a rest =>
      if is_digit a then String a (strip_non_digits rest)
      else strip_non_digits rest
  end.

Definition lower_ascii (a : ascii) : ascii :=
  let n := nat_of_ascii a in
  if (65 <=? n)%nat && (n <=? 90)%nat then ascii_of_nat (n + 32) else a.

(** [s.toLowerCase()] on the ASCII range; no character outside it
    lower-cases to a letter of the four gateway status words. *)
Fixpoint toLowerCase (s : string) : string :=
  match s with
  | EmptyString => EmptyString
  | String a rest => String (lower_ascii a) (toLowerCase rest)
  end.

(** [s.substring(1)] *)
Definition substring_from1 (s : string) : string :=
  String.substring 1 (String.length s - 1) s.

(** ** The phone normalizer (identical in both variants)

    The result when [String(phone)] returns; it throws on the values
    [String_throws] tells. *)

Definition formatPhone (phone : jsval) : option string :=
  if negb (truthy phone) then None
  else
    let digits := strip_non_digits (js_String phone) in
    if (String.length digits =? 9)%nat && String.prefix "7" digits
    then Some ("254" +:+ digits)
    else if (String.length digits =? 10)%nat && String.prefix "07" digits
    then Some ("254" +:+ substring_from1 digits)
    else if (String.length digits =? 12)%nat && String.prefix "254" digits
    then Some digits
    else None.

(** The normalizer as the specification words it. The digits of a
    string are its characters among the ten digits, in order; on them
    there are three accepted shapes, and failure otherwise. *)
Definition digits_only (s : string) : string :=
  String.string_of_list_ascii
    (List.filter (λ c, bool_decide (c ∈ String.list_ascii_of_string "0123456789"))
       (String.list_ascii_of_string s)).

Definition local9 (d : string) : Prop :=
  String.length d = 9%nat ∧ ∃ r, d = "7" +:+ r.
Definition local10 (d : string) : Prop :=
  String.length d = 10%nat ∧ ∃ r, d = "07" +:+ r.
Definition intl12 (d : string) : Prop :=
  String.length d = 12%nat ∧ ∃ r, d = "254" +:+ r.

Inductive normalizes (d : string) : option string → Prop :=
| norm_local9 : local9 d → normalizes d (Some ("254" +:+ d))
| norm_local10 r :
    local10 d → d = "0" +:+ r → normalizes d (Some ("254" +:+ r))
| norm_intl12 : intl12 d → normalizes d (Some d)
| norm_reject : ¬ local9 d → ¬ local10 d → ¬ intl12 d → normalizes d None.

(** [v.k] where [v] may be [null] or [undefined]. *)
Definition get_prop_strict (v : jsval) (k : string) : jsval + jsval :=
  match v with
  | JUndefined | JNull =>
      inl (type_error "Cannot read properties of undefined")
  | _ => inr (get_prop v k)
  end.

(** [(status || "").toLowerCase()]: a truthy value that is not a string
    has no [toLowerCase] method. *)
Definition lowered_status (status : jsval) : jsval + string :=
  match js_or status (JStr "") with
  | JStr s => inr (toLowerCase s)
  | _ => inl (type_error "toLowerCase is not a function")
  end.

(** [err.response?.data?.message || err.message || "Server error"] *)
Definition error_message (err : jsval) : jsval :=
  js_or (get_prop (get_prop (get_prop err "response") "data") "message")
        (js_or (get_prop err "message") (JStr "Server error")).

(** What the gateway client ([axios]) hands back: the parsed response
    body, or a thrown error (network failure, timeout, non-2xx). *)
Inductive gateway_reply :=
| GwReply (data : jsval)
| GwThrows (err : jsval).

(** What a poll tick reads in the gateway's status answer:
    [statusResp.data?.data || {}] and its lower-cased [status]. *)
Definition payData_of (data : jsval) : jsval :=
  js_or (get_prop data "data") (JObj []).

Definition payStatus_of (data : jsval) : jsval + string :=
  lowered_status (get_prop (payData_of data) "status").

(** The gateway statuses the drivers know, and an answer whose status
    is none of them (a status that is not even a string included). *)
Definition known_status (st : string) : bool :=
  existsb (String.eqb st) ["completed"; "processing"; "failed"; "cancelled"].

Definition unmapped (data : jsval) : Prop :=
  match payStatus_of data with
  | inr st => known_status st = false
  | inl _ => True
  end.

(** An answer whose status maps to settle. *)
Definition settles (data : jsval) : Prop :=
  match payStatus_of data with
  | inr st => String.eqb st "completed" || String.eqb st "processing" = true
  | inl _ => False
  end.

(** An answer whose status maps to failure. *)
Definition fails (data : jsval) : Prop :=
  match payStatus_of data with
  | inr st => String.eqb st "failed" || String.eqb st "cancelled" = true
  | inl _ => False
  end.

(** The JSON body of a request to [/pay] or [/withdraw]: [phone] is any
    JSON value that [String] converts, the amounts are integer numbers
    or absent. *)
Record pay_body := mkPayBody {
  pb_phone : jsval;
  pb_amount : option Z;
  pb_loan_amount : option Z;
  pb_phone_converts : String_throws pb_phone = false
}.

Definition num_or_undefined (n : option Z) : jsval :=
  match n with
  | Some z => JNum z
  | None => JUndefined
  end.

(** [n || d] on an integer or absent number: [0] is falsy. *)
Definition num_or (n : option Z) (d : Z) : Z :=
  match n with
  | Some z => if (z =? 0)%Z then d else z
  | None => d
  end.

(** The reply of [axios], as a computation that may throw. *)
Definition axios (gw : gateway_reply) : jsval + jsval :=
  match gw with
  | GwReply data => inr data
  | GwThrows err => inl err
  end.

(** An HTTP response: status code and JSON body. *)
Record response := mkResponse {
  http_status : nat;
  body : jsval
}.

Definition json (code : nat) (fields : list (string * jsval)) : response :=
  mkResponse code (JObj fields).

(** The response carries a reference the caller can query later. *)
Definition has_reference (r : response) : bool :=
  match get_prop (body r) "reference" with
  | JUndefined => false
  | _ => true
  end.

(** ** The database variant *)

Module Enhanced.

(** A row of [users]; the [phone] column (UNIQUE NOT NULL) is the key of
    the table below. *)
Record user := mkUser {
  balance : Z;
  has_paid_fee : bool;
  u_created_at : Z;
  u_updated_at : Z
}.

(** A row of [transactions]. *)
Record transaction := mkTransaction {
  reference : string;
  user_phone : string;
  type : string;
  amount : Z;
  status : string;
  description : string;
  metadata : jsval;
  created_at : Z;
  updated_at : Z
}.

(** The ledger store: users by phone, transactions in insertion order. *)
Record db := mkDb {
  users : gmap string user;
  transactions : list transaction
}.

(** *** A store monad with exceptions

    Every statement commits on its own: a later exception does not undo
    an earlier write. *)

Inductive outcome (A : Type) :=
| Returned (a : A)
| Thrown (err : jsval).
Arguments Returned {A} a.
Arguments Thrown {A} err.

Definition M (A : Type) : Type := db → outcome A * db.

Definition ret {A} (a : A) : M A := λ s, (Returned a, s).
Definition throw {A} (err : jsval) : M A := λ s, (Thrown err, s).
Definition bind {A B} (m : M A) (k : A → M B) : M B :=
  λ s, match m s with
       | (Returned a, s') => k a s'
       | (Thrown err, s') => (Thrown err, s')
       end.
Definition try_catch {A} (m : M A) (handler : jsval → M A) : M A :=
  λ s, match m s with
       | (Returned a, s') => (Returned a, s')
       | (Thrown err, s') => handler err s'
       end.
Definition lift {A} (r : jsval + A) : M A :=
  match r with
  | inl err => throw err
  | inr a => ret a
  end.

Notation "'await' x '<-' m ';;' k" := (bind m (λ x, k))
  (at level 10, x name, m at level 99, k at level 200,
   format "'[v' 'await'  x  '<-'  m  ';;' '/' k ']'").

(** *** Store operations *)

Definition pg_error (msg : string) : jsval := JObj [("message", JStr msg)].

(** The columns [balance] and [amount] are [DECIMAL(15, 2)]: a value
    with more than thirteen digits before the point is refused with
    "numeric field overflow". *)
Definition numeric_limit : Z := 10 ^ 13.

Definition fits_numeric (z : Z) : bool := (Z.abs z <? numeric_limit)%Z.

Definition getOrCreateUser (now : Z) (phone : string) : M user :=
  λ s, match users s !! phone with
       | Some u => (Returned u, s)
       | None =>
           let u := mkUser 0 false now now in
           (Returned u, mkDb (<[phone := u]> (users s)) (transactions s))
       end.

(** [UPDATE users SET balance = balance ± $1 ... WHERE phone = $2
    RETURNING *]; [rows[0]] is [undefined] when no row matches, and the
    statement fails when the new balance does not fit the column. *)
Definition updateUserBalance (now : Z) (phone : string) (amt : Z)
    (operation : string) : M (option user) :=
  λ s, match users s !! phone with
       | Some u =>
           let b := if String.eqb operation "add"
                    then (balance u + amt)%Z else (balance u - amt)%Z in
           if fits_numeric b
           then
             let u' := mkUser b (has_paid_fee u) (u_created_at u) now in
             (Returned (Some u'),
              mkDb (<[phone := u']> (users s)) (transactions s))
           else (Thrown (pg_error "numeric field overflow"), s)
       | None => (Returned None, s)
       end.

Definition markUserFeePaid (now : Z) (phone : string) : M (option user) :=
  λ s, match users s !! phone with
       | Some u =>
           let u' := mkUser (balance u) true (u_created_at u) now in
           (Returned (Some u'), mkDb (<[phone := u']> (users s)) (transactions s))
       | None => (Returned None, s)
       end.

(** The argument of [createTransaction]; [amount] may be [null]. *)
Record tx_data := mkTxData {
  d_reference : string;
  d_user_phone : string;
  d_type : string;
  d_amount : option Z;
  d_status : string;
  d_description : string;
  d_metadata : jsval
}.

Definition find_transaction (ref : string) (txs : list transaction)
    : option transaction :=
  List.find (λ t, String.eqb (reference t) ref) txs.

(** [INSERT INTO transactions ...]: [amount] is NOT NULL and has to
    fit its column, and [reference] is UNIQUE. *)
Definition createTransaction (now : Z) (data : tx_data) : M transaction :=
  λ s, match d_amount data with
       | None =>
           (Thrown (pg_error "null value in column amount violates not-null constraint"), s)
       | Some a =>
           if negb (fits_numeric a)
           then (Thrown (pg_error "numeric field overflow"), s)
           else
             match find_transaction (d_reference data) (transactions s) with
             | Some _ =>
                 (Thrown (pg_error "duplicate key value violates unique constraint"), s)
             | None =>
                 let t := mkTransaction (d_reference data) (d_user_phone data)
                            (d_type data) a (d_status data) (d_description data)
                            (d_metadata data) now now in
                 (Returned t, mkDb (users s) (transactions s ++ [t]))
             end
       end.

Definition set_status (now : Z) (ref new_status : string) (t : transaction)
    : transaction :=
  if String.eqb (reference t) ref
  then mkTransaction (reference t) (user_phone t) (type t) (amount t)
         new_status (description t) (metadata t) (created_at t) now
  else t.

(** [updateTransaction(reference, { status })]: the only update the
    handlers make. *)
Definition updateTransaction (now : Z) (ref new_status : string)
    : M (option transaction) :=
  λ s, let txs := set_status now ref new_status <$> transactions s in
       (Returned (find_transaction ref txs), mkDb (users s) txs).

Definition newer_first (a b : transaction) : Prop :=
  (created_at b ≤ created_at a)%Z.

#[local] Instance newer_first_dec a b : Decision (newer_first a b) :=
  Z_le_dec (created_at b) (created_at a).

(** [SELECT ... WHERE user_phone = $1 ORDER BY created_at DESC LIMIT $2] *)
Definition getUserTransactions (phone : string) (limit : nat)
    : M (list transaction) :=
  λ s, (Returned
          (take limit
             (merge_sort newer_first
                (List.filter (λ t, String.eqb (user_phone t) phone)
                   (transactions s)))), s).

(** *** Request handlers

    A handler is a computation in [M]; its catch block turns exceptions
    into a 500 response, and an exception that escapes the handler
    ([Thrown] at top level) means no response is sent. *)

Definition server_error : response :=
  json 500 [("success", JBool false); ("error", JStr "Server error")].

Definition invalid_phone : response :=
  json 400 [("success", JBool false); ("error", JStr "Invalid phone number")].

(** [GET /balance/:phone] *)
Definition get_balance (now : Z) (phone_param : string) : M response :=
  try_catch
    (match formatPhone (JStr phone_param) with
     | None => ret invalid_phone
     | Some formattedPhone =>
         await user <- getOrCreateUser now formattedPhone ;;
         ret (json 200 [("success", JBool true);
                        ("balance", JNum (balance user));
                        ("has_paid_fee", JBool (has_paid_fee user));
                        ("phone", JStr formattedPhone)])
     end)
    (λ _, ret server_error).

Definition transaction_view (t : transaction) : jsval :=
  JObj [("reference", JStr (reference t));
        ("type", JStr (type t));
        ("amount", JNum (amount t));
        ("status", JStr (status t));
        ("description", JStr (description t));
        ("created_at", JNum (created_at t))].

(** [GET /transactions/:phone] *)
Definition get_transactions (phone_param : string) : M response :=
  try_catch
    (match formatPhone (JStr phone_param) with
     | None => ret invalid_phone
     | Some formattedPhone =>
         await txs <- getUserTransactions formattedPhone 50 ;;
         ret (json 200 [("success", JBool true);
                        ("transactions", JArr (transaction_view <$> txs))])
     end)
    (λ _, ret server_error).

(** [POST /withdraw] *)
Definition withdraw (now : Z) (req : pay_body) : M response :=
  try_catch
    (match formatPhone (pb_phone req) with
     | None => ret invalid_phone
     | Some formattedPhone =>
         let too_small :=
           json 400 [("success", JBool false);
                     ("error", JStr "Minimum withdrawal is KES 100")] in
         match pb_amount req with
         | None => ret too_small
         | Some amt =>
             if (amt =? 0)%Z || (amt <? 100)%Z then ret too_small
             else
               await user <- getOrCreateUser now formattedPhone ;;
               if negb (has_paid_fee user)
               then ret (json 403 [("success", JBool false);
                                   ("error", JStr "You must pay the service fee before withdrawing")])
               else if (balance user <? amt)%Z
               then ret (json 400 [("success", JBool false);
                                   ("error", JStr "Insufficient balance")])
               else
                 let ref := "WD-" +:+ dec_of_Z now in
                 await _ <- createTransaction now
                   (mkTxData ref formattedPhone "withdrawal" (Some amt)
                      "processing" ("Withdrawal of KES " +:+ number_string amt)
                      (JObj [("withdrawal_to", JStr formattedPhone)])) ;;
                 await _ <- updateUserBalance now formattedPhone amt "subtract" ;;
                 ret (json 200 [("success", JBool true);
                                ("message", JStr "Withdrawal request submitted successfully");
                                ("reference", JStr ref);
                                ("amount", JNum amt);
                                ("new_balance", JNum (balance user - amt))])
         end
     end)
    (λ _, ret server_error).

(** The closure of the [setInterval] callback started by [/pay]. *)
Record poll := mkPoll {
  p_reference : string;
  p_phone : string;
  p_loan_amount : option Z;
  p_transaction_reference : jsval
}.

Definition loan_metadata (loan_amount : option Z) : jsval :=
  js_or (num_or_undefined loan_amount) (JStr "50000").

(** [POST /pay]: the response and the poll timer it started, if any.
    [now] is the clock at the start of the handler, [now_err] the clock
    read again in the catch block. The [try] block: *)
Definition pay_try (now : Z) (req : pay_body) (gw : gateway_reply)
    : M (response * option poll) :=
  let phone := pb_phone req in
  let loan_amount := pb_loan_amount req in
  match formatPhone phone with
  | None =>
      ret (json 400 [("success", JBool false);
                     ("error", JStr "Invalid phone format")], None)
  | Some formattedPhone =>
      let too_small :=
        json 400 [("success", JBool false);
                  ("error", JStr "Amount must be >= 1")] in
      match pb_amount req with
      | None => ret (too_small, None)
      | Some amt =>
          if (amt =? 0)%Z || (amt <? 1)%Z then ret (too_small, None)
          else
            let ref := "ORDER-" +:+ dec_of_Z now in
            await _ <- getOrCreateUser now formattedPhone ;;
            await data <- lift (axios gw) ;;
            if truthy data && truthy (get_prop data "success")
            then
              await tr <- lift (get_prop_strict (get_prop data "data")
                                  "transaction_reference") ;;
              let transaction_reference := js_or tr JNull in
              await _ <- createTransaction now
                (mkTxData ref formattedPhone "service_fee" (Some amt)
                   "pending"
                   ("Service fee payment for loan of KES "
                      +:+ js_String (num_or_undefined loan_amount))
                   (JObj [("transaction_id", transaction_reference);
                          ("loan_amount", loan_metadata loan_amount)])) ;;
              let timer :=
                if truthy transaction_reference
                then Some (mkPoll ref formattedPhone loan_amount
                             transaction_reference)
                else None in
              ret (json 200 [("success", JBool true);
                             ("message", JStr "STK push sent, check your phone");
                             ("reference", JStr ref)], timer)
            else
              await _ <- createTransaction now
                (mkTxData ref formattedPhone "service_fee" (Some amt)
                   "failed" "STK push failed to send"
                   (JObj [("loan_amount", loan_metadata loan_amount)])) ;;
              ret (json 400 [("success", JBool false);
                             ("error",
                              js_or (get_prop data "message")
                                (JStr "STK push failed to send. Try again later."))],
                   None)
      end
  end.

(** The [catch] block. *)
Definition pay_catch (now_err : Z) (req : pay_body) (err : jsval)
    : M (response * option poll) :=
  let phone := pb_phone req in
  let loan_amount := pb_loan_amount req in
  let ref := "ORDER-" +:+ dec_of_Z now_err in
  await _ <-
    match formatPhone phone with
    | Some formattedPhone =>
        await _ <- createTransaction now_err
          (mkTxData ref formattedPhone "service_fee"
             (match pb_amount req with
              | Some amt => if (amt =? 0)%Z then None else Some amt
              | None => None
              end)
             "error" "System error occurred"
             (JObj [("loan_amount", loan_metadata loan_amount)])) ;;
        ret tt
    | None => ret tt
    end ;;
  ret (json 500 [("success", JBool false);
                 ("error", error_message err);
                 ("reference", JStr ref)], None).

Definition pay (now now_err : Z) (req : pay_body) (gw : gateway_reply)
    : M (response * option poll) :=
  try_catch (pay_try now req gw) (pay_catch now_err req).

(** One firing of the poll timer. The result tells whether the tick
    called [clearInterval]. *)
Definition poll_tick (now : Z) (p : poll) (gw : gateway_reply) : M bool :=
  try_catch
    (await data <- lift (axios gw) ;;
     let payData := js_or (get_prop data "data") (JObj []) in
     await payStatus <- lift (lowered_status (get_prop payData "status")) ;;
     if String.eqb payStatus "completed" || String.eqb payStatus "processing"
     then
       await _ <- updateTransaction now (p_reference p) "completed" ;;
       await _ <- markUserFeePaid now (p_phone p) ;;
       let loanAmount := num_or (p_loan_amount p) 50000 in
       await _ <- updateUserBalance now (p_phone p) loanAmount "add" ;;
       await _ <- createTransaction now
         (mkTxData ("LOAN-" +:+ dec_of_Z now) (p_phone p) "loan_disbursement"
            (Some loanAmount) "completed"
            ("Loan disbursement of KES " +:+ number_string loanAmount)
            (JObj [("related_payment", JStr (p_reference p))])) ;;
       ret true
     else if String.eqb payStatus "failed" || String.eqb payStatus "cancelled"
     then
       await _ <- updateTransaction now (p_reference p) "failed" ;;
       ret true
     else ret false)
    (λ _, ret false).

Definition ack : response :=
  json 200 [("ResultCode", JNum 0); ("ResultDesc", JStr "Success")].

(** [POST /callback]: the webhook is logged and acknowledged. *)
Definition callback (data : jsval) : M response := ret ack.

Definition not_found : response :=
  json 404 [("success", JBool false); ("error", JStr "Receipt not found")].

(** [GET /receipt/:reference] *)
Definition get_receipt (ref : string) : M response :=
  try_catch
    (λ s, match find_transaction ref (transactions s) with
          | None => (Returned not_found, s)
          | Some t =>
              (Returned
                 (json 200 [("success", JBool true);
                            ("receipt",
                             JObj [("reference", JStr (reference t));
                                   ("amount", JNum (amount t));
                                   ("status", JStr (status t));
                                   ("phone", JStr (user_phone t));
                                   ("description", JStr (description t));
                                   ("timestamp", JNum (created_at t));
                                   ("metadata", metadata t)])]), s)
          end)
    (λ _, ret server_error).

(** *** The event loop

    What can happen to the store: a request, a firing of some poll
    timer, a webhook delivery. *)
Inductive event :=
| GetBalance (now : Z) (phone_param : string)
| GetTransactions (phone_param : string)
| Withdraw (now : Z) (req : pay_body)
| Pay (now now_err : Z) (req : pay_body) (gw : gateway_reply)
| Tick (now : Z) (p : poll) (gw : gateway_reply)
| Callback (data : jsval)
| GetReceipt (ref : string).

Definition handle (s : db) (e : event) : db :=
  match e with
  | GetBalance now phone_param => (get_balance now phone_param s).2
  | GetTransactions phone_param => (get_transactions phone_param s).2
  | Withdraw now req => (withdraw now req s).2
  | Pay now now_err req gw => (pay now now_err req gw s).2
  | Tick now p gw => (poll_tick now p gw s).2
  | Callback data => (callback data s).2
  | GetReceipt ref => (get_receipt ref s).2
  end.

Definition run (s : db) (events : list event) : db := foldl handle s events.

(** The two drivers of one payment: its poll timer, which fires until a
    tick clears it, and the webhook. *)
Inductive signal :=
| PollFires (now : Z) (gw : gateway_reply)
| WebhookArrives (data : jsval).

Record driver := mkDriver {
  timer_active : bool;
  store : db
}.

Definition deliver (p : poll) (d : driver) (sig : signal) : driver :=
  match sig with
  | PollFires now gw =>
      if timer_active d
      then match poll_tick now p gw (store d) with
           | (Returned true, s') => mkDriver false s'
           | (_, s') => mkDriver true s'
           end
      else d
  | WebhookArrives data => mkDriver (timer_active d) (callback data (store d)).2
  end.

Definition is_webhook (sig : signal) : Prop :=
  match sig with
  | WebhookArrives _ => True
  | PollFires _ _ => False
  end.

Definition drive (p : poll) (d : driver) (sigs : list signal) : driver :=
  foldl (deliver p) d sigs.

(** The disbursement a settling tick records, and the store it leaves
    when every statement succeeds. *)
Definition disbursement (now : Z) (p : poll) : transaction :=
  let loanAmount := num_or (p_loan_amount p) 50000 in
  mkTransaction ("LOAN-" +:+ dec_of_Z now) (p_phone p) "loan_disbursement"
    loanAmount "completed"
    ("Loan disbursement of KES " +:+ number_string loanAmount)
    (JObj [("related_payment", JStr (p_reference p))]) now now.

Definition fee_marked (now : Z) (u : user) : user :=
  mkUser (balance u) true (u_created_at u) now.

Definition credited (now : Z) (p : poll) (u : user) : user :=
  mkUser (balance u + num_or (p_loan_amount p) 50000) true (u_created_at u) now.

Definition settled (now : Z) (p : poll) (u : user) (s : db) : db :=
  mkDb (<[p_phone p := credited now p u]> (users s))
       ((set_status now (p_reference p) "completed" <$> transactions s)
          ++ [disbursement now p])%list.

(** Observations on the ledger. *)
Definition balance_of (phone : string) (s : db) : option Z :=
  balance <$> users s !! phone.

Definition is_disbursement_for (ref : string) (t : transaction) : bool :=
  String.eqb (type t) "loan_disbursement"
  && match get_prop (metadata t) "related_payment" with
     | JStr r => String.eqb r ref
     | _ => false
     end.

Definition disbursements_for (ref : string) (s : db) : list transaction :=
  List.filter (is_disbursement_for ref) (transactions s).

Definition references (s : db) : list string :=
  reference <$> transactions s.

(** Users and transactions are never deleted: the ledger only grows. *)
Definition grows (s s' : db) : Prop :=
  (∀ phone, is_Some (users s !! phone) → is_Some (users s' !! phone))
  ∧ (∀ ref, ref ∈ references s → ref ∈ references s').

(** A computation whose final store is related to its initial one. *)
Definition preserves (R : db → db → Prop) {A} (m : M A) : Prop :=
  ∀ s, R s (m s).2.

(** [GET /receipt/:reference/pdf], up to the call of
    [generateReceiptPDF]: the 404 answer, or the row the document is
    made from. *)
Definition get_receipt_pdf (ref : string) : M (response + transaction) :=
  λ s, match find_transaction ref (transactions s) with
       | None => (Returned (inl not_found), s)
       | Some receipt => (Returned (inr receipt), s)
       end.

(** *** Withdrawals that overlap

    A handler is suspended at each [await], and the event loop may run
    the statements of other requests before it resumes. The course of
    one withdrawal: before the user row is read; the checks passed on
    the row read, the transaction about to be inserted; the transaction
    inserted, the balance about to be debited; answered. *)
Inductive withdrawal :=
| Reading (now : Z) (req : pay_body)
| Inserting (now : Z) (phone : string) (amt : Z) (user : user)
| Debiting (now : Z) (phone : string) (amt : Z) (user : user)
| Answered (resp : response).

(** The statements of the handler up to its next [await], and that
    awaited statement; an exception is answered by the [catch] block. *)
Definition withdraw_step (w : withdrawal) : db → withdrawal * db :=
  λ s,
    match w with
    | Reading now req =>
        match formatPhone (pb_phone req) with
        | None => (Answered invalid_phone, s)
        | Some formattedPhone =>
            let too_small :=
              json 400 [("success", JBool false);
                        ("error", JStr "Minimum withdrawal is KES 100")] in
            match pb_amount req with
            | None => (Answered too_small, s)
            | Some amt =>
                if (amt =? 0)%Z || (amt <? 100)%Z then (Answered too_small, s)
                else
                  match getOrCreateUser now formattedPhone s with
                  | (Thrown _, s') => (Answered server_error, s')
                  | (Returned user, s') =>
                      if negb (has_paid_fee user)
                      then (Answered
                              (json 403 [("success", JBool false);
                                         ("error", JStr "You must pay the service fee before withdrawing")]),
                            s')
                      else if (balance user <? amt)%Z
                      then (Answered
                              (json 400 [("success", JBool false);
                                         ("error", JStr "Insufficient balance")]),
                            s')
                      else (Inserting now formattedPhone amt user, s')
                  end
            end
        end
    | Inserting now formattedPhone amt user =>
        match createTransaction now
                (mkTxData ("WD-" +:+ dec_of_Z now) formattedPhone "withdrawal"
                   (Some amt) "processing"
                   ("Withdrawal of KES " +:+ number_string amt)
                   (JObj [("withdrawal_to", JStr formattedPhone)])) s with
        | (Thrown _, s') => (Answered server_error, s')
        | (Returned _, s') => (Debiting now formattedPhone amt user, s')
        end
    | Debiting now formattedPhone amt user =>
        match updateUserBalance now formattedPhone amt "subtract" s with
        | (Thrown _, s') => (Answered server_error, s')
        | (Returned _, s') =>
            (Answered
               (json 200 [("success", JBool true);
                          ("message", JStr "Withdrawal request submitted successfully");
                          ("reference", JStr ("WD-" +:+ dec_of_Z now));
                          ("amount", JNum amt);
                          ("new_balance", JNum (balance user - amt))]),
             s')
        end
    | Answered resp => (Answered resp, s)
    end.

(** Two withdrawals in flight. A schedule says whose statement runs
    next: [false] the first request's, [true] the second's. *)
Definition overlap_step (st : withdrawal * withdrawal * db) (second : bool)
    : withdrawal * withdrawal * db :=
  let '(w1, w2, s) := st in
  if second
  then let '(w2', s') := withdraw_step w2 s in (w1, w2', s')
  else let '(w1', s') := withdraw_step w1 s in (w1', w2, s').

Definition overlap (w1 w2 : withdrawal) (s : db) (schedule : list bool)
    : withdrawal * withdrawal * db :=
  foldl overlap_step (w1, w2, s) schedule.

(** *** Invariants of the ledger *)

(** Every stored balance is a value of its column. *)
Definition balances_fit (s : db) : Prop :=
  ∀ phone u, users s !! phone = Some u → fits_numeric (balance u) = true.

(** A step from a store whose balances fit leads to such a store. *)
Definition stays_in_range (s s' : db) : Prop :=
  balances_fit s → balances_fit s'.

(** A user who has not paid the fee holds nothing. *)
Definition unpaid_hold_nothing (s : db) : Prop :=
  ∀ phone u,
    users s !! phone = Some u → has_paid_fee u = false → balance u = 0%Z.

(** A user who has paid the fee stays so. *)
Definition fee_paid_persists (s s' : db) : Prop :=
  ∀ phone u,
    users s !! phone = Some u → has_paid_fee u = true →
    ∃ u', users s' !! phone = Some u' ∧ has_paid_fee u' = true.

(** The rows of existing users are as before. *)
Definition users_kept (s s' : db) : Prop :=
  ∀ phone u, users s !! phone = Some u → users s' !! phone = Some u.

(** What one event leaves of the row stored for a phone: the row as
    it was; a new row with nothing on it and the fee unpaid; or a row
    with the fee paid. *)
Inductive row_step : option user → user → Prop :=
| row_same u : row_step (Some u) u
| row_created now : row_step None (mkUser 0 false now now)
| row_paid u b now :
    row_step (Some u) (mkUser b true (u_created_at u) now).

(** Two versions of one transaction row: everything but the status and
    the update stamp is equal. *)
Definition same_record (t t' : transaction) : Prop :=
  reference t' = reference t
  ∧ user_phone t' = user_phone t
  ∧ type t' = type t
  ∧ amount t' = amount t
  ∧ description t' = description t
  ∧ metadata t' = metadata t
  ∧ created_at t' = created_at t.

(** The users table changes by creation of empty rows only. *)
Definition only_creates (s s' : db) : Prop :=
  users_kept s s'
  ∧ ∀ phone v,
      users s' !! phone = Some v →
      users s !! phone = Some v
      ∨ (users s !! phone = None ∧ ∃ now, v = mkUser 0 false now now).

(** Every transaction row is still there, in place, as the same
    record. *)
Definition records_kept (s s' : db) : Prop :=
  ∀ i t,
    transactions s !! i = Some t →
    ∃ t', transactions s' !! i = Some t' ∧ same_record t t'.

(** References stay pairwise distinct. *)
Definition distinct_kept (s s' : db) : Prop :=
  NoDup (references s) → NoDup (references s').

(** The events that can change the row of an existing user. *)
Definition moves_money (e : event) : bool :=
  match e with
  | Tick _ _ _ | Withdraw _ _ => true
  | _ => false
  end.

End Enhanced.

(** ** The legacy variant *)

Module Legacy.

(** [receipts.json]: a JSON object from reference to receipt, each
    receipt a JSON object. [readReceipts] and [writeReceipts] load and
    store it whole. The handlers are modelled in a process whose
    [Object.prototype] has not been written to; the one handler that
    can write to it, the webhook, tells when it does. *)
Abbreviation receipt := (gmap string jsval).
Abbreviation receipts := (gmap string (gmap string jsval)).

(** [r.k], for the fixed names the handlers read *)
Definition field (r : receipt) (k : string) : jsval :=
  default JUndefined (r !! k).

(** [r.k = v]; a property holding [undefined] is dropped when the file
    is written. *)
Definition set_field (k : string) (v : jsval) (r : receipt) : receipt :=
  match v with
  | JUndefined => delete k r
  | _ => <[k := v]> r
  end.

Definition receipt_json (r : receipt) : jsval := JObj (map_to_list r).

(** The status stored under a reference, [undefined] when there is no
    such receipt. *)
Definition stored_status (ref : string) (s : receipts) : jsval :=
  match s !! ref with
  | Some r => field r "status"
  | None => JUndefined
  end.

Record poll := mkPoll {
  p_reference : string;
  p_transaction_reference : jsval
}.

Definition loan_field (loan_amount : option Z) : jsval :=
  js_or (num_or_undefined loan_amount) (JStr "50000").

(** The answer to a successful initiation. *)
Definition pay_accepted (ref : string) (receiptData : receipt) : response :=
  json 200 [("success", JBool true);
            ("message", JStr "STK push sent, check your phone");
            ("reference", JStr ref);
            ("receipt", receipt_json receiptData)].

(** [POST /pay] *)
Definition pay (now now_err : Z) (req : pay_body) (gw : gateway_reply)
    (s : receipts) : (response * option poll) * receipts :=
  let phone := pb_phone req in
  let loan_amount := pb_loan_amount req in
  let attempt : jsval + ((response * option poll) * receipts) :=
    match formatPhone phone with
    | None =>
        inr (json 400 [("success", JBool false);
                       ("error", JStr "Invalid phone format")], None, s)
    | Some formattedPhone =>
        let too_small :=
          json 400 [("success", JBool false);
                    ("error", JStr "Amount must be >= 1")] in
        match pb_amount req with
        | None => inr (too_small, None, s)
        | Some amt =>
            if (amt =? 0)%Z || (amt <? 1)%Z then inr (too_small, None, s)
            else
              let ref := "ORDER-" +:+ dec_of_Z now in
              match axios gw with
              | inl err => inl err
              | inr data =>
                  if truthy data && truthy (get_prop data "success")
                  then
                    match get_prop_strict (get_prop data "data")
                            "transaction_reference" with
                    | inl err => inl err
                    | inr tr =>
                        let transaction_reference := js_or tr JNull in
                        let receiptData : receipt :=
                          list_to_map
                            [("reference", JStr ref);
                             ("transaction_id", transaction_reference);
                             ("transaction_code", JNull);
                             ("amount", JNum amt);
                             ("loan_amount", loan_field loan_amount);
                             ("phone", JStr formattedPhone);
                             ("customer_name", JStr "N/A");
                             ("status", JStr "pending");
                             ("status_note",
                              JStr ("STK push sent to " +:+ formattedPhone
                                      +:+ ". Enter your M-Pesa PIN to complete."));
                             ("timestamp", JNum now)] in
                        let timer :=
                          if truthy transaction_reference
                          then Some (mkPoll ref transaction_reference)
                          else None in
                        inr (pay_accepted ref receiptData,
                             timer, <[ref := receiptData]> s)
                    end
                  else
                    let status_note :=
                      js_or (get_prop data "message")
                        (JStr "STK push failed to send. Try again later.") in
                    let failedReceipt : receipt :=
                      list_to_map
                        [("reference", JStr ref);
                         ("transaction_id",
                          js_or (get_prop (get_prop data "data")
                                   "transaction_reference") JNull);
                         ("amount", JNum amt);
                         ("loan_amount", loan_field loan_amount);
                         ("phone", JStr formattedPhone);
                         ("status", JStr "stk_failed");
                         ("status_note", status_note);
                         ("timestamp", JNum now)] in
                    inr (json 400 [("success", JBool false);
                                   ("error", status_note)],
                         None, <[ref := failedReceipt]> s)
              end
        end
    end in
  match attempt with
  | inr result => result
  | inl err =>
      let ref := "ORDER-" +:+ dec_of_Z now_err in
      let errorReceipt : receipt :=
        list_to_map
          [("reference", JStr ref);
           ("transaction_id", JNull);
           ("amount",
            match pb_amount req with
            | Some amt => if (amt =? 0)%Z then JNull else JNum amt
            | None => JNull
            end);
           ("loan_amount", loan_field loan_amount);
           ("phone",
            match formatPhone phone with
            | Some formattedPhone => JStr formattedPhone
            | None => JNull
            end);
           ("status", JStr "error");
           ("status_note", JStr "System error occurred. Please try again later.");
           ("timestamp", JNum now_err)] in
      (json 500 [("success", JBool false);
                 ("error", error_message err);
                 ("reference", JStr ref)],
       None, <[ref := errorReceipt]> s)
  end.

(** One firing of the poll timer; the boolean tells whether the tick
    called [clearInterval]. The reference of a poll is the
    ORDER-<clock> string of its initiation, which no object inherits. *)
Definition poll_tick (now : Z) (p : poll) (gw : gateway_reply)
    (s : receipts) : bool * receipts :=
  let attempt : jsval + (bool * receipts) :=
    match axios gw with
    | inl err => inl err
    | inr data =>
        let payData := js_or (get_prop data "data") (JObj []) in
        match lowered_status (get_prop payData "status") with
        | inl err => inl err
        | inr payStatus =>
            match s !! p_reference p with
            | None => inr (true, s)
            | Some current =>
                if String.eqb payStatus "completed"
                   || String.eqb payStatus "processing"
                then
                  let current' :=
                    set_field "timestamp" (JNum now)
                      (set_field "status_note"
                         (JStr ("✅ Payment received. Loan Reference: "
                                  +:+ p_reference p +:+ ". Processing started."))
                         (set_field "phone"
                            (js_or (get_prop payData "mobile_number")
                               (field current "phone"))
                            (set_field "amount"
                               (js_or (get_prop payData "amount")
                                  (field current "amount"))
                               (set_field "transaction_code"
                                  (js_or (get_prop payData "mpesa_receipt_number")
                                     (js_or (get_prop payData "mpesa_transaction_id")
                                        (field current "transaction_code")))
                                  (set_field "status" (JStr "processing")
                                     current))))) in
                  inr (true, <[p_reference p := current']> s)
                else if String.eqb payStatus "failed"
                        || String.eqb payStatus "cancelled"
                then
                  let current' :=
                    set_field "timestamp" (JNum now)
                      (set_field "status_note"
                         (js_or (get_prop payData "failure_reason")
                            (JStr "Payment failed or cancelled."))
                         (set_field "status" (JStr "cancelled") current)) in
                  inr (true, <[p_reference p := current']> s)
                else inr (false, s)
            end
        end
    end in
  match attempt with
  | inr result => result
  | inl _ => (false, s)
  end.

(** The candidate reference fields of a webhook body, in the order the
    handler tries them, and the ones that are truthy. *)
Definition candidates (data : jsval) : list jsval :=
  [get_prop data "external_reference";
   get_prop data "transaction_reference";
   get_prop data "reference";
   get_prop (get_prop data "data") "transaction_reference"].

Definition refCandidates (data : jsval) : list jsval :=
  List.filter truthy (candidates data).

(** What the webhook reads in its body: [data.data || data], its
    lower-cased [status], and whether [result_code === 0]. *)
Definition webhook_payData (data : jsval) : jsval :=
  js_or (get_prop data "data") data.

Definition webhook_status (data : jsval) : jsval + string :=
  lowered_status (get_prop (webhook_payData data) "status").

Definition result_code_zero (data : jsval) : bool :=
  match get_prop (webhook_payData data) "result_code" with
  | JNum 0 => true
  | _ => false
  end.

(** The status the webhook writes for a lower-cased status [st]. *)
Definition webhook_verdict (data : jsval) (st : string) : jsval :=
  if String.eqb st "completed" || result_code_zero data
  then JStr "processing" else JStr "cancelled".

(** The members every object inherits from [Object.prototype]: eleven
    functions and the accessor [__proto__]. *)
Definition Object_prototype : list string :=
  ["constructor"; "__defineGetter__"; "__defineSetter__"; "hasOwnProperty";
   "__lookupGetter__"; "__lookupSetter__"; "isPrototypeOf";
   "propertyIsEnumerable"; "toString"; "valueOf"; "__proto__";
   "toLocaleString"].

(** [receipts[key]] for a key that comes from a request: the stored
    receipt, else the inherited member of that name, else
    [undefined]. *)
Inductive found :=
| Stored (r : receipt)
| Member (name : string)
| Absent.

Definition receipt_at (key : string) (s : receipts) : found :=
  match s !! key with
  | Some r => Stored r
  | None =>
      if existsb (String.eqb key) Object_prototype then Member key else Absent
  end.

(** What [processWebhookData] does when it returns: nothing, for want
    of a reference; or it writes the receipt under the key; or, the key
    naming an inherited member, it sets the three fields on that member
    of [Object.prototype] ([Object.prototype] itself for [__proto__])
    and rewrites the file with the content it had, a function not being
    part of a JSON text and an assignment to [__proto__] not making a
    property. *)
Inductive webhook_effect :=
| NoReference
| Wrote (key : string) (r : receipt)
| WroteMember (name : string) (fields : receipt).

(** [processWebhookData]; [inl] when it throws, which is before
    anything is written. [now] is the clock. *)
Definition processWebhookData (now : Z) (data : jsval) (s : receipts)
    : jsval + webhook_effect :=
  match refCandidates data with
  | [] => inr NoReference
  | ref :: _ =>
      match to_String ref with
      | inl err => inl err
      | inr key =>
          let payData := js_or (get_prop data "data") data in
          match lowered_status (get_prop payData "status") with
          | inl err => inl err
          | inr status =>
              let settled :=
                String.eqb status "completed" || result_code_zero data in
              let write (receipt0 : receipt) : receipt :=
                set_field "timestamp" (JNum now)
                  (if settled
                   then set_field "status_note"
                          (JStr "✅ Payment verified. Loan processing started.")
                          (set_field "status" (JStr "processing") receipt0)
                   else set_field "status_note"
                          (js_or (get_prop payData "failure_reason")
                             (js_or (get_prop (get_prop payData "result")
                                       "ResultDesc")
                                (JStr "Payment failed or cancelled.")))
                          (set_field "status" (JStr "cancelled") receipt0)) in
              match receipt_at key s with
              | Stored r => inr (Wrote key (write r))
              | Absent => inr (Wrote key (write ∅))
              | Member name => inr (WroteMember name (write ∅))
              end
          end
      end
  end.

(** The receipts file after the effect. *)
Definition written (e : webhook_effect) (s : receipts) : receipts :=
  match e with
  | NoReference | WroteMember _ _ => s
  | Wrote key r => <[key := r]> s
  end.

Definition ack : response :=
  json 200 [("ResultCode", JNum 0); ("ResultDesc", JStr "Success")].

(** [POST /callback]. An exception in the synchronous handler reaches
    the framework's default error handler, which answers 500. *)
Definition callback (now : Z) (data : jsval) (s : receipts)
    : response * receipts :=
  match processWebhookData now data s with
  | inr e => (ack, written e s)
  | inl _ => (mkResponse 500 (JStr "Internal Server Error"), s)
  end.

Definition not_found : response :=
  json 404 [("success", JBool false); ("error", JStr "Receipt not found")].

(** [GET /receipt/:reference]. An inherited member is truthy, so it is
    answered as a receipt; [JSON.stringify] leaves out a property whose
    value is a function and renders [Object.prototype] as an empty
    object. *)
Definition get_receipt (ref : string) (s : receipts) : response :=
  match receipt_at ref s with
  | Absent => not_found
  | Stored r => json 200 [("success", JBool true);
                          ("receipt", receipt_json r)]
  | Member name =>
      if String.eqb name "__proto__"
      then json 200 [("success", JBool true); ("receipt", JObj [])]
      else json 200 [("success", JBool true)]
  end.

(** [GET /receipt/:reference/pdf], up to the call of
    [generateReceiptPDF]: the 404 answer, or what the document is to be
    made from. *)
Definition get_receipt_pdf (ref : string) (s : receipts) : response + found :=
  match receipt_at ref s with
  | Absent => inl not_found
  | receipt => inr receipt
  end.

(** *** The loan-release job *)





Section dates.

(** [Date.parse] on a string that is not one of the modelled instants:
    [None] is [NaN]. *)
Variable Date_parse : string → option Z.

(** The largest time value, 8.64e15 ms either side of the epoch. *)
Definition time_limit : Z := 8640000000000000.

(** [new Date(v).getTime()], [None] for [NaN]: a number is a time value
    when it is within the limit, [null] and [false] convert to 0 and
    [true] to 1, [undefined] to [NaN], a string is parsed, and an
    object or array is converted to a string first, which can throw. *)
Definition getTime (v : jsval) : jsval + option Z :=
  match v with
  | JUndefined => inr None
  | JNull | JBool false => inr (Some 0%Z)
  | JBool true => inr (Some 1%Z)
  | JNum n => inr (if (Z.abs n <=? time_limit)%Z then Some n else None)
  | JStr s => inr (Date_parse s)
  | JArr _ | JObj _ =>
      match to_String v with
      | inl err => inl err
      | inr s => inr (Date_parse s)
      end
  end.

Definition release_delay : Z := 24 * 60 * 60 * 1000.

Definition released (r : receipt) : receipt :=
  <["status_note" := JStr "Loan has been released to your account. Thank you."]>
    (<["status" := JStr "loan_released"]> r).

(** The body of the cron loop for one receipt; [inl] when it throws. *)
Definition release (now : Z) (r : receipt) : jsval + receipt :=
  match field r "status" with
  | JStr st =>
      if String.eqb st "processing"
      then match getTime (field r "timestamp") with
           | inl err => inl err
           | inr (Some t) =>
               if (t + release_delay <=? now)%Z then inr (released r)
               else inr r
           | inr None => inr r
           end
      else inr r
  | _ => inr r
  end.

(** A receipt the cron job is to release: its status is processing and
    the instant its timestamp stands for lies 24 hours or more in the
    past. *)
Definition due (now : Z) (r : receipt) : Prop :=
  r !! "status" = Some (JStr "processing")
  ∧ ∃ t, getTime (field r "timestamp") = inr (Some t)
         ∧ (t + 24 * 60 * 60 * 1000 ≤ now)%Z.

(** A receipt whose timestamp makes the job throw. *)
Definition jams (r : receipt) : Prop :=
  r !! "status" = Some (JStr "processing")
  ∧ String_throws (field r "timestamp") = true.

(** A file in which every receipt carries the instant it was written
    at, as the handlers leave it. *)
Definition dated (s : receipts) : Prop :=
  ∀ ref r, s !! ref = Some r → ∃ t, r !! "timestamp" = Some (JNum t).

(** One iteration of the cron loop, once no earlier one has thrown. *)
Definition cron_step (now : Z) (acc : jsval + receipts) (ref : string)
    : jsval + receipts :=
  match acc with
  | inl err => inl err
  | inr receipts =>
      match receipts !! ref with
      | Some r =>
          match release now r with
          | inl err => inl err
          | inr r' => inr (<[ref := r']> receipts)
          end
      | None => inr receipts
      end
  end.

(** The cron job: [for (const ref in receipts)] over the file's keys,
    then the file is written back; an exception in the loop leaves the
    file as it was. *)
Definition cron_job (now : Z) (s : receipts) : receipts :=
  match foldl (cron_step now) (inr s) (map_to_list s).*1 with
  | inr s' => s'
  | inl _ => s
  end.

End dates.

End Legacy.

(** ** Concrete runs *)

Module Scenario.

Definition empty_db : Enhanced.db := Enhanced.mkDb ∅ [].

(** The gateway accepts the payment and names its transaction. *)
Definition gateway_accepts (tr : string) : gateway_reply :=
  GwReply (JObj [("success", JBool true);
                 ("data", JObj [("transaction_reference", JStr tr)])]).

(** The gateway reports a failure. *)
Definition gateway_refuses : gateway_reply :=
  GwReply (JObj [("success", JBool false);
                 ("message", JStr "Insufficient funds")]).

Definition alice : pay_body :=
  mkPayBody (JStr "0712345678") (Some 200%Z) None eq_refl.
Definition bob : pay_body :=
  mkPayBody (JStr "0722000000") (Some 200%Z) (Some 30000%Z) eq_refl.

Definition alice_phone : string := "254712345678".
Definition bob_phone : string := "254722000000".

Definition alice_poll : Enhanced.poll :=
  Enhanced.mkPoll "ORDER-1000" alice_phone None (JStr "TXA").
Definition bob_poll : Enhanced.poll :=
  Enhanced.mkPoll "ORDER-1001" bob_phone (Some 30000%Z) (JStr "TXB").

Definition accepted (ref : string) : response :=
  json 200 [("success", JBool true);
            ("message", JStr "STK push sent, check your phone");
            ("reference", JStr ref)].

Definition refused : response :=
  json 400 [("success", JBool false); ("error", JStr "Insufficient funds")].

(** Alice pays at 1000, Bob at 1001. *)
Definition after_alice : Enhanced.db :=
  (Enhanced.pay 1000 1000 alice (gateway_accepts "TXA") empty_db).2.
Definition after_bob : Enhanced.db :=
  (Enhanced.pay 1001 1001 bob (gateway_accepts "TXB") after_alice).2.

(** A status answer of the gateway. *)
Definition status_answer (status : string) : jsval :=
  JObj [("success", JBool true);
        ("data", JObj [("status", JStr status)])].

(** Bob's payment is settled by a tick at 16000. *)
Definition after_bob_settled : Enhanced.db :=
  (Enhanced.poll_tick 16000 bob_poll (GwReply (status_answer "completed"))
     after_bob).2.

(** The webhook reporting Alice's payment completed. *)
Definition alice_webhook : jsval :=
  JObj [("reference", JStr "ORDER-1000"); ("status", JStr "completed")].

(** A payment that asks for a loan of zero. *)
Definition zero_loan : pay_body :=
  mkPayBody (JStr "0712345678") (Some 200%Z) (Some 0%Z) eq_refl.
Definition zero_loan_poll : Enhanced.poll :=
  Enhanced.mkPoll "ORDER-1000" alice_phone (Some 0%Z) (JStr "TXA").
Definition after_zero_loan : Enhanced.db :=
  (Enhanced.pay 1000 1000 zero_loan (gateway_accepts "TXA") empty_db).2.

(** A payment that asks for a loan the amount column cannot hold. *)
Definition huge_loan : pay_body :=
  mkPayBody (JStr "0712345678") (Some 200%Z) (Some (10 ^ 13)%Z) eq_refl.
Definition huge_loan_poll : Enhanced.poll :=
  Enhanced.mkPoll "ORDER-1000" alice_phone (Some (10 ^ 13)%Z) (JStr "TXA").
Definition after_huge_loan : Enhanced.db :=
  (Enhanced.pay 1000 1000 huge_loan (gateway_accepts "TXA") empty_db).2.

(** A user who has paid the fee and holds 500. *)
Definition paid_user : Enhanced.user := Enhanced.mkUser 500 true 0 0.
Definition paid_db : Enhanced.db :=
  Enhanced.mkDb {[alice_phone := paid_user]} [].

(** A user with a large balance who has not paid the fee. *)
Definition unpaid_user : Enhanced.user := Enhanced.mkUser 1000000 false 0 0.
Definition unpaid_db : Enhanced.db :=
  Enhanced.mkDb {[alice_phone := unpaid_user]} [].

Definition withdraw_50 : pay_body :=
  mkPayBody (JStr "0712345678") (Some 50%Z) None eq_refl.
Definition withdraw_500 : pay_body :=
  mkPayBody (JStr "0712345678") (Some 500%Z) None eq_refl.

(** A receipt in processing since instant 0. *)
Definition processing_receipt : Legacy.receipt :=
  {["status" := JStr "processing"; "timestamp" := JNum 0]}.



(** A [Date.parse] that knows no date. *)
Definition no_dates : string → option Z := λ _, None.

(** Webhook bodies for Alice's legacy receipt. *)
Definition webhook_with_status (status : string) : jsval :=
  JObj [("reference", JStr "ORDER-1000"); ("status", JStr status)].

Definition legacy_alice_poll : Legacy.poll :=
  Legacy.mkPoll "ORDER-1000" (JStr "TXA").

(** The same two payments in the legacy variant, both at 1000. *)
Definition legacy_after_alice : Legacy.receipts :=
  (Legacy.pay 1000 1000 alice (gateway_accepts "TXA") ∅).2.
Definition legacy_alice_receipt : Legacy.receipt :=
  default ∅ (legacy_after_alice !! "ORDER-1000").
Definition legacy_bob_receipt : Legacy.receipt :=
  default ∅ ((Legacy.pay 1000 1000 bob (gateway_accepts "TXB")
                legacy_after_alice).2 !! "ORDER-1000").

End Scenario.

(** * Verification *)

(** ** Strings *)

Lemma append_cons (a : ascii) (p r : string) :
  String a p +:+ r = String a (p +:+ r).
Proof. reflexivity. Qed.

Lemma prefix_app (p s : string) :
  String.prefix p s = true ↔ ∃ r, s = p +:+ r.
Proof.
  revert s. induction p as [|a p IH]; intros s; simpl.
  - destruct s; simpl; (split; [intros _; by eexists | done]).
  - destruct s as [|b s]; simpl.
    + split; [done | intros [r Hr]; discriminate].
    + destruct (Ascii.ascii_dec a b) as [->|Hne].
      * rewrite IH. split; intros [r Hr]; exists r; rewrite append_cons in *; congruence.
      * split; [done | intros [r Hr]; rewrite append_cons in Hr; congruence].
Qed.

Lemma substring_all (s : string) : String.substring 0 (String.length s) s = s.
Proof. induction s as [|a s IH]; simpl; [done | by rewrite IH]. Qed.

Lemma substring_from1_cons (a : ascii) (s : string) :
  substring_from1 (String a s) = s.
Proof.
  unfold substring_from1. simpl. rewrite Nat.sub_0_r. apply substring_all.
Qed.

Lemma dec_of_Z_inj (a b : Z) : dec_of_Z a = dec_of_Z b → a = b.
Proof.
  unfold dec_of_Z. intros H.
  apply (f_equal NilEmpty.int_of_string) in H.
  rewrite !NilEmpty.isi in H.
  injection H as H.
  apply (f_equal Z.of_int) in H.
  by rewrite !DecimalZ.of_to in H.
Qed.

Lemma reference_inj (prefix : string) (a b : Z) :
  prefix +:+ dec_of_Z a = prefix +:+ dec_of_Z b → a = b.
Proof.
  intros H. apply dec_of_Z_inj.
  induction prefix as [|c p IH]; [done |].
  rewrite !append_cons in H. injection H as H. by apply IH.
Qed.

(** ** The phone normalizer *)

Lemma falsy_digits (phone : jsval) :
  truthy phone = false →
  (String.length (strip_non_digits (js_String phone)) ≤ 1)%nat.
Proof.
  destruct phone as [| |[]|n|s|l|l]; simpl; try done; try (intros _; lia).
  - intros H%negb_false_iff%Z.eqb_eq. subst n. vm_compute. lia.
  - intros H%negb_false_iff%String.eqb_eq. subst s. simpl. lia.
Qed.

(** Stripping keeps the characters among the ten digits. *)
Lemma is_digit_spec (a : ascii) :
  is_digit a = bool_decide (a ∈ String.list_ascii_of_string "0123456789").
Proof.
  destruct a as [[] [] [] [] [] [] [] []]; vm_compute; reflexivity.
Qed.

Lemma strip_non_digits_spec (s : string) : strip_non_digits s = digits_only s.
Proof.
  unfold digits_only. induction s as [|a s IH]; [done |].
  cbn [strip_non_digits String.list_ascii_of_string List.filter].
  rewrite <- is_digit_spec.
  destruct (is_digit a); cbn [String.string_of_list_ascii]; by rewrite IH.
Qed.

(** On the stripped digits the normalizer is the three-shape relation. *)
Lemma formatPhone_shapes (phone : jsval) :
  normalizes (strip_non_digits (js_String phone)) (formatPhone phone).
Proof.
  unfold formatPhone.
  destruct (truthy phone) eqn:Htruthy; simpl.
  - set (d := strip_non_digits (js_String phone)).
    destruct (_ && String.prefix "7" d) eqn:H9.
    { apply andb_prop in H9 as [Hlen%Nat.eqb_eq Hpre%prefix_app].
      by apply norm_local9. }
    destruct (_ && String.prefix "07" d) eqn:H10.
    { apply andb_prop in H10 as [Hlen%Nat.eqb_eq Hpre%prefix_app].
      destruct Hpre as [r Hr].
      replace (substring_from1 d) with ("7" +:+ r)
        by (rewrite Hr; symmetry; apply substring_from1_cons).
      apply norm_local10; [split; eauto | by rewrite Hr]. }
    destruct (_ && String.prefix "254" d) eqn:H12.
    { apply andb_prop in H12 as [Hlen%Nat.eqb_eq Hpre%prefix_app].
      by apply norm_intl12. }
    apply norm_reject; intros [Hlen Hpre%prefix_app];
      apply Nat.eqb_eq in Hlen.
    + by rewrite Hlen, Hpre in H9.
    + by rewrite Hlen, Hpre in H10.
    + by rewrite Hlen, Hpre in H12.
  - pose proof (falsy_digits phone Htruthy) as Hshort.
    apply norm_reject; intros [Hlen _]; lia.
Qed.

(** C9: the phone normalizer is a total function of a string or number
    which, on the digits of the input (for a number, of the string
    JavaScript prints it as: its decimal numeral up to 2^53), prefixes a
    9-digit string starting with 7 with 254, replaces the leading 0 of a
    10-digit string starting with 07 by 254, passes a 12-digit string
    starting with 254 through, and fails on every other shape. Every
    character that is not a digit is dropped first; the three spellings
    of one number agree, with or without separators, and "12345" and
    "254" fail, as do the empty string, 0 and a missing phone. *)
Theorem formatPhone_normalizes :
  (∀ s : string, normalizes (digits_only s) (formatPhone (JStr s)))
  ∧ (∀ n : Z, normalizes (digits_only (number_string n)) (formatPhone (JNum n)))
  ∧ (∀ n : Z, (Z.abs n ≤ 2 ^ 53)%Z → number_string n = dec_of_Z n)
  ∧ (∀ s : string, strip_non_digits s = digits_only s)
  ∧ formatPhone (JStr "0712345678") = Some "254712345678"
  ∧ formatPhone (JStr "712345678") = Some "254712345678"
  ∧ formatPhone (JStr "254712345678") = Some "254712345678"
  ∧ formatPhone (JStr "+254 712-345-678") = Some "254712345678"
  ∧ formatPhone (JStr "(0712) 345 678") = Some "254712345678"
  ∧ formatPhone (JNum 712345678) = Some "254712345678"
  ∧ formatPhone (JNum 254712345678) = Some "254712345678"
  ∧ number_string 7123456000000000000000 = "7.123456e+21"
  ∧ formatPhone (JNum 7123456000000000000000) = Some "254712345621"
  ∧ formatPhone (JStr "12345") = None
  ∧ formatPhone (JStr "254") = None
  ∧ formatPhone (JStr "0712x345y6789") = None
  ∧ formatPhone (JStr "") = None
  ∧ formatPhone (JNum 0) = None
  ∧ formatPhone JNull = None
  ∧ formatPhone JUndefined = None.
Proof.
  split; [| split; [| split; [| split; [apply strip_non_digits_spec |]]]].
  - intros s. rewrite <- strip_non_digits_spec. apply (formatPhone_shapes (JStr s)).
  - intros n. rewrite <- strip_non_digits_spec. apply (formatPhone_shapes (JNum n)).
  - intros n Hn. unfold number_string, safe_integer.
    by replace (Z.abs n <=? 2 ^ 53)%Z with true by lia.
  - by vm_compute.
Qed.

(** ** The database variant: how computations act on the store *)

Section preservation.
Import Enhanced.
Variable R : db → db → Prop.
Hypothesis R_refl : ∀ s, R s s.
Hypothesis R_trans : ∀ s1 s2 s3, R s1 s2 → R s2 s3 → R s1 s3.

Lemma preserves_ret {A} (a : A) : preserves R (ret a).
Proof using R_refl. intros s. apply R_refl. Qed.

Lemma preserves_throw {A} (err : jsval) : preserves R (@throw A err).
Proof using R_refl. intros s. apply R_refl. Qed.

Lemma preserves_lift {A} (r : jsval + A) : preserves R (lift r).
Proof using R_refl.
  destruct r; [apply preserves_throw | apply preserves_ret].
Qed.

Lemma preserves_bind {A B} (m : M A) (k : A → M B) :
  preserves R m → (∀ a, preserves R (k a)) → preserves R (bind m k).
Proof using R_trans.
  intros Hm Hk s. unfold bind. specialize (Hm s).
  destruct (m s) as [[a|err] s']; simpl in *; [| done].
  eapply R_trans; [exact Hm | apply Hk].
Qed.

Lemma preserves_try_catch {A} (m : M A) (handler : jsval → M A) :
  preserves R m → (∀ err, preserves R (handler err)) →
  preserves R (try_catch m handler).
Proof using R_trans.
  intros Hm Hh s. unfold try_catch. specialize (Hm s).
  destruct (m s) as [[a|err] s']; simpl in *; [done |].
  eapply R_trans; [exact Hm | apply Hh].
Qed.
End preservation.

Lemma find_transaction_Some (ref : string) (txs : list Enhanced.transaction) t :
  Enhanced.find_transaction ref txs = Some t →
  t ∈ txs ∧ Enhanced.reference t = ref.
Proof.
  unfold Enhanced.find_transaction. intros H.
  apply List.find_some in H as [Hin Heq].
  split; [by apply list_elem_of_In | by apply String.eqb_eq].
Qed.

Lemma find_transaction_None (ref : string) (txs : list Enhanced.transaction) :
  Enhanced.find_transaction ref txs = None ↔
  ref ∉ Enhanced.reference <$> txs.
Proof.
  unfold Enhanced.find_transaction.
  induction txs as [|t txs IH]; simpl.
  - split; [intros _; apply not_elem_of_nil | done].
  - rewrite not_elem_of_cons.
    destruct (String.eqb_spec (Enhanced.reference t) ref) as [Heq|Hne].
    + split; [done | intros [? _]; congruence].
    + rewrite IH. split; [intros ?; split; [congruence | done] | by intros [_ ?]].
Qed.

Lemma find_transaction_app ref (txs1 txs2 : list Enhanced.transaction) :
  Enhanced.find_transaction ref (txs1 ++ txs2) =
  match Enhanced.find_transaction ref txs1 with
  | Some t => Some t
  | None => Enhanced.find_transaction ref txs2
  end.
Proof.
  unfold Enhanced.find_transaction.
  induction txs1 as [|t txs1 IH]; simpl; [done |].
  by destruct (String.eqb _ _).
Qed.

Lemma reference_set_status now ref st t :
  Enhanced.reference (Enhanced.set_status now ref st t) = Enhanced.reference t.
Proof. unfold Enhanced.set_status. by destruct (String.eqb _ _). Qed.

Lemma references_set_status now ref st (txs : list Enhanced.transaction) :
  Enhanced.reference <$> (Enhanced.set_status now ref st <$> txs) =
  Enhanced.reference <$> txs.
Proof.
  rewrite <- list_fmap_compose. apply list_fmap_ext.
  intros i t _. apply reference_set_status.
Qed.

Lemma find_transaction_set_status now ref st ref' (txs : list Enhanced.transaction) :
  Enhanced.find_transaction ref' (Enhanced.set_status now ref st <$> txs) =
  Enhanced.set_status now ref st <$> Enhanced.find_transaction ref' txs.
Proof.
  unfold Enhanced.find_transaction.
  induction txs as [|t txs IH]; simpl; [done |].
  rewrite reference_set_status. by destruct (String.eqb _ _).
Qed.

(** *** The ledger only grows *)

Lemma grows_refl s : Enhanced.grows s s.
Proof. by split. Qed.

Lemma grows_trans s1 s2 s3 :
  Enhanced.grows s1 s2 → Enhanced.grows s2 s3 → Enhanced.grows s1 s3.
Proof. intros [Hu1 Ht1] [Hu2 Ht2]. split; eauto. Qed.

Lemma getOrCreateUser_grows now phone :
  Enhanced.preserves Enhanced.grows (Enhanced.getOrCreateUser now phone).
Proof.
  intros s. unfold Enhanced.getOrCreateUser.
  destruct (_ !! phone) eqn:Hu; simpl; [apply grows_refl |].
  split; simpl; [| done].
  intros q Hq. rewrite lookup_insert_is_Some. destruct (decide (phone = q)); auto.
Qed.

Lemma updateUserBalance_grows now phone amt op :
  Enhanced.preserves Enhanced.grows (Enhanced.updateUserBalance now phone amt op).
Proof.
  intros s. unfold Enhanced.updateUserBalance.
  destruct (_ !! phone) eqn:Hu; simpl; [| apply grows_refl].
  destruct (Enhanced.fits_numeric _); simpl; [| apply grows_refl].
  split; simpl; [| done].
  intros q Hq. rewrite lookup_insert_is_Some. destruct (decide (phone = q)); auto.
Qed.

Lemma markUserFeePaid_grows now phone :
  Enhanced.preserves Enhanced.grows (Enhanced.markUserFeePaid now phone).
Proof.
  intros s. unfold Enhanced.markUserFeePaid.
  destruct (_ !! phone) eqn:Hu; simpl; [| apply grows_refl].
  split; simpl; [| done].
  intros q Hq. rewrite lookup_insert_is_Some. destruct (decide (phone = q)); auto.
Qed.

Lemma createTransaction_grows now data :
  Enhanced.preserves Enhanced.grows (Enhanced.createTransaction now data).
Proof.
  intros s. unfold Enhanced.createTransaction.
  destruct (Enhanced.d_amount data); simpl; [| apply grows_refl].
  destruct (Enhanced.fits_numeric _); simpl; [| apply grows_refl].
  destruct (Enhanced.find_transaction _ _); simpl; [apply grows_refl |].
  split; simpl; [done |].
  intros ref Href. unfold Enhanced.references in *. simpl.
  rewrite fmap_app. apply elem_of_app. by left.
Qed.

Lemma updateTransaction_grows now ref st :
  Enhanced.preserves Enhanced.grows (Enhanced.updateTransaction now ref st).
Proof.
  intros s. unfold Enhanced.updateTransaction. split; simpl; [done |].
  intros r Hr. unfold Enhanced.references in *. simpl.
  by rewrite references_set_status.
Qed.

Lemma getUserTransactions_grows phone limit :
  Enhanced.preserves Enhanced.grows (Enhanced.getUserTransactions phone limit).
Proof. intros s. apply grows_refl. Qed.

Ltac grows_tac :=
  repeat first
    [ apply getOrCreateUser_grows
    | apply updateUserBalance_grows
    | apply markUserFeePaid_grows
    | apply createTransaction_grows
    | apply updateTransaction_grows
    | apply getUserTransactions_grows
    | apply (preserves_try_catch _ grows_trans)
    | apply (preserves_bind _ grows_trans)
    | apply (preserves_ret _ grows_refl)
    | apply (preserves_throw _ grows_refl)
    | apply (preserves_lift _ grows_refl)
    | progress intros
    | case_match ].

Lemma get_balance_grows now phone :
  Enhanced.preserves Enhanced.grows (Enhanced.get_balance now phone).
Proof. unfold Enhanced.get_balance. grows_tac. Qed.

Lemma get_transactions_grows phone :
  Enhanced.preserves Enhanced.grows (Enhanced.get_transactions phone).
Proof. unfold Enhanced.get_transactions. grows_tac. Qed.

Lemma withdraw_grows now req :
  Enhanced.preserves Enhanced.grows (Enhanced.withdraw now req).
Proof. unfold Enhanced.withdraw. grows_tac. Qed.

Lemma pay_grows now now_err req gw :
  Enhanced.preserves Enhanced.grows (Enhanced.pay now now_err req gw).
Proof. unfold Enhanced.pay, Enhanced.pay_try, Enhanced.pay_catch. grows_tac. Qed.

Lemma poll_tick_grows now p gw :
  Enhanced.preserves Enhanced.grows (Enhanced.poll_tick now p gw).
Proof. unfold Enhanced.poll_tick. grows_tac. Qed.

Lemma get_receipt_grows ref :
  Enhanced.preserves Enhanced.grows (Enhanced.get_receipt ref).
Proof.
  unfold Enhanced.get_receipt.
  apply (preserves_try_catch _ grows_trans); [| grows_tac].
  intros s. destruct (Enhanced.find_transaction _ _); apply grows_refl.
Qed.

Lemma handle_grows s e : Enhanced.grows s (Enhanced.handle s e).
Proof.
  destruct e; simpl.
  - apply get_balance_grows.
  - apply get_transactions_grows.
  - apply withdraw_grows.
  - apply pay_grows.
  - apply poll_tick_grows.
  - apply grows_refl.
  - apply get_receipt_grows.
Qed.

Lemma run_grows events s : Enhanced.grows s (Enhanced.run s events).
Proof.
  revert s. induction events as [|e events IH]; intros s; simpl.
  - apply grows_refl.
  - eapply grows_trans; [apply handle_grows | apply IH].
Qed.

(** *** What [/pay] returns *)

Lemma createTransaction_inv now data s t s' :
  Enhanced.createTransaction now data s = (Enhanced.Returned t, s') →
(Enhanced.d_reference data ∉ Enhanced.references s)
  ∧ Enhanced.reference t = Enhanced.d_reference data
  ∧ Enhanced.status t = Enhanced.d_status data
  ∧ Enhanced.type t = Enhanced.d_type data
  ∧ Enhanced.users s' = Enhanced.users s
  ∧ Enhanced.transactions s' = (Enhanced.transactions s ++ [t])%list.
Proof.
  unfold Enhanced.createTransaction. intros H.
  destruct (Enhanced.d_amount data); [| done].
  destruct (Enhanced.fits_numeric _); [| done]. simpl in H.
  destruct (Enhanced.find_transaction _ _) eqn:Hfind; [done |].
  apply find_transaction_None in Hfind. by simplify_eq.
Qed.

(** A refused insert leaves the store as it was. *)
Lemma createTransaction_Thrown now data s err s' :
  Enhanced.createTransaction now data s = (Enhanced.Thrown err, s') → s' = s.
Proof.
  unfold Enhanced.createTransaction. intros H.
  destruct (Enhanced.d_amount data); [| by simplify_eq].
  destruct (Enhanced.fits_numeric _); simpl in H; [| by simplify_eq].
  destruct (Enhanced.find_transaction _ _); by simplify_eq.
Qed.

Lemma getOrCreateUser_transactions now phone s :
  Enhanced.transactions (Enhanced.getOrCreateUser now phone s).2
  = Enhanced.transactions s.
Proof.
  unfold Enhanced.getOrCreateUser. by destruct (_ !! phone).
Qed.

Lemma getOrCreateUser_returns now phone s :
  ∃ u, (Enhanced.getOrCreateUser now phone s).1 = Enhanced.Returned u.
Proof.
  unfold Enhanced.getOrCreateUser. destruct (_ !! phone); eauto.
Qed.

Lemma createTransaction_adds now data s t s' :
  Enhanced.createTransaction now data s = (Enhanced.Returned t, s') →
  (Enhanced.d_reference data ∉ Enhanced.references s)
  ∧ Enhanced.d_reference data ∈ Enhanced.references s'.
Proof.
  intros (Hfresh & Href & _ & _ & _ & Htx)%createTransaction_inv.
  split; [done |].
  unfold Enhanced.references. rewrite Htx, fmap_app.
  apply elem_of_app. right. rewrite <- Href. apply list_elem_of_here.
Qed.

Lemma pay_catch_reference now_err req err s resp timer s' :
  is_Some (formatPhone (pb_phone req)) →
  Enhanced.pay_catch now_err req err s = (Enhanced.Returned (resp, timer), s') →
  http_status resp = 500%nat
  ∧ ∃ ref, get_prop (body resp) "reference" = JStr ref
           ∧ (ref ∉ Enhanced.references s)
           ∧ ref ∈ Enhanced.references s'.
Proof.
  intros [formattedPhone Hphone]. unfold Enhanced.pay_catch. rewrite Hphone.
  unfold Enhanced.bind, Enhanced.ret.
  destruct (Enhanced.createTransaction _ _ s) as [[t|e] s2] eqn:Hcreate; [| done].
  intros ?; simplify_eq. split; [done |].
  apply createTransaction_adds in Hcreate. eauto.
Qed.

(** A response of [/pay] that carries a reference carries one that no
    stored transaction had, and that is stored afterwards; a 200
    response carries the reference of a pending service-fee
    transaction made from the clock. *)
Lemma pay_reference_fresh now now_err req gw s resp timer s' :
  Enhanced.pay now now_err req gw s = (Enhanced.Returned (resp, timer), s') →
  has_reference resp = true →
  ∃ ref, get_prop (body resp) "reference" = JStr ref
         ∧ (ref ∉ Enhanced.references s)
         ∧ ref ∈ Enhanced.references s'
         ∧ (http_status resp = 200%nat →
            ref = "ORDER-" +:+ dec_of_Z now
            ∧ ∃ t, Enhanced.find_transaction ref (Enhanced.transactions s') = Some t
                   ∧ Enhanced.status t = "pending"
                   ∧ Enhanced.type t = "service_fee").
Proof.
  unfold Enhanced.pay, Enhanced.try_catch, Enhanced.pay_try.
  destruct (formatPhone (pb_phone req)) as [formattedPhone|] eqn:Hphone; simpl;
    [| unfold Enhanced.ret; intros; by simplify_eq].
  destruct (pb_amount req) as [amt|];
    [| unfold Enhanced.ret; intros; by simplify_eq].
  destruct ((amt =? 0)%Z || (amt <? 1)%Z) eqn:Hamt;
    [unfold Enhanced.ret; intros; by simplify_eq |].
  unfold Enhanced.bind at 1.
  pose proof (getOrCreateUser_transactions now formattedPhone s) as Htxs.
  destruct (getOrCreateUser_returns now formattedPhone s) as [u Hu].
  destruct (Enhanced.getOrCreateUser now formattedPhone s) as [o s1].
  simpl in Hu, Htxs. subst o.
  assert (Enhanced.references s1 = Enhanced.references s) as Hrefs
    by (unfold Enhanced.references; by rewrite Htxs).
  rewrite <- Hrefs. clear Hrefs Htxs.
  assert (∀ err s2,
    Enhanced.pay_catch now_err req err s2 = (Enhanced.Returned (resp, timer), s') →
    Enhanced.references s2 = Enhanced.references s1 →
    ∃ ref, get_prop (body resp) "reference" = JStr ref
           ∧ (ref ∉ Enhanced.references s1) ∧ ref ∈ Enhanced.references s'
           ∧ (http_status resp = 200%nat →
              ref = "ORDER-" +:+ dec_of_Z now
              ∧ ∃ t, Enhanced.find_transaction ref (Enhanced.transactions s') = Some t
                     ∧ Enhanced.status t = "pending"
                     ∧ Enhanced.type t = "service_fee")) as Hcatch.
  { intros err s2 Hc Heq.
    apply pay_catch_reference in Hc as (H500 & ref & ? & ? & ?); [| by rewrite Hphone].
    exists ref. rewrite <- Heq. repeat split; try done; rewrite H500 in *; done. }
  unfold Enhanced.bind at 1.
  destruct gw as [data|err]; simpl; [| intros Hc _; by eapply Hcatch].
  destruct (truthy data && truthy (get_prop data "success")).
  - unfold Enhanced.bind at 1.
    destruct (get_prop_strict (get_prop data "data") "transaction_reference")
      as [err|tr]; simpl; [intros Hc _; by eapply Hcatch |].
    unfold Enhanced.bind at 1.
    destruct (Enhanced.createTransaction _ _ s1) as [[t|e] s2] eqn:Hcreate.
    + unfold Enhanced.ret. intros ? _; simplify_eq.
      pose proof (createTransaction_adds _ _ _ _ _ Hcreate) as [Hfresh Hin].
      apply createTransaction_inv in Hcreate as (_ & Href & Hst & Hty & _ & Htx).
      eexists; split; [reflexivity |]. do 2 (split; [done |]).
      intros _. split; [done |]. exists t. split; [| done].
      apply find_transaction_None in Hfresh. simpl in Hfresh.
      rewrite Htx, find_transaction_app, Hfresh.
      unfold Enhanced.find_transaction. simpl. rewrite Href. simpl.
      by rewrite String.eqb_refl.
    + intros Hc _. eapply Hcatch; [exact Hc |].
      by rewrite (createTransaction_Thrown _ _ _ _ _ Hcreate).
  - unfold Enhanced.bind at 1.
    destruct (Enhanced.createTransaction _ _ s1) as [[t|e] s2] eqn:Hcreate.
    + unfold Enhanced.ret. intros ? ?; by simplify_eq.
    + intros Hc _. eapply Hcatch; [exact Hc |].
      by rewrite (createTransaction_Thrown _ _ _ _ _ Hcreate).
Qed.

Lemma pay_reference_iff now now_err req gw s resp timer s' :
  Enhanced.pay now now_err req gw s = (Enhanced.Returned (resp, timer), s') →
  has_reference resp = negb (http_status resp =? 400)%nat.
Proof.
  unfold Enhanced.pay, Enhanced.pay_try, Enhanced.pay_catch,
    Enhanced.try_catch, Enhanced.bind, Enhanced.ret, Enhanced.lift,
    Enhanced.throw.
  intros H. repeat case_match; by simplify_eq.
Qed.

Lemma legacy_pay_reference_iff now now_err req gw s resp timer s' :
  Legacy.pay now now_err req gw s = (resp, timer, s') →
  has_reference resp = negb (http_status resp =? 400)%nat.
Proof.
  unfold Legacy.pay. intros H. repeat case_match; by simplify_eq.
Qed.

Lemma legacy_pay_success now now_err req gw (s : Legacy.receipts) resp timer s' :
  Legacy.pay now now_err req gw s = (resp, timer, s') →
  http_status resp = 200%nat →
  get_prop (body resp) "reference" = JStr ("ORDER-" +:+ dec_of_Z now)
  ∧ ∃ r, s' !! ("ORDER-" +:+ dec_of_Z now) = Some r
         ∧ r !! "status" = Some (JStr "pending").
Proof.
  unfold Legacy.pay. intros H H200.
  repeat case_match; simplify_eq; try done.
  all: split; [done |]; eexists; (split; [apply lookup_insert_eq |]).
  all: simpl; repeat (rewrite lookup_insert_ne by done).
  all: apply lookup_insert_eq.
Qed.

Lemma get_receipt_found ref s t :
  Enhanced.find_transaction ref (Enhanced.transactions s) = Some t →
  ∃ r, Enhanced.get_receipt ref s = (Enhanced.Returned r, s)
       ∧ http_status r = 200%nat
       ∧ get_prop (get_prop (body r) "receipt") "status"
         = JStr (Enhanced.status t).
Proof.
  intros H. unfold Enhanced.get_receipt, Enhanced.try_catch. rewrite H.
  eexists. split; [reflexivity |]. by split.
Qed.

(** C4, as the code has it: an answer of [/pay] carries a reference
    exactly when its status is not 400, that is on success (200) and on
    an internal error (500); the 400 answers, to invalid input and to a
    failure reported by the gateway, carry none. This holds in both
    variants; in the legacy variant a reported failure always answers
    400 and a thrown error always answers 500 with a reference. *)
Theorem pay_reference_by_status :
  (∀ now now_err req gw s resp timer s',
     Enhanced.pay now now_err req gw s = (Enhanced.Returned (resp, timer), s') →
     has_reference resp = negb (http_status resp =? 400)%nat)
  ∧ (∀ now now_err req gw s resp timer s',
       Legacy.pay now now_err req gw s = (resp, timer, s') →
       has_reference resp = negb (http_status resp =? 400)%nat)
  ∧ (∀ now now_err req data s resp timer s',
       Legacy.pay now now_err req (GwReply data) s = (resp, timer, s') →
       truthy data && truthy (get_prop data "success") = false →
       http_status resp = 400%nat ∧ has_reference resp = false)
  ∧ (∀ now now_err req err s resp timer s' formattedPhone amt,
       Legacy.pay now now_err req (GwThrows err) s = (resp, timer, s') →
       formatPhone (pb_phone req) = Some formattedPhone →
       pb_amount req = Some amt → (1 ≤ amt)%Z →
       http_status resp = 500%nat
       ∧ get_prop (body resp) "reference" = JStr ("ORDER-" +:+ dec_of_Z now_err)).
Proof.
  split; [exact pay_reference_iff |].
  split; [exact legacy_pay_reference_iff |].
  split.
  - unfold Legacy.pay. intros * H Hfail. simpl in H. rewrite Hfail in H.
    repeat case_match; by simplify_eq.
  - unfold Legacy.pay. intros * H Hphone Hamt Hpos. rewrite Hphone, Hamt in H.
    simpl in H.
    replace ((amt =? 0)%Z || (amt <? 1)%Z) with false in H by lia.
    by simplify_eq.
Qed.

Lemma pay_reference_by_status_witness :
  has_reference (Scenario.accepted "ORDER-1000")
  = negb (http_status (Scenario.accepted "ORDER-1000") =? 400)%nat.
Proof.
  apply (proj1 pay_reference_by_status 1000%Z 1000%Z Scenario.alice
           (Scenario.gateway_accepts "TXA") Scenario.empty_db
           (Scenario.accepted "ORDER-1000") (Some Scenario.alice_poll)
           Scenario.after_alice).
  vm_compute. reflexivity.
Defined.

(** C4 as stated fails: when the gateway reports a failure, neither
    variant puts a reference in its 400 answer. *)
Lemma pay_gateway_failure_without_reference :
  (Enhanced.pay 1000 1000 Scenario.alice Scenario.gateway_refuses
     Scenario.empty_db).1 = Enhanced.Returned (Scenario.refused, None)
  ∧ (Legacy.pay 1000 1000 Scenario.alice Scenario.gateway_refuses ∅).1
    = (Scenario.refused, None)
  ∧ http_status Scenario.refused = 400%nat
  ∧ has_reference Scenario.refused = false.
Proof. by vm_compute. Qed.

(** *** References of initiated payments *)

(** C6, as the code has it. In the database variant an answer of
    [/pay] that carries a reference (a successful initiation, or an
    internal error) carries one that no earlier answer carried,
    whatever happened in between, and after a successful initiation
    the receipt endpoint shows it pending right after the answer. In the legacy
    variant the receipt is pending right after the answer too, and two
    successful initiations return different references when their clock
    readings differ. *)
Theorem pay_reference_unique_and_pending :
  (∀ now1 err1 req1 gw1 s resp1 timer1 s1 events
     now2 err2 req2 gw2 resp2 timer2 s2,
     Enhanced.pay now1 err1 req1 gw1 s
       = (Enhanced.Returned (resp1, timer1), s1) →
     has_reference resp1 = true →
     Enhanced.pay now2 err2 req2 gw2 (Enhanced.run s1 events)
       = (Enhanced.Returned (resp2, timer2), s2) →
     has_reference resp2 = true →
     get_prop (body resp1) "reference" ≠ get_prop (body resp2) "reference")
  ∧ (∀ now now_err req gw s resp timer s',
       Enhanced.pay now now_err req gw s
         = (Enhanced.Returned (resp, timer), s') →
       http_status resp = 200%nat →
       ∃ ref r,
         get_prop (body resp) "reference" = JStr ref
         ∧ Enhanced.get_receipt ref s' = (Enhanced.Returned r, s')
         ∧ http_status r = 200%nat
         ∧ get_prop (get_prop (body r) "receipt") "status" = JStr "pending")
  ∧ (∀ now1 err1 req1 gw1 (s : Legacy.receipts) resp1 timer1 s1
       now2 err2 req2 gw2 (s0 : Legacy.receipts) resp2 timer2 s2,
       Legacy.pay now1 err1 req1 gw1 s = (resp1, timer1, s1) →
       http_status resp1 = 200%nat →
       Legacy.pay now2 err2 req2 gw2 s0 = (resp2, timer2, s2) →
       http_status resp2 = 200%nat →
       now1 ≠ now2 →
       get_prop (body resp1) "reference" ≠ get_prop (body resp2) "reference")
  ∧ (∀ now now_err req gw (s : Legacy.receipts) resp timer s',
       Legacy.pay now now_err req gw s = (resp, timer, s') →
       http_status resp = 200%nat →
       ∃ ref r,
         get_prop (body resp) "reference" = JStr ref
         ∧ Legacy.get_receipt ref s'
           = json 200 [("success", JBool true);
                       ("receipt", Legacy.receipt_json r)]
         ∧ r !! "status" = Some (JStr "pending")).
Proof.
  repeat split.
  - intros * Hpay1 Href1 Hpay2 Href2 Heq.
    destruct (pay_reference_fresh _ _ _ _ _ _ _ _ Hpay1 Href1)
      as (ref1 & Hb1 & _ & Hin1 & _).
    destruct (pay_reference_fresh _ _ _ _ _ _ _ _ Hpay2 Href2)
      as (ref2 & Hb2 & Hfresh2 & _).
    rewrite Hb1, Hb2 in Heq. simplify_eq.
    apply Hfresh2. by apply (run_grows events s1).
  - intros * Hpay H200.
    pose proof (pay_reference_iff _ _ _ _ _ _ _ _ Hpay) as Href.
    rewrite H200 in Href.
    destruct (pay_reference_fresh _ _ _ _ _ _ _ _ Hpay Href)
      as (ref & Hb & _ & _ & Hok).
    destruct (Hok H200) as (_ & t & Hfind & Hstatus & _).
    destruct (get_receipt_found _ _ _ Hfind) as (r & Hr & Hr200 & Hrs).
    exists ref, r. by rewrite <- Hstatus.
  - intros * Hpay1 H1 Hpay2 H2 Hne Heq.
    apply legacy_pay_success in Hpay1 as [Hb1 _]; [| done].
    apply legacy_pay_success in Hpay2 as [Hb2 _]; [| done].
    rewrite Hb1, Hb2 in Heq.
    apply Hne, (reference_inj "ORDER-"). congruence.
  - intros * Hpay H200.
    apply legacy_pay_success in Hpay as (Hb & r & Hr & Hst); [| done].
    eexists _, r. split; [exact Hb |]. split; [| done].
    unfold Legacy.get_receipt, Legacy.receipt_at. by rewrite Hr.
Qed.

Lemma pay_reference_unique_and_pending_witness :
  get_prop (body (Scenario.accepted "ORDER-1000")) "reference"
  ≠ get_prop (body (Scenario.accepted "ORDER-1001")) "reference".
Proof.
  apply (proj1 pay_reference_unique_and_pending
           1000%Z 1000%Z Scenario.alice (Scenario.gateway_accepts "TXA")
           Scenario.empty_db (Scenario.accepted "ORDER-1000")
           (Some Scenario.alice_poll) Scenario.after_alice
           [Enhanced.GetBalance 1000 "0712345678"]
           1001%Z 1001%Z Scenario.bob (Scenario.gateway_accepts "TXB")
           (Scenario.accepted "ORDER-1001") (Some Scenario.bob_poll)
           Scenario.after_bob).
  - vm_compute. reflexivity.
  - reflexivity.
  - vm_compute. reflexivity.
  - reflexivity.
Defined.

(** C6 as stated fails in the legacy variant: two initiations that read
    the same millisecond both succeed with the same reference, the
    second receipt replacing the first. *)
Lemma legacy_pay_same_reference :
  (Legacy.pay 1000 1000 Scenario.alice (Scenario.gateway_accepts "TXA") ∅).1.1
  = Legacy.pay_accepted "ORDER-1000" Scenario.legacy_alice_receipt
  ∧ (Legacy.pay 1000 1000 Scenario.bob (Scenario.gateway_accepts "TXB")
       Scenario.legacy_after_alice).1.1
    = Legacy.pay_accepted "ORDER-1000" Scenario.legacy_bob_receipt
  ∧ get_prop (body (Legacy.pay_accepted "ORDER-1000" Scenario.legacy_alice_receipt))
      "reference"
    = get_prop (body (Legacy.pay_accepted "ORDER-1000" Scenario.legacy_bob_receipt))
        "reference".
Proof. by vm_compute. Qed.

(** ** Read-only queries and withdrawals *)

(** C5, as the code has it: listing transactions leaves the store
    unchanged; reading a balance never touches the transactions and
    leaves the users unchanged when the phone is invalid or already has
    a user, but for a valid phone without one it inserts a user with
    zero balance and the fee unpaid. *)
Theorem ledger_queries_effect :
  (∀ phone_param s, (Enhanced.get_transactions phone_param s).2 = s)
  ∧ (∀ now phone_param s,
       Enhanced.transactions (Enhanced.get_balance now phone_param s).2
       = Enhanced.transactions s
       ∧ match formatPhone (JStr phone_param) with
         | None => (Enhanced.get_balance now phone_param s).2 = s
         | Some formattedPhone =>
             match Enhanced.users s !! formattedPhone with
             | Some _ => (Enhanced.get_balance now phone_param s).2 = s
             | None =>
                 Enhanced.users (Enhanced.get_balance now phone_param s).2
                 = <[formattedPhone := Enhanced.mkUser 0 false now now]>
                     (Enhanced.users s)
             end
         end).
Proof.
  split.
  - intros phone_param s. unfold Enhanced.get_transactions, Enhanced.try_catch.
    by destruct (formatPhone _).
  - intros now phone_param s.
    unfold Enhanced.get_balance, Enhanced.try_catch, Enhanced.bind,
      Enhanced.getOrCreateUser.
    destruct (formatPhone _) as [formattedPhone|]; [| done].
    by destruct (Enhanced.users s !! formattedPhone).
Qed.

(** C5 as stated fails: the first balance query for a phone writes a
    user row. *)
Lemma get_balance_creates_user :
  Enhanced.users
    (Enhanced.get_balance 1000 "0712345678" Scenario.empty_db).2
    !! Scenario.alice_phone = Some (Enhanced.mkUser 0 false 1000 1000)
  ∧ Enhanced.users Scenario.empty_db !! Scenario.alice_phone = None
  ∧ (Enhanced.get_balance 1000 "0712345678" Scenario.empty_db).2
    ≠ Scenario.empty_db.
Proof.
  split; [by vm_compute |]. split; [by vm_compute |].
  intros H.
  apply (f_equal (λ s, Enhanced.users s !! Scenario.alice_phone)) in H.
  vm_compute in H. discriminate.
Qed.

(** C7: a withdrawal for a valid phone is rejected with status 400 when
    its amount is absent or below 100, and with status 403 when the
    user has not paid the fee, whatever the balance; either way the
    store is left as it was: no transaction is recorded and no balance
    changes. (A phone without a user has not paid the fee either: its
    user is created with zero balance on the way, and nothing else
    changes.) *)
Theorem withdraw_rejections (now : Z) (req : pay_body) (s : Enhanced.db)
    (formattedPhone : string) :
  formatPhone (pb_phone req) = Some formattedPhone →
  (match pb_amount req with
   | Some amt => (amt < 100)%Z
   | None => True
   end →
   Enhanced.withdraw now req s
   = (Enhanced.Returned
        (json 400 [("success", JBool false);
                   ("error", JStr "Minimum withdrawal is KES 100")]), s))
  ∧ (∀ amt u,
       pb_amount req = Some amt → (100 ≤ amt)%Z →
       Enhanced.users s !! formattedPhone = Some u →
       Enhanced.has_paid_fee u = false →
       Enhanced.withdraw now req s
       = (Enhanced.Returned
            (json 403 [("success", JBool false);
                       ("error", JStr "You must pay the service fee before withdrawing")]),
          s))
  ∧ (∀ amt,
       pb_amount req = Some amt → (100 ≤ amt)%Z →
       Enhanced.users s !! formattedPhone = None →
       (Enhanced.withdraw now req s).1
       = Enhanced.Returned
           (json 403 [("success", JBool false);
                      ("error", JStr "You must pay the service fee before withdrawing")])
       ∧ Enhanced.transactions (Enhanced.withdraw now req s).2
         = Enhanced.transactions s
       ∧ Enhanced.users (Enhanced.withdraw now req s).2
         = <[formattedPhone := Enhanced.mkUser 0 false now now]>
             (Enhanced.users s)).
Proof.
  intros Hphone.
  unfold Enhanced.withdraw, Enhanced.try_catch. rewrite Hphone.
  split; [| split].
  - destruct (pb_amount req) as [amt|]; [| done].
    intros Hlt.
    by replace ((amt =? 0)%Z || (amt <? 100)%Z) with true by lia.
  - intros amt u -> Hge Hu Hfee.
    replace ((amt =? 0)%Z || (amt <? 100)%Z) with false by lia.
    unfold Enhanced.bind, Enhanced.getOrCreateUser. rewrite Hu. simpl.
    by rewrite Hfee.
  - intros amt -> Hge Hu.
    replace ((amt =? 0)%Z || (amt <? 100)%Z) with false by lia.
    unfold Enhanced.bind, Enhanced.getOrCreateUser. by rewrite Hu.
Qed.

Lemma withdraw_rejections_witness :
  Enhanced.withdraw 2000 Scenario.withdraw_50 Scenario.unpaid_db
  = (Enhanced.Returned
       (json 400 [("success", JBool false);
                  ("error", JStr "Minimum withdrawal is KES 100")]),
     Scenario.unpaid_db)
  ∧ Enhanced.withdraw 2000 Scenario.withdraw_500 Scenario.unpaid_db
    = (Enhanced.Returned
         (json 403 [("success", JBool false);
                    ("error", JStr "You must pay the service fee before withdrawing")]),
       Scenario.unpaid_db).
Proof.
  split.
  - apply (withdraw_rejections 2000 Scenario.withdraw_50 Scenario.unpaid_db
             Scenario.alice_phone).
    + by vm_compute.
    + simpl. lia.
  - apply (proj1 (proj2 (withdraw_rejections 2000 Scenario.withdraw_500
                           Scenario.unpaid_db Scenario.alice_phone
                           ltac:(by vm_compute)))
             500%Z Scenario.unpaid_user).
    + reflexivity.
    + lia.
    + by vm_compute.
    + reflexivity.
Defined.

(** ** The poll driver *)

(** C8: when the gateway's status is none of completed, processing,
    failed and cancelled (compared as the drivers do, in lower case), a
    poll tick leaves the whole store as it was, so a pending transaction
    stays pending and no other field changes, and it does not clear the
    timer. In the legacy variant this is so for a stored receipt. *)
Theorem unmapped_status_keeps_polling (now : Z) (data : jsval) :
  unmapped data →
  (∀ p s,
     Enhanced.poll_tick now p (GwReply data) s = (Enhanced.Returned false, s))
  ∧ (∀ p (s : Legacy.receipts),
       is_Some (s !! Legacy.p_reference p) →
       Legacy.poll_tick now p (GwReply data) s = (false, s)).
Proof.
  unfold unmapped, payStatus_of, payData_of. intros Hun. split.
  - intros p s.
    unfold Enhanced.poll_tick, Enhanced.try_catch, Enhanced.bind. simpl.
    destruct (lowered_status _) as [err|st]; simpl; [done |].
    unfold known_status in Hun. simpl in Hun.
    apply orb_false_elim in Hun as [-> Hun].
    apply orb_false_elim in Hun as [-> Hun].
    apply orb_false_elim in Hun as [-> Hun].
    apply orb_false_elim in Hun as [-> _]. done.
  - intros p s [current Hcurrent].
    unfold Legacy.poll_tick. simpl.
    destruct (lowered_status _) as [err|st]; simpl; [done |].
    rewrite Hcurrent.
    unfold known_status in Hun. simpl in Hun.
    apply orb_false_elim in Hun as [-> Hun].
    apply orb_false_elim in Hun as [-> Hun].
    apply orb_false_elim in Hun as [-> Hun].
    apply orb_false_elim in Hun as [-> _]. done.
Qed.

Lemma unmapped_status_keeps_polling_witness :
  Enhanced.poll_tick 16000 Scenario.alice_poll
    (GwReply (Scenario.status_answer "QUEUED")) Scenario.after_alice
  = (Enhanced.Returned false, Scenario.after_alice).
Proof.
  apply (proj1 (unmapped_status_keeps_polling 16000
                  (Scenario.status_answer "QUEUED") ltac:(by vm_compute))).
Defined.

(** *** Inversion of computations *)

Lemma bind_Returned {A B} (m : Enhanced.M A) (k : A → Enhanced.M B) s b s' :
  Enhanced.bind m k s = (Enhanced.Returned b, s') →
  ∃ a s1, m s = (Enhanced.Returned a, s1) ∧ k a s1 = (Enhanced.Returned b, s').
Proof.
  unfold Enhanced.bind. destruct (m s) as [[a|err] s1]; [eauto | done].
Qed.

Lemma lift_Returned {A} (r : jsval + A) s a s' :
  Enhanced.lift r s = (Enhanced.Returned a, s') → r = inr a ∧ s' = s.
Proof.
  destruct r; unfold Enhanced.lift, Enhanced.throw, Enhanced.ret;
    intros ?; by simplify_eq.
Qed.

Lemma ret_Returned {A} (a b : A) s s' :
  Enhanced.ret a s = (Enhanced.Returned b, s') → b = a ∧ s' = s.
Proof. unfold Enhanced.ret. intros ?; by simplify_eq. Qed.

Lemma getOrCreateUser_inv now phone s u s' :
  Enhanced.getOrCreateUser now phone s = (Enhanced.Returned u, s') →
  Enhanced.users s' !! phone = Some u
  ∧ Enhanced.transactions s' = Enhanced.transactions s.
Proof.
  unfold Enhanced.getOrCreateUser.
  destruct (Enhanced.users s !! phone) eqn:Hu; intros ?; simplify_eq; simpl.
  - done.
  - by rewrite lookup_insert_eq.
Qed.

Lemma pay_catch_no_timer now_err req err s resp timer s' :
  Enhanced.pay_catch now_err req err s
    = (Enhanced.Returned (resp, timer), s') →
  timer = None.
Proof.
  unfold Enhanced.pay_catch.
  intros (? & ? & _ & [? _]%ret_Returned)%bind_Returned. by simplify_eq.
Qed.

(** The poll timer started by [/pay] remembers the reference it
    answered, the normalized phone and the requested loan amount; the
    user and the transaction it will settle are stored. *)
Lemma pay_starts_poll now now_err req gw s resp p s' :
  Enhanced.pay now now_err req gw s
    = (Enhanced.Returned (resp, Some p), s') →
  get_prop (body resp) "reference" = JStr (Enhanced.p_reference p)
  ∧ formatPhone (pb_phone req) = Some (Enhanced.p_phone p)
  ∧ Enhanced.p_loan_amount p = pb_loan_amount req
  ∧ is_Some (Enhanced.users s' !! Enhanced.p_phone p)
  ∧ Enhanced.p_reference p ∈ Enhanced.references s'.
Proof.
  unfold Enhanced.pay, Enhanced.try_catch.
  destruct (Enhanced.pay_try now req gw s) as [[[resp0 timer0]|err] s1] eqn:Htry;
    [| by intros ?%pay_catch_no_timer].
  intros ?; simplify_eq. revert Htry. unfold Enhanced.pay_try.
  destruct (formatPhone (pb_phone req)) as [formattedPhone|] eqn:Hphone;
    [| by intros [? _]%ret_Returned].
  simpl.
  destruct (pb_amount req) as [amt|]; [| by intros [? _]%ret_Returned].
  destruct (_ || _); [by intros [? _]%ret_Returned |].
  intros (u & s1 & [Hu _]%getOrCreateUser_inv & H)%bind_Returned.
  apply bind_Returned in H as (data & s2 & [_ ->]%lift_Returned & H).
  destruct (truthy data && _).
  - apply bind_Returned in H as (tr & s2 & [_ ->]%lift_Returned & H).
    apply bind_Returned in H as (t & s2 & Hcreate & [Hret ->]%ret_Returned).
    pose proof (createTransaction_adds _ _ _ _ _ Hcreate) as [_ Hin].
    apply createTransaction_inv in Hcreate as (_ & _ & _ & _ & Husers & _).
    destruct (truthy (js_or tr JNull)); simplify_eq. simpl.
    repeat split; try done. rewrite Husers, Hu. eauto.
  - by apply bind_Returned in H as (t & s2 & _ & [? _]%ret_Returned).
Qed.

(** *** Settlement by the poll driver *)

(** A settling tick on a store that has the user and no transaction
    under the disbursement's reference, the loan and the credited
    balance fitting their columns. *)
Lemma poll_tick_settles now p data s u :
  settles data →
  Enhanced.users s !! Enhanced.p_phone p = Some u →
  Enhanced.find_transaction ("LOAN-" +:+ dec_of_Z now) (Enhanced.transactions s)
    = None →
  Enhanced.fits_numeric (num_or (Enhanced.p_loan_amount p) 50000) = true →
  Enhanced.fits_numeric
    (Enhanced.balance u + num_or (Enhanced.p_loan_amount p) 50000) = true →
  Enhanced.poll_tick now p (GwReply data) s
  = (Enhanced.Returned true, Enhanced.settled now p u s).
Proof.
  unfold settles, payStatus_of, payData_of. intros Hsettle Hu Hfresh Hloan Hsum.
  unfold Enhanced.poll_tick, Enhanced.try_catch.
  unfold Enhanced.bind at 1. simpl.
  unfold Enhanced.bind at 1.
  destruct (lowered_status _) as [err|st]; [done |]. simpl.
  rewrite Hsettle.
  unfold Enhanced.bind, Enhanced.updateTransaction, Enhanced.markUserFeePaid,
    Enhanced.updateUserBalance, Enhanced.createTransaction. simpl.
  rewrite Hu. simpl. rewrite lookup_insert_eq. simpl.
  rewrite Hsum, Hloan. simpl.
  rewrite find_transaction_set_status, Hfresh. simpl.
  by rewrite insert_insert_eq.
Qed.

(** A settling tick whose disbursement cannot be inserted, its
    reference being taken or its amount not fitting: the first three
    effects are applied, the insert throws, and the timer is not
    cleared. *)
Lemma poll_tick_collides now p data s u :
  settles data →
  Enhanced.users s !! Enhanced.p_phone p = Some u →
  Enhanced.fits_numeric
    (Enhanced.balance u + num_or (Enhanced.p_loan_amount p) 50000) = true →
  is_Some (Enhanced.find_transaction ("LOAN-" +:+ dec_of_Z now)
             (Enhanced.transactions s))
  ∨ Enhanced.fits_numeric (num_or (Enhanced.p_loan_amount p) 50000) = false →
  Enhanced.poll_tick now p (GwReply data) s
  = (Enhanced.Returned false,
     Enhanced.mkDb
       (<[Enhanced.p_phone p := Enhanced.credited now p u]> (Enhanced.users s))
       (Enhanced.set_status now (Enhanced.p_reference p) "completed"
          <$> Enhanced.transactions s)).
Proof.
  unfold settles, payStatus_of, payData_of. intros Hsettle Hu Hsum Hfail.
  unfold Enhanced.poll_tick, Enhanced.try_catch.
  unfold Enhanced.bind at 1. simpl.
  unfold Enhanced.bind at 1.
  destruct (lowered_status _) as [err|st]; [done |]. simpl.
  rewrite Hsettle.
  unfold Enhanced.bind, Enhanced.updateTransaction, Enhanced.markUserFeePaid,
    Enhanced.updateUserBalance, Enhanced.createTransaction. simpl.
  rewrite Hu. simpl. rewrite lookup_insert_eq. simpl.
  rewrite Hsum. simpl. rewrite insert_insert_eq.
  destruct (Enhanced.fits_numeric (num_or _ _)) eqn:Hloan; simpl; [| done].
  destruct Hfail as [[t Htaken]|?]; [| done].
  by rewrite find_transaction_set_status, Htaken.
Qed.

(** A settling tick whose credit does not fit the balance column: the
    transaction is completed and the fee marked paid, the credit
    throws, nothing more happens and the timer is not cleared. *)
Lemma poll_tick_overflows now p data s u :
  settles data →
  Enhanced.users s !! Enhanced.p_phone p = Some u →
  Enhanced.fits_numeric
    (Enhanced.balance u + num_or (Enhanced.p_loan_amount p) 50000) = false →
  Enhanced.poll_tick now p (GwReply data) s
  = (Enhanced.Returned false,
     Enhanced.mkDb
       (<[Enhanced.p_phone p := Enhanced.fee_marked now u]> (Enhanced.users s))
       (Enhanced.set_status now (Enhanced.p_reference p) "completed"
          <$> Enhanced.transactions s)).
Proof.
  unfold settles, payStatus_of, payData_of. intros Hsettle Hu Hsum.
  unfold Enhanced.poll_tick, Enhanced.try_catch.
  unfold Enhanced.bind at 1. simpl.
  unfold Enhanced.bind at 1.
  destruct (lowered_status _) as [err|st]; [done |]. simpl.
  rewrite Hsettle.
  unfold Enhanced.bind, Enhanced.updateTransaction, Enhanced.markUserFeePaid,
    Enhanced.updateUserBalance. simpl.
  rewrite Hu. simpl. rewrite lookup_insert_eq. simpl.
  by rewrite Hsum.
Qed.

(** A settling tick for a phone that has no user row: the statements on
    the users change nothing, and the disbursement is inserted if it
    can be. *)
Lemma poll_tick_without_user now p data s :
  settles data →
  Enhanced.users s !! Enhanced.p_phone p = None →
  ∃ cleared txs,
    Enhanced.poll_tick now p (GwReply data) s
    = (Enhanced.Returned cleared, Enhanced.mkDb (Enhanced.users s) txs)
    ∧ (txs = Enhanced.set_status now (Enhanced.p_reference p) "completed"
               <$> Enhanced.transactions s
       ∨ (Enhanced.find_transaction ("LOAN-" +:+ dec_of_Z now)
            (Enhanced.transactions s) = None
          ∧ txs = ((Enhanced.set_status now (Enhanced.p_reference p) "completed"
                      <$> Enhanced.transactions s)
                     ++ [Enhanced.disbursement now p])%list)).
Proof.
  unfold settles, payStatus_of, payData_of. intros Hsettle Hu.
  unfold Enhanced.poll_tick, Enhanced.try_catch.
  unfold Enhanced.bind at 1. simpl.
  unfold Enhanced.bind at 1.
  destruct (lowered_status _) as [err|st]; [done |]. simpl.
  rewrite Hsettle.
  unfold Enhanced.bind, Enhanced.updateTransaction, Enhanced.markUserFeePaid,
    Enhanced.updateUserBalance, Enhanced.createTransaction. simpl.
  repeat (rewrite Hu; simpl).
  destruct (Enhanced.fits_numeric _); simpl;
    [| eexists _, _; split; [reflexivity | by left]].
  rewrite find_transaction_set_status.
  destruct (Enhanced.find_transaction _ _) eqn:Hfind; simpl;
    eexists _, _; (split; [reflexivity |]); [by left | by right].
Qed.

Lemma set_status_hit now ref st (txs : list Enhanced.transaction) :
  ref ∈ Enhanced.reference <$> txs →
  ∃ t, Enhanced.find_transaction ref (Enhanced.set_status now ref st <$> txs)
       = Some t
       ∧ Enhanced.status t = st.
Proof.
  intros Hin. rewrite find_transaction_set_status.
  destruct (Enhanced.find_transaction ref txs) as [t|] eqn:Hfind.
  - apply find_transaction_Some in Hfind as [_ Href].
    eexists; split; [reflexivity |].
    unfold Enhanced.set_status. by rewrite Href, String.eqb_refl.
  - by apply find_transaction_None in Hfind.
Qed.

Lemma is_disbursement_set_status now ref st ref' t :
  Enhanced.is_disbursement_for ref' (Enhanced.set_status now ref st t)
  = Enhanced.is_disbursement_for ref' t.
Proof.
  unfold Enhanced.set_status. by destruct (String.eqb _ _).
Qed.

Lemma disbursements_set_status now ref st ref' (txs : list Enhanced.transaction) :
  length (List.filter (Enhanced.is_disbursement_for ref')
            (Enhanced.set_status now ref st <$> txs))
  = length (List.filter (Enhanced.is_disbursement_for ref') txs).
Proof.
  induction txs as [|t txs IH]; [done |].
  rewrite fmap_cons. cbn [List.filter].
  rewrite is_disbursement_set_status.
  destruct (Enhanced.is_disbursement_for ref' t); cbn [length]; by rewrite IH.
Qed.

Lemma disbursements_settled now p u s :
  length (Enhanced.disbursements_for (Enhanced.p_reference p)
            (Enhanced.settled now p u s))
  = S (length (Enhanced.disbursements_for (Enhanced.p_reference p) s)).
Proof.
  unfold Enhanced.disbursements_for, Enhanced.settled.
  cbn [Enhanced.transactions].
  rewrite List.filter_app, length_app, disbursements_set_status. simpl.
  unfold Enhanced.is_disbursement_for. simpl.
  rewrite String.eqb_refl. simpl. lia.
Qed.

(** C2, as the code has it. Take a payment whose initiation started a
    poll timer, any later events, and a tick of that timer on which the
    gateway says completed or processing. Provided no transaction is
    stored under the reference LOAN-<clock> the tick generates, and the
    loan and the balance with the loan added fit DECIMAL(15, 2), the
    tick clears the timer and: the payment's transaction is completed;
    the user has paid the fee; the balance is credited by the request's
    loan amount, or by 50000 when the request has none or has zero; and
    one loan_disbursement transaction is added whose metadata names the
    payment's reference. *)
Theorem settle_effects now0 err0 req gw0 s0 resp p s1 events now data :
  Enhanced.pay now0 err0 req gw0 s0
    = (Enhanced.Returned (resp, Some p), s1) →
  settles data →
  let s := Enhanced.run s1 events in
  Enhanced.find_transaction ("LOAN-" +:+ dec_of_Z now) (Enhanced.transactions s)
    = None →
  let loan := num_or (pb_loan_amount req) 50000 in
  let ref := Enhanced.p_reference p in
  let phone := Enhanced.p_phone p in
  Enhanced.fits_numeric loan = true →
  (∀ b, Enhanced.balance_of phone s = Some b →
        Enhanced.fits_numeric (b + loan) = true) →
  let s' := (Enhanced.poll_tick now p (GwReply data) s).2 in
  get_prop (body resp) "reference" = JStr ref
  ∧ formatPhone (pb_phone req) = Some phone
  ∧ (Enhanced.poll_tick now p (GwReply data) s).1 = Enhanced.Returned true
  ∧ Enhanced.status <$> Enhanced.find_transaction ref (Enhanced.transactions s')
    = Some "completed"
  ∧ Enhanced.has_paid_fee <$> Enhanced.users s' !! phone = Some true
  ∧ is_Some (Enhanced.balance_of phone s)
  ∧ Enhanced.balance_of phone s'
    = (λ b, b + loan)%Z <$> Enhanced.balance_of phone s
  ∧ (∃ d, Enhanced.transactions s'
          = (Enhanced.set_status now ref "completed"
               <$> Enhanced.transactions s) ++ [d]
          ∧ Enhanced.type d = "loan_disbursement"
          ∧ Enhanced.amount d = loan
          ∧ Enhanced.user_phone d = phone
          ∧ Enhanced.metadata d = JObj [("related_payment", JStr ref)])%list
  ∧ length (Enhanced.disbursements_for ref s')
    = S (length (Enhanced.disbursements_for ref s)).
Proof.
  intros Hpay Hsettle s Hfresh loan ref phone Hfits Hsum s'.
  destruct (pay_starts_poll _ _ _ _ _ _ _ _ Hpay)
    as (Hbody & Hphone & Hloan & Huser & Hin).
  destruct (run_grows events s1) as [Husers Hrefs]. fold s in Husers, Hrefs.
  destruct (Husers _ Huser) as [u Hu].
  specialize (Hsum (Enhanced.balance u)).
  unfold Enhanced.balance_of in Hsum. subst phone. rewrite Hu in Hsum.
  specialize (Hsum eq_refl).
  subst loan ref s'. rewrite <- Hloan in Hfits, Hsum.
  rewrite (poll_tick_settles now p data s u) by done.
  unfold Enhanced.balance_of. rewrite <- Hloan, Hu.
  cbn [fst snd Enhanced.settled Enhanced.users Enhanced.transactions].
  rewrite lookup_insert_eq.
  repeat (split; [done |]).
  split.
  { destruct (set_status_hit now (Enhanced.p_reference p) "completed"
                (Enhanced.transactions s) (Hrefs _ Hin)) as (t & Ht & Hst).
    by rewrite find_transaction_app, Ht, <- Hst. }
  repeat (split; [done |]).
  split; [by eexists |].
  apply (disbursements_settled now p u s).
Qed.

Lemma settle_effects_witness :
  (Enhanced.poll_tick 16000 Scenario.alice_poll
     (GwReply (Scenario.status_answer "completed"))
     (Enhanced.run Scenario.after_alice
        [Enhanced.GetBalance 1500 "0712345678"])).1
  = Enhanced.Returned true
  ∧ Enhanced.balance_of Scenario.alice_phone
      (Enhanced.poll_tick 16000 Scenario.alice_poll
         (GwReply (Scenario.status_answer "completed"))
         (Enhanced.run Scenario.after_alice
            [Enhanced.GetBalance 1500 "0712345678"])).2
    = (λ b, b + 50000)%Z
        <$> Enhanced.balance_of Scenario.alice_phone
              (Enhanced.run Scenario.after_alice
                 [Enhanced.GetBalance 1500 "0712345678"]).
Proof.
  destruct (settle_effects 1000 1000 Scenario.alice
              (Scenario.gateway_accepts "TXA") Scenario.empty_db
              (Scenario.accepted "ORDER-1000") Scenario.alice_poll
              Scenario.after_alice [Enhanced.GetBalance 1500 "0712345678"]
              16000 (Scenario.status_answer "completed")
              ltac:(vm_compute; reflexivity) ltac:(vm_compute; reflexivity)
              ltac:(vm_compute; reflexivity) ltac:(vm_compute; reflexivity)
              ltac:(intros b [= <-]; vm_compute; reflexivity))
    as (_ & _ & Htick & _ & _ & _ & Hbal & _).
  exact (conj Htick Hbal).
Defined.

(** C2 as stated fails three times over. A request with loan amount 0
    is credited 50000, not 0. When the reference the tick generates
    for the disbursement is taken (here by Bob's settlement in the same
    millisecond), the transaction is completed and the balance credited
    but no disbursement is recorded and the timer keeps running. And
    when the loan does not fit DECIMAL(15, 2) (here 10^13), the
    transaction is completed and the fee marked paid, but the credit
    fails: the balance stays 0, no disbursement is recorded and the
    timer keeps running. *)
Lemma settle_effects_fail :
  pb_loan_amount Scenario.zero_loan = Some 0%Z
  ∧ Enhanced.balance_of Scenario.alice_phone Scenario.after_zero_loan
    = Some 0%Z
  ∧ Enhanced.balance_of Scenario.alice_phone
      (Enhanced.poll_tick 16000 Scenario.zero_loan_poll
         (GwReply (Scenario.status_answer "completed"))
         Scenario.after_zero_loan).2
    = Some 50000%Z
  ∧ (Enhanced.poll_tick 16000 Scenario.alice_poll
       (GwReply (Scenario.status_answer "completed"))
       Scenario.after_bob_settled).1
    = Enhanced.Returned false
  ∧ Enhanced.balance_of Scenario.alice_phone
      (Enhanced.poll_tick 16000 Scenario.alice_poll
         (GwReply (Scenario.status_answer "completed"))
         Scenario.after_bob_settled).2
    = Some 50000%Z
  ∧ Enhanced.disbursements_for "ORDER-1000"
      (Enhanced.poll_tick 16000 Scenario.alice_poll
         (GwReply (Scenario.status_answer "completed"))
         Scenario.after_bob_settled).2
    = []
  ∧ (Enhanced.pay 1000 1000 Scenario.huge_loan
       (Scenario.gateway_accepts "TXA") Scenario.empty_db).1
    = Enhanced.Returned
        (Scenario.accepted "ORDER-1000", Some Scenario.huge_loan_poll)
  ∧ (Enhanced.poll_tick 16000 Scenario.huge_loan_poll
       (GwReply (Scenario.status_answer "completed"))
       Scenario.after_huge_loan).1
    = Enhanced.Returned false
  ∧ Enhanced.users
      (Enhanced.poll_tick 16000 Scenario.huge_loan_poll
         (GwReply (Scenario.status_answer "completed"))
         Scenario.after_huge_loan).2 !! Scenario.alice_phone
    = Some (Enhanced.mkUser 0 true 1000 16000)
  ∧ Enhanced.status
      <$> Enhanced.find_transaction "ORDER-1000"
            (Enhanced.transactions
               (Enhanced.poll_tick 16000 Scenario.huge_loan_poll
                  (GwReply (Scenario.status_answer "completed"))
                  Scenario.after_huge_loan).2)
    = Some "completed"
  ∧ Enhanced.disbursements_for "ORDER-1000"
      (Enhanced.poll_tick 16000 Scenario.huge_loan_poll
         (GwReply (Scenario.status_answer "completed"))
         Scenario.after_huge_loan).2
    = [].
Proof. by vm_compute. Qed.

(** *** The two drivers together *)

Lemma drive_cleared p s sigs :
  Enhanced.drive p (Enhanced.mkDriver false s) sigs
  = Enhanced.mkDriver false s.
Proof.
  induction sigs as [|[now gw|data] sigs IH]; simpl; [done | exact IH | exact IH].
Qed.

Lemma drive_webhooks p d sigs :
  Forall Enhanced.is_webhook sigs → Enhanced.drive p d sigs = d.
Proof.
  intros Hall. revert d.
  induction Hall as [|[now gw|data] sigs Hweb _ IH]; intros d; simpl;
    [done | done |].
  rewrite IH. by destruct d.
Qed.

(** In the database variant the webhook only acknowledges, so it can
    neither settle a payment nor settle it again: when the settling
    tick's disbursement reference is free (and the amounts fit their
    columns), webhooks before it and any signals after it leave exactly
    the one settlement of that tick. *)
Lemma settled_once_when_reference_free p s u now data before after :
  settles data →
  Enhanced.users s !! Enhanced.p_phone p = Some u →
  Enhanced.find_transaction ("LOAN-" +:+ dec_of_Z now) (Enhanced.transactions s)
    = None →
  Enhanced.fits_numeric (num_or (Enhanced.p_loan_amount p) 50000) = true →
  Enhanced.fits_numeric
    (Enhanced.balance u + num_or (Enhanced.p_loan_amount p) 50000) = true →
  Forall Enhanced.is_webhook before →
  Enhanced.drive p (Enhanced.mkDriver true s)
    (before ++ Enhanced.PollFires now (GwReply data) :: after)
  = Enhanced.mkDriver false (Enhanced.settled now p u s).
Proof.
  intros Hsettle Hu Hfree Hloan Hsum Hbefore.
  unfold Enhanced.drive. rewrite foldl_app.
  fold (Enhanced.drive p (Enhanced.mkDriver true s) before).
  rewrite drive_webhooks by done. simpl.
  rewrite (poll_tick_settles now p data s u) by done.
  apply drive_cleared.
Qed.

(** C1 fails on the code. Alice's and Bob's payments are settled by
    ticks that read the same millisecond: Bob's tick takes the
    reference LOAN-16000, so Alice's tick credits her balance, fails to
    insert its disbursement and leaves the timer running; the webhook
    for her payment changes nothing; her next tick credits her again.
    One payment, two credits of 50000. *)
Theorem double_credit_after_reference_collision :
  let d :=
    Enhanced.drive Scenario.alice_poll
      (Enhanced.mkDriver true Scenario.after_bob_settled)
      [Enhanced.PollFires 16000 (GwReply (Scenario.status_answer "completed"));
       Enhanced.WebhookArrives Scenario.alice_webhook;
       Enhanced.PollFires 31000 (GwReply (Scenario.status_answer "completed"))] in
  Enhanced.balance_of Scenario.alice_phone Scenario.after_bob_settled = Some 0%Z
  ∧ Enhanced.disbursements_for "ORDER-1000" Scenario.after_bob_settled = []
  ∧ Enhanced.balance_of Scenario.alice_phone (Enhanced.store d)
    = Some (50000 + 50000)%Z
  ∧ length (Enhanced.disbursements_for "ORDER-1000" (Enhanced.store d)) = 1%nat
  ∧ Enhanced.timer_active d = false.
Proof. by vm_compute. Qed.

(** ** The legacy variant: cron job and webhook *)

Lemma getTime_throws parse (v : jsval) :
  (∃ err, Legacy.getTime parse v = inl err) ↔ String_throws v = true.
Proof.
  unfold Legacy.getTime, to_String.
  destruct v as [| |[]|n|s|l|l]; try (split; [intros [? ?] | intros ?]; done);
    destruct (String_throws _); split; try done; eauto; by intros [? ?].
Qed.

Lemma due_not_jams parse now (r : Legacy.receipt) :
  Legacy.due parse now r → ¬ Legacy.jams r.
Proof.
  intros (_ & t & Htime & _) [_ Hthrows].
  apply (getTime_throws parse) in Hthrows as [err Herr]. congruence.
Qed.

(** The three outcomes of the loop body. *)
Lemma release_result parse now (r : Legacy.receipt) :
  (Legacy.jams r ∧ ∃ err, Legacy.release parse now r = inl err)
  ∨ (Legacy.due parse now r
     ∧ Legacy.release parse now r = inr (Legacy.released r))
  ∨ (¬ Legacy.jams r ∧ ¬ Legacy.due parse now r
     ∧ Legacy.release parse now r = inr r).
Proof.
  unfold Legacy.release, Legacy.due, Legacy.jams, Legacy.field.
  destruct (r !! "status") as [status|] eqn:Hstatus; simpl;
    [| right; right; split; [by intros [? _] | split; [by intros [? _] | done]]].
  destruct status as [| |b|n|st|l|l];
    try (right; right; split; [by intros [? _] | split; [by intros [? _] | done]]).
  destruct (String.eqb_spec st "processing") as [->|Hne];
    [| right; right; split; [intros [? _] | split; [intros [? _] |]];
       congruence].
  destruct (Legacy.getTime parse _) as [err|[t|]] eqn:Htime.
  - left. split; [| eauto]. split; [done |].
    apply (getTime_throws parse). eauto.
  - destruct (Z.leb_spec (t + Legacy.release_delay) now) as [Hle|Hgt].
    + right. left. split; [| done]. split; [done |]. exists t.
      split; [done |]. unfold Legacy.release_delay in Hle. lia.
    + right. right. split.
      { intros [_ Hthrows]. apply (getTime_throws parse) in Hthrows as [? ?].
        congruence. }
      split; [| done]. intros (_ & t' & Ht' & Hle). simplify_eq.
      unfold Legacy.release_delay in Hgt. lia.
  - right. right. split.
    { intros [_ Hthrows]. apply (getTime_throws parse) in Hthrows as [? ?].
      congruence. }
    split; [| done]. by intros (_ & t' & Ht' & _).
Qed.

Lemma release_due parse (now : Z) (r : Legacy.receipt) :
  Legacy.due parse now r →
  Legacy.release parse now r = inr (Legacy.released r).
Proof.
  intros Hdue.
  destruct (release_result parse now r) as [[Hjam _]|[[_ ?]|(_ & Hnot & _)]];
    [by apply due_not_jams in Hdue | done | done].
Qed.



(** *** The loop over the file *)

Lemma cron_fold_thrown parse now err (refs : list string) :
  foldl (Legacy.cron_step parse now) (inl err) refs = inl err.
Proof. induction refs as [|k refs IH]; [done | exact IH]. Qed.


Lemma cron_fold_lookup parse now (refs : list string) (acc : Legacy.receipts) :
  NoDup refs →
  (∀ ref r, ref ∈ refs → acc !! ref = Some r → ¬ Legacy.jams r) →
  ∃ acc',
    foldl (Legacy.cron_step parse now) (inr acc) refs = inr acc'
    ∧ ∀ ref,
        acc' !! ref
        = if decide (ref ∈ refs)
          then (λ r, match Legacy.release parse now r with
                     | inr r' => r'
                     | inl _ => r
                     end) <$> acc !! ref
          else acc !! ref.
Proof.
  intros Hnodup. revert acc.
  induction Hnodup as [|k refs Hk Hnodup IH]; intros acc Hclear.
  { exists acc. split; [done |]. intros ref.
    case_decide as Hin; [by apply elem_of_nil in Hin | done]. }
  cbn [foldl Legacy.cron_step].
  assert (∃ acc1,
    match acc !! k with
    | Some r =>
        match Legacy.release parse now r with
        | inl err => inl err
        | inr r' => inr (<[k := r']> acc)
        end
    | None => inr acc
    end = inr acc1
    ∧ (∀ ref, ref ≠ k → acc1 !! ref = acc !! ref)
    ∧ acc1 !! k = (λ r, match Legacy.release parse now r with
                        | inr r' => r'
                        | inl _ => r
                        end) <$> acc !! k) as (acc1 & -> & Hother & Hthis).
  { destruct (acc !! k) as [rk|] eqn:Hrk.
    - assert (¬ Legacy.jams rk) as Hnj
        by (apply (Hclear k); [apply list_elem_of_here | done]).
      simpl.
      destruct (release_result parse now rk) as [[? _]|[[_ ->]|(_ & _ & ->)]];
        [done | |]; eexists; (split; [reflexivity |]);
        (split; [intros ref Hne; by rewrite lookup_insert_ne |]);
        by rewrite lookup_insert_eq.
    - exists acc. by rewrite Hrk. }
  destruct (IH acc1) as (acc' & Hfold & Hlookup).
  { intros ref r Hin Hr. rewrite Hother in Hr by (intros ->; done).
    apply (Hclear ref); [by apply list_elem_of_further | done]. }
  exists acc'. split; [done |]. intros ref. rewrite Hlookup.
  destruct (decide (ref = k)) as [->|Hne].
  - rewrite (decide_False (P := k ∈ refs)) by done.
    by rewrite (decide_True (P := k ∈ k :: refs)) by apply list_elem_of_here.
  - rewrite Hother by done.
    destruct (decide (ref ∈ refs)) as [Hin|Hnin].
    + by rewrite (decide_True (P := ref ∈ k :: refs))
        by (by apply list_elem_of_further).
    + rewrite (decide_False (P := ref ∈ k :: refs)); [done |].
      rewrite elem_of_cons. by intros [|].
Qed.

Lemma keys_of_file (s : Legacy.receipts) ref :
  ref ∈ (map_to_list s).*1 ↔ is_Some (s !! ref).
Proof.
  rewrite list_elem_of_fmap. split.
  - intros [[k r] [-> Hin]]. apply elem_of_map_to_list in Hin. by exists r.
  - intros [r Hr]. exists (ref, r). split; [done |]. by apply elem_of_map_to_list.
Qed.

(** The job on a file in which no timestamp makes it throw. *)
Lemma cron_job_lookup parse now (s : Legacy.receipts) ref :
  (∀ k r, s !! k = Some r → ¬ Legacy.jams r) →
  Legacy.cron_job parse now s !! ref
  = (λ r, match Legacy.release parse now r with
          | inr r' => r'
          | inl _ => r
          end) <$> s !! ref.
Proof.
  intros Hclear. unfold Legacy.cron_job.
  destruct (cron_fold_lookup parse now (map_to_list s).*1 s)
    as (s' & -> & Hlookup).
  { apply NoDup_fst_map_to_list. }
  { intros k r _. apply Hclear. }
  rewrite Hlookup. case_decide as Hin; [done |].
  destruct (s !! ref) as [r|] eqn:Hr; [| done].
  exfalso. apply Hin, keys_of_file. by rewrite Hr.
Qed.






(** *** The webhook *)

Lemma set_field_truthy k v (r : Legacy.receipt) :
  truthy v = true → Legacy.set_field k v r = <[k := v]> r.
Proof. by destruct v. Qed.

Lemma js_or_truthy a b : truthy b = true → truthy (js_or a b) = true.
Proof. intros Hb. unfold js_or. by destruct (truthy a) eqn:Ha. Qed.


Lemma set_field_lookup_ne k v (r : Legacy.receipt) k' :
  k ≠ k' → Legacy.set_field k v r !! k' = r !! k'.
Proof.
  intros Hne. unfold Legacy.set_field.
  destruct v; by rewrite ?lookup_delete_ne, ?lookup_insert_ne by done.
Qed.

Lemma set_field_lookup_str k st (r : Legacy.receipt) :
  Legacy.set_field k (JStr st) r !! k = Some (JStr st).
Proof. apply lookup_insert_eq. Qed.


Lemma in_Object_prototype (key : string) :
  existsb (String.eqb key) Legacy.Object_prototype = true
  ↔ key ∈ Legacy.Object_prototype.
Proof.
  rewrite List.existsb_exists. split.
  - intros (x & Hin%list_elem_of_In & ->%String.eqb_eq). done.
  - intros Hin. exists key. split; [by apply list_elem_of_In |].
    apply String.eqb_refl.
Qed.

Lemma receipt_at_Member (key : string) (s : Legacy.receipts) :
  s !! key = None → key ∈ Legacy.Object_prototype →
  Legacy.receipt_at key s = Legacy.Member key.
Proof.
  intros Hnone Hin%in_Object_prototype. unfold Legacy.receipt_at.
  by rewrite Hnone, Hin.
Qed.

Lemma receipt_at_Absent (key : string) (s : Legacy.receipts) :
  s !! key = None → key ∉ Legacy.Object_prototype →
  Legacy.receipt_at key s = Legacy.Absent.
Proof.
  intros Hnone Hnin. unfold Legacy.receipt_at. rewrite Hnone.
  destruct (existsb _ _) eqn:Hin; [| done].
  by apply in_Object_prototype in Hin.
Qed.


(** What the webhook does once it has its key and status. *)
Lemma webhook_writes now data (s : Legacy.receipts) ref rest key st :
  Legacy.refCandidates data = ref :: rest →
  to_String ref = inr key →
  Legacy.webhook_status data = inr st →
  ∃ r,
    r !! "status" = Some (Legacy.webhook_verdict data st)
    ∧ r !! "timestamp" = Some (JNum now)
    ∧ Legacy.processWebhookData now data s
      = inr (match Legacy.receipt_at key s with
             | Legacy.Member name => Legacy.WroteMember name r
             | _ => Legacy.Wrote key r
             end)
    ∧ (Legacy.receipt_at key s = Legacy.Absent →
       dom r = {["status"; "status_note"; "timestamp"]}).
Proof.
  unfold Legacy.webhook_status, Legacy.webhook_payData, Legacy.webhook_verdict.
  intros Href Hkey Hst. unfold Legacy.processWebhookData.
  rewrite Href, Hkey, Hst.
  set (note := js_or _ (js_or _ (JStr "Payment failed or cancelled."))).
  assert (truthy note = true) as Hnote
    by (apply js_or_truthy, js_or_truthy; done).
  assert (∀ r0 : Legacy.receipt,
    let r := Legacy.set_field "timestamp" (JNum now)
               (if String.eqb st "completed" || Legacy.result_code_zero data
                then Legacy.set_field "status_note"
                       (JStr "✅ Payment verified. Loan processing started.")
                       (Legacy.set_field "status" (JStr "processing") r0)
                else Legacy.set_field "status_note" note
                       (Legacy.set_field "status" (JStr "cancelled") r0)) in
    r !! "status"
    = Some (if String.eqb st "completed" || Legacy.result_code_zero data
            then JStr "processing" else JStr "cancelled")
    ∧ r !! "timestamp" = Some (JNum now)
    ∧ (r0 = ∅ → dom r = {["status"; "status_note"; "timestamp"]})) as Hwrite.
  { intros r0 r. subst r. split; [| split].
    - destruct (_ || _); rewrite !set_field_lookup_ne by done;
        by rewrite set_field_lookup_str.
    - apply lookup_insert_eq.
    - intros ->. destruct (_ || _).
      + simpl. rewrite !dom_insert_L, dom_empty_L. set_solver.
      + rewrite (set_field_truthy "status_note") by done.
        simpl. rewrite !dom_insert_L, dom_empty_L. set_solver. }
  destruct (Legacy.receipt_at key s) as [r0|name|];
    [destruct (Hwrite r0) as (? & ? & _)
    | destruct (Hwrite ∅) as (? & ? & _)
    | destruct (Hwrite ∅) as (? & ? & Hdom)];
    eexists; (split; [eassumption |]); (split; [eassumption |]);
    (split; [reflexivity |]); [done | done | intros _; by apply Hdom].
Qed.



(** * Further properties of the code *)

(** ** The phone normalizer *)

Lemma strip_non_digits_idemp (s : string) :
  strip_non_digits (strip_non_digits s) = strip_non_digits s.
Proof.
  induction s as [|a s IH]; simpl; [done |].
  destruct (is_digit a) eqn:Ha; simpl; [| done]. by rewrite Ha, IH.
Qed.

Lemma length_append (s1 s2 : string) :
  String.length (s1 +:+ s2) = (String.length s1 + String.length s2)%nat.
Proof.
  induction s1 as [|a s1 IH]; [done |].
  rewrite append_cons. simpl. by rewrite IH.
Qed.

Lemma strip_non_digits_append (s1 s2 : string) :
  strip_non_digits (s1 +:+ s2) = strip_non_digits s1 +:+ strip_non_digits s2.
Proof.
  induction s1 as [|a s1 IH]; [done |].
  rewrite append_cons. simpl. destruct (is_digit a); [| done].
  by rewrite append_cons, IH.
Qed.

(** A canonical phone: twelve digits, the first three 254. *)
Lemma formatPhone_canonical (r : string) :
  String.length r = 12%nat →
  String.prefix "254" r = true →
  strip_non_digits r = r →
  formatPhone (JStr r) = Some r.
Proof.
  intros Hlen Hpre Hdigits. unfold formatPhone.
  assert (truthy (JStr r) = true) as ->.
  { simpl. destruct r; [done | done]. }
  simpl. by rewrite Hdigits, Hlen, Hpre.
Qed.

(** X1: whatever the normalizer accepts it maps to twelve digits
    starting with 254, and that canonical form is a fixed point:
    normalizing it again gives it back. *)
Theorem formatPhone_idempotent (phone : jsval) (r : string) :
  formatPhone phone = Some r →
  String.length r = 12%nat
  ∧ String.prefix "254" r = true
  ∧ strip_non_digits r = r
  ∧ formatPhone (JStr r) = Some r.
Proof.
  intros Hfmt.
  assert (String.length r = 12%nat ∧ String.prefix "254" r = true
          ∧ strip_non_digits r = r) as (Hlen & Hpre & Hdigits).
  { revert Hfmt. unfold formatPhone.
    destruct (truthy phone); simpl; [| done].
    set (d := strip_non_digits (js_String phone)).
    assert (strip_non_digits d = d) as Hd by apply strip_non_digits_idemp.
    clearbody d.
    destruct (_ && String.prefix "7" d) eqn:H9.
    { apply andb_prop in H9 as [Hlen%Nat.eqb_eq _].
      intros [= <-].
      rewrite length_append, Hlen, strip_non_digits_append, Hd.
      split; [done |]. split; [| done]. apply prefix_app. eauto. }
    destruct (_ && String.prefix "07" d) eqn:H10.
    { apply andb_prop in H10 as [Hlen%Nat.eqb_eq [x Hx]%prefix_app].
      intros [= <-].
      assert (d = String "0" ("7" +:+ x)) as -> by exact Hx.
      clear Hx H9. set (y := "7" +:+ x) in *. clearbody y.
      rewrite substring_from1_cons.
      simpl in Hd, Hlen. injection Hd as Hd. injection Hlen as Hlen.
      rewrite length_append, Hlen, strip_non_digits_append, Hd.
      split; [done |]. split; [| done]. apply prefix_app. eauto. }
    destruct (_ && String.prefix "254" d) eqn:H12; [| done].
    apply andb_prop in H12 as [Hlen%Nat.eqb_eq Hpre].
    by intros [= <-]. }
  repeat split; try done. by apply formatPhone_canonical.
Qed.

Lemma formatPhone_idempotent_witness :
  String.length "254712345678" = 12%nat
  ∧ String.prefix "254" "254712345678" = true
  ∧ strip_non_digits "254712345678" = "254712345678"
  ∧ formatPhone (JStr "254712345678") = Some "254712345678".
Proof.
  apply (formatPhone_idempotent (JStr "0712 345 678")).
  by vm_compute.
Defined.

(** X2: on a string the normalizer looks at the digits only: spaces,
    dashes, a plus sign or any other character between them change
    nothing. *)
Theorem formatPhone_digits_only (s : string) :
  formatPhone (JStr s) = formatPhone (JStr (strip_non_digits s)).
Proof.
  unfold formatPhone. simpl js_String. rewrite strip_non_digits_idemp.
  destruct s as [|a s]; [done |].
  by destruct (strip_non_digits (String a s)).
Qed.

(** ** The ledger store *)

Ltac preserves_tac Hrefl Htrans ops :=
  repeat first
    [ ops
    | apply (preserves_try_catch _ Htrans)
    | apply (preserves_bind _ Htrans)
    | apply (preserves_ret _ Hrefl)
    | apply (preserves_throw _ Hrefl)
    | apply (preserves_lift _ Hrefl)
    | progress intros
    | case_match ].

(** *** Handlers that only create users *)

Lemma only_creates_refl s : Enhanced.only_creates s s.
Proof. split; [by intros phone u |]. intros phone v Hv. by left. Qed.

Lemma only_creates_trans s1 s2 s3 :
  Enhanced.only_creates s1 s2 → Enhanced.only_creates s2 s3 →
  Enhanced.only_creates s1 s3.
Proof.
  intros [Hk1 Hn1] [Hk2 Hn2]. split.
  - intros phone u Hu. by apply Hk2, Hk1.
  - intros phone v Hv.
    destruct (Hn2 _ _ Hv) as [Hv2|[Hnone Hfresh]].
    + by apply Hn1.
    + right. split; [| done].
      destruct (Enhanced.users s1 !! phone) as [u|] eqn:Hu; [| done].
      apply Hk1 in Hu. congruence.
Qed.

Lemma same_users_only_creates s s' :
  Enhanced.users s' = Enhanced.users s → Enhanced.only_creates s s'.
Proof.
  intros Heq. split.
  - intros phone u. by rewrite Heq.
  - intros phone v. rewrite Heq. by left.
Qed.

Lemma getOrCreateUser_only_creates now phone :
  Enhanced.preserves Enhanced.only_creates (Enhanced.getOrCreateUser now phone).
Proof.
  intros s. unfold Enhanced.getOrCreateUser.
  destruct (Enhanced.users s !! phone) eqn:Hu; simpl;
    [apply only_creates_refl |].
  split; [unfold Enhanced.users_kept |]; simpl.
  - intros q u Hq. rewrite lookup_insert_ne; [done | congruence].
  - intros q v. rewrite lookup_insert. case_decide as Heq.
    + intros [= <-]. subst q. right. eauto.
    + by left.
Qed.

Lemma createTransaction_only_creates now data :
  Enhanced.preserves Enhanced.only_creates (Enhanced.createTransaction now data).
Proof.
  intros s. apply same_users_only_creates.
  unfold Enhanced.createTransaction.
  destruct (Enhanced.d_amount data); [| done].
  destruct (Enhanced.fits_numeric _); [| done]. simpl.
  by destruct (Enhanced.find_transaction _ _).
Qed.

Lemma getUserTransactions_only_creates phone limit :
  Enhanced.preserves Enhanced.only_creates
    (Enhanced.getUserTransactions phone limit).
Proof. intros s. apply only_creates_refl. Qed.

Ltac only_creates_tac :=
  preserves_tac only_creates_refl only_creates_trans
    ltac:(first [ apply getOrCreateUser_only_creates
                | apply createTransaction_only_creates
                | apply getUserTransactions_only_creates ]).

Lemma get_balance_only_creates now phone :
  Enhanced.preserves Enhanced.only_creates (Enhanced.get_balance now phone).
Proof. unfold Enhanced.get_balance. only_creates_tac. Qed.

Lemma get_transactions_only_creates phone :
  Enhanced.preserves Enhanced.only_creates (Enhanced.get_transactions phone).
Proof. unfold Enhanced.get_transactions. only_creates_tac. Qed.

Lemma pay_only_creates now now_err req gw :
  Enhanced.preserves Enhanced.only_creates (Enhanced.pay now now_err req gw).
Proof.
  unfold Enhanced.pay, Enhanced.pay_try, Enhanced.pay_catch. only_creates_tac.
Qed.

Lemma get_receipt_unchanged ref s : (Enhanced.get_receipt ref s).2 = s.
Proof.
  unfold Enhanced.get_receipt, Enhanced.try_catch.
  by destruct (Enhanced.find_transaction _ _).
Qed.

Lemma insert_row_step (users : gmap string Enhanced.user) phone u' q v :
  Enhanced.row_step (users !! phone) u' →
  <[phone := u']> users !! q = Some v →
  Enhanced.row_step (users !! q) v.
Proof.
  intros Hstep. rewrite lookup_insert. case_decide as Heq.
  - intros [= <-]. by subst q.
  - intros ->. constructor.
Qed.

Lemma same_row_step (users : gmap string Enhanced.user) q v :
  users !! q = Some v → Enhanced.row_step (users !! q) v.
Proof. intros ->. constructor. Qed.

(** *** Handlers that move money *)

Lemma poll_tick_users now p gw s :
  Enhanced.users (Enhanced.poll_tick now p gw s).2 = Enhanced.users s
  ∨ ∃ u, Enhanced.users s !! Enhanced.p_phone p = Some u
         ∧ (Enhanced.users (Enhanced.poll_tick now p gw s).2
            = <[Enhanced.p_phone p := Enhanced.credited now p u]>
                (Enhanced.users s)
            ∨ Enhanced.users (Enhanced.poll_tick now p gw s).2
              = <[Enhanced.p_phone p := Enhanced.fee_marked now u]>
                  (Enhanced.users s)).
Proof.
  destruct gw as [data|err]; [| by left].
  destruct (payStatus_of data) as [err|st] eqn:Hst.
  { left. unfold Enhanced.poll_tick, Enhanced.try_catch, Enhanced.bind.
    simpl. unfold payStatus_of, payData_of in Hst. by rewrite Hst. }
  destruct (String.eqb st "completed" || String.eqb st "processing") eqn:Hsettle.
  - assert (settles data) as Hs by (unfold settles; by rewrite Hst).
    destruct (Enhanced.users s !! Enhanced.p_phone p) as [u|] eqn:Hu.
    + right. exists u. split; [done |].
      destruct (Enhanced.fits_numeric
                  (Enhanced.balance u
                   + num_or (Enhanced.p_loan_amount p) 50000)) eqn:Hsum;
        [| right; by rewrite (poll_tick_overflows now p data s u)].
      left.
      destruct (Enhanced.fits_numeric (num_or (Enhanced.p_loan_amount p) 50000))
        eqn:Hloan;
        [| rewrite (poll_tick_collides now p data s u); auto].
      destruct (Enhanced.find_transaction ("LOAN-" +:+ dec_of_Z now)
                  (Enhanced.transactions s)) as [t|] eqn:Hfind.
      * rewrite (poll_tick_collides now p data s u); eauto.
      * by rewrite (poll_tick_settles now p data s u).
    + left.
      destruct (poll_tick_without_user now p data s Hs Hu)
        as (cleared & txs & -> & _). done.
  - left. unfold Enhanced.poll_tick, Enhanced.try_catch, Enhanced.bind.
    simpl. unfold payStatus_of, payData_of in Hst. rewrite Hst. simpl.
    rewrite Hsettle. clear Hsettle. unfold Enhanced.updateTransaction.
    destruct (_ || _); reflexivity.
Qed.

Lemma withdraw_users now req s :
  Enhanced.only_creates s (Enhanced.withdraw now req s).2
  ∨ ∃ phone u amt,
      Enhanced.users s !! phone = Some u
      ∧ Enhanced.has_paid_fee u = true
      ∧ (100 ≤ amt)%Z ∧ (amt ≤ Enhanced.balance u)%Z
      ∧ Enhanced.users (Enhanced.withdraw now req s).2
        = <[phone := Enhanced.mkUser (Enhanced.balance u - amt) true
                       (Enhanced.u_created_at u) now]> (Enhanced.users s).
Proof.
  unfold Enhanced.withdraw, Enhanced.try_catch, Enhanced.bind.
  destruct (formatPhone (pb_phone req)) as [formattedPhone|];
    [| left; apply only_creates_refl].
  destruct (pb_amount req) as [amt|]; [| left; apply only_creates_refl].
  destruct ((amt =? 0)%Z || (amt <? 100)%Z) eqn:Hamt;
    [left; apply only_creates_refl |].
  pose proof (getOrCreateUser_only_creates now formattedPhone s) as Hcreate.
  unfold Enhanced.getOrCreateUser in *.
  destruct (Enhanced.users s !! formattedPhone) as [u|] eqn:Hu; simpl in *;
    [| by left].
  destruct (Enhanced.has_paid_fee u) eqn:Hfee; simpl;
    [| left; apply only_creates_refl].
  destruct (Z.ltb_spec (Enhanced.balance u) amt); simpl;
    [left; apply only_creates_refl |].
  unfold Enhanced.createTransaction, Enhanced.updateUserBalance. simpl.
  destruct (Enhanced.fits_numeric amt); simpl;
    [| left; apply only_creates_refl].
  destruct (Enhanced.find_transaction _ _); simpl;
    [left; apply only_creates_refl |].
  rewrite Hu. simpl.
  destruct (Enhanced.fits_numeric _); simpl;
    [| left; by apply same_users_only_creates].
  right. exists formattedPhone, u, amt.
  repeat split; try done; [lia | by rewrite Hfee].
Qed.

Lemma handle_row_step (s : Enhanced.db) (e : Enhanced.event) phone v :
  Enhanced.users (Enhanced.handle s e) !! phone = Some v →
  Enhanced.row_step (Enhanced.users s !! phone) v.
Proof.
  revert phone v.
  assert (∀ s', Enhanced.only_creates s s' →
            ∀ phone v, Enhanced.users s' !! phone = Some v →
                       Enhanced.row_step (Enhanced.users s !! phone) v)
    as Hcreates.
  { intros s' [_ Hnew] phone v Hv.
    destruct (Hnew _ _ Hv) as [->|[-> [now ->]]]; constructor. }
  destruct e; simpl.
  - apply Hcreates, get_balance_only_creates.
  - apply Hcreates, get_transactions_only_creates.
  - destruct (withdraw_users now req s)
      as [Honly|(phone & u & amt & Hu & Hfee & Hmin & Hmax & ->)];
      [by apply Hcreates |].
    intros q v. apply insert_row_step. rewrite Hu. constructor.
  - apply Hcreates, pay_only_creates.
  - destruct (poll_tick_users now p gw s) as [->|(u & Hu & [->| ->])].
    + intros q v. apply same_row_step.
    + intros q v. apply insert_row_step. rewrite Hu. constructor.
    + intros q v. apply insert_row_step. rewrite Hu. constructor.
  - intros q v. apply same_row_step.
  - rewrite get_receipt_unchanged. intros q v. apply same_row_step.
Qed.

Lemma row_step_kept_paid (old : option Enhanced.user) v u :
  Enhanced.row_step old v → old = Some u →
  Enhanced.has_paid_fee u = true → Enhanced.has_paid_fee v = true.
Proof. intros Hstep Hold Hpaid. destruct Hstep; by simplify_eq. Qed.

Lemma row_step_unpaid (old : option Enhanced.user) v :
  Enhanced.row_step old v →
  (∀ u, old = Some u → Enhanced.has_paid_fee u = false → Enhanced.balance u = 0%Z) →
  Enhanced.has_paid_fee v = false → Enhanced.balance v = 0%Z.
Proof. intros Hstep Hold Hunpaid. destruct Hstep; simpl in *; eauto; done. Qed.

(** X4: a user who has not paid the fee holds nothing, and this stays
    true whatever requests, poll ticks and webhooks arrive: money only
    reaches a balance together with the fee-paid flag. *)
Theorem unpaid_users_hold_nothing (s : Enhanced.db) (events : list Enhanced.event) :
  Enhanced.unpaid_hold_nothing s →
  Enhanced.unpaid_hold_nothing (Enhanced.run s events).
Proof.
  revert s. induction events as [|e events IH]; intros s Hinv; [done |].
  simpl. apply IH. intros phone v Hv Hunpaid.
  apply (row_step_unpaid _ _ (handle_row_step s e _ _ Hv)); [| done].
  intros u Hu Hf. by apply (Hinv phone u).
Qed.

Lemma unpaid_users_hold_nothing_witness :
  Enhanced.unpaid_hold_nothing
    (Enhanced.run Scenario.empty_db
       [Enhanced.Pay 1000 1000 Scenario.alice (Scenario.gateway_accepts "TXA");
        Enhanced.Tick 16000 Scenario.alice_poll
          (GwReply (Scenario.status_answer "completed"));
        Enhanced.Withdraw 17000 Scenario.withdraw_500]).
Proof.
  apply (unpaid_users_hold_nothing Scenario.empty_db).
  intros phone u Hu. vm_compute in Hu. discriminate Hu.
Defined.

(** X5: once a user has paid the fee the flag is never cleared, and the
    user is never removed, whatever happens afterwards. *)
Theorem fee_paid_is_permanent (s : Enhanced.db) (events : list Enhanced.event) :
  Enhanced.fee_paid_persists s (Enhanced.run s events).
Proof.
  revert s. induction events as [|e events IH]; intros s phone u Hu Hpaid.
  { eauto. }
  simpl.
  destruct (handle_grows s e) as [Hkeep _].
  destruct (Hkeep phone) as [v Hv]; [by rewrite Hu |].
  apply (IH _ phone v Hv).
  eapply row_step_kept_paid; [by apply (handle_row_step s e) | exact Hu | done].
Qed.

Lemma fee_paid_is_permanent_witness :
  ∃ u', Enhanced.users
          (Enhanced.run Scenario.paid_db
             [Enhanced.Withdraw 17000 Scenario.withdraw_500;
              Enhanced.GetBalance 18000 "0712345678"])
          !! Scenario.alice_phone = Some u'
        ∧ Enhanced.has_paid_fee u' = true.
Proof.
  apply (fee_paid_is_permanent Scenario.paid_db _ Scenario.alice_phone
           Scenario.paid_user); by vm_compute.
Defined.

(** X6: a request that is neither a withdrawal nor a poll tick never
    changes the row of an existing user: initiating a payment, reading
    a balance, a transaction list or a receipt, and a webhook leave
    every balance and fee flag as they were. *)
Theorem only_ticks_and_withdrawals_move_money (s : Enhanced.db) (e : Enhanced.event) :
  Enhanced.moves_money e = false →
  Enhanced.users_kept s (Enhanced.handle s e).
Proof.
  destruct e; simpl; try done; intros _.
  - apply get_balance_only_creates.
  - apply get_transactions_only_creates.
  - apply pay_only_creates.
  - by intros phone u.
  - rewrite get_receipt_unchanged. by intros phone u.
Qed.

Lemma only_ticks_and_withdrawals_move_money_witness :
  Enhanced.users_kept Scenario.paid_db
    (Enhanced.handle Scenario.paid_db
       (Enhanced.Pay 1000 1000 Scenario.alice (Scenario.gateway_accepts "TXA"))).
Proof.
  apply (only_ticks_and_withdrawals_move_money Scenario.paid_db). reflexivity.
Defined.

(** *** Transaction rows *)

Lemma same_record_refl t : Enhanced.same_record t t.
Proof. by repeat split. Qed.

Lemma same_record_trans t1 t2 t3 :
  Enhanced.same_record t1 t2 → Enhanced.same_record t2 t3 →
  Enhanced.same_record t1 t3.
Proof.
  unfold Enhanced.same_record. intros (?&?&?&?&?&?&?) (?&?&?&?&?&?&?).
  repeat split; congruence.
Qed.

Lemma same_record_set_status now ref st t :
  Enhanced.same_record t (Enhanced.set_status now ref st t).
Proof.
  unfold Enhanced.set_status.
  destruct (String.eqb _ _); by repeat split.
Qed.

Lemma records_kept_refl s : Enhanced.records_kept s s.
Proof. intros i t Ht. exists t. split; [done | apply same_record_refl]. Qed.

Lemma records_kept_trans s1 s2 s3 :
  Enhanced.records_kept s1 s2 → Enhanced.records_kept s2 s3 →
  Enhanced.records_kept s1 s3.
Proof.
  intros H12 H23 i t Ht.
  destruct (H12 _ _ Ht) as (t2 & Ht2 & Hsame2).
  destruct (H23 _ _ Ht2) as (t3 & Ht3 & Hsame3).
  exists t3. split; [done |]. by eapply same_record_trans.
Qed.

Lemma same_transactions_records_kept s s' :
  Enhanced.transactions s' = Enhanced.transactions s →
  Enhanced.records_kept s s'.
Proof.
  intros Heq i t Ht. exists t. rewrite Heq.
  split; [done | apply same_record_refl].
Qed.

Lemma getOrCreateUser_records_kept now phone :
  Enhanced.preserves Enhanced.records_kept (Enhanced.getOrCreateUser now phone).
Proof.
  intros s. apply same_transactions_records_kept.
  apply getOrCreateUser_transactions.
Qed.

Lemma updateUserBalance_records_kept now phone amt op :
  Enhanced.preserves Enhanced.records_kept
    (Enhanced.updateUserBalance now phone amt op).
Proof.
  intros s. apply same_transactions_records_kept.
  unfold Enhanced.updateUserBalance. destruct (_ !! phone); [| done].
  by destruct (Enhanced.fits_numeric _).
Qed.

Lemma markUserFeePaid_records_kept now phone :
  Enhanced.preserves Enhanced.records_kept (Enhanced.markUserFeePaid now phone).
Proof.
  intros s. apply same_transactions_records_kept.
  unfold Enhanced.markUserFeePaid. by destruct (_ !! phone).
Qed.

Lemma createTransaction_records_kept now data :
  Enhanced.preserves Enhanced.records_kept (Enhanced.createTransaction now data).
Proof.
  intros s. unfold Enhanced.createTransaction.
  destruct (Enhanced.d_amount data); [| apply records_kept_refl].
  destruct (Enhanced.fits_numeric _); simpl; [| apply records_kept_refl].
  destruct (Enhanced.find_transaction _ _); [apply records_kept_refl |].
  intros i t Ht. exists t. simpl.
  split; [by apply lookup_app_l_Some | apply same_record_refl].
Qed.

Lemma updateTransaction_records_kept now ref st :
  Enhanced.preserves Enhanced.records_kept
    (Enhanced.updateTransaction now ref st).
Proof.
  intros s i t Ht. unfold Enhanced.updateTransaction. simpl.
  exists (Enhanced.set_status now ref st t).
  split; [by rewrite list_lookup_fmap, Ht | apply same_record_set_status].
Qed.

Lemma getUserTransactions_records_kept phone limit :
  Enhanced.preserves Enhanced.records_kept
    (Enhanced.getUserTransactions phone limit).
Proof. intros s. apply records_kept_refl. Qed.

Ltac records_kept_tac :=
  preserves_tac records_kept_refl records_kept_trans
    ltac:(first [ apply getOrCreateUser_records_kept
                | apply updateUserBalance_records_kept
                | apply markUserFeePaid_records_kept
                | apply createTransaction_records_kept
                | apply updateTransaction_records_kept
                | apply getUserTransactions_records_kept ]).

Lemma handle_records_kept s e : Enhanced.records_kept s (Enhanced.handle s e).
Proof.
  destruct e; simpl.
  - revert s. change (Enhanced.preserves Enhanced.records_kept
                        (Enhanced.get_balance now phone_param)).
    unfold Enhanced.get_balance. records_kept_tac.
  - revert s. change (Enhanced.preserves Enhanced.records_kept
                        (Enhanced.get_transactions phone_param)).
    unfold Enhanced.get_transactions. records_kept_tac.
  - revert s. change (Enhanced.preserves Enhanced.records_kept
                        (Enhanced.withdraw now req)).
    unfold Enhanced.withdraw. records_kept_tac.
  - revert s. change (Enhanced.preserves Enhanced.records_kept
                        (Enhanced.pay now now_err req gw)).
    unfold Enhanced.pay, Enhanced.pay_try, Enhanced.pay_catch. records_kept_tac.
  - revert s. change (Enhanced.preserves Enhanced.records_kept
                        (Enhanced.poll_tick now p gw)).
    unfold Enhanced.poll_tick. records_kept_tac.
  - apply records_kept_refl.
  - rewrite get_receipt_unchanged. apply records_kept_refl.
Qed.

(** X8: a stored transaction is never deleted or moved, and only its
    status and update stamp ever change: reference, user, type, amount,
    description, metadata and creation stamp are fixed at creation,
    whatever events follow. *)
Theorem transactions_are_append_only (s : Enhanced.db)
    (events : list Enhanced.event) (i : nat) (t : Enhanced.transaction) :
  Enhanced.transactions s !! i = Some t →
  ∃ t', Enhanced.transactions (Enhanced.run s events) !! i = Some t'
        ∧ Enhanced.same_record t t'.
Proof.
  revert s t. induction events as [|e events IH]; intros s t Ht; simpl.
  - exists t. split; [done | apply same_record_refl].
  - destruct (handle_records_kept s e i t Ht) as (t1 & Ht1 & Hsame1).
    destruct (IH _ _ Ht1) as (t2 & Ht2 & Hsame2).
    exists t2. split; [done |]. by eapply same_record_trans.
Qed.

Lemma transactions_are_append_only_witness :
  ∃ t', Enhanced.transactions
          (Enhanced.run Scenario.after_alice
             [Enhanced.Tick 16000 Scenario.alice_poll
                (GwReply (Scenario.status_answer "completed"))])
          !! 0%nat = Some t'
        ∧ Enhanced.same_record
            (Enhanced.mkTransaction "ORDER-1000" Scenario.alice_phone
               "service_fee" 200 "pending"
               "Service fee payment for loan of KES undefined"
               (JObj [("transaction_id", JStr "TXA");
                      ("loan_amount", JStr "50000")]) 1000 1000) t'.
Proof.
  apply (transactions_are_append_only Scenario.after_alice).
  vm_compute. reflexivity.
Defined.

(** *** Distinct references *)

Lemma distinct_kept_refl s : Enhanced.distinct_kept s s.
Proof. by intros H. Qed.

Lemma distinct_kept_trans s1 s2 s3 :
  Enhanced.distinct_kept s1 s2 → Enhanced.distinct_kept s2 s3 →
  Enhanced.distinct_kept s1 s3.
Proof. unfold Enhanced.distinct_kept. auto. Qed.

Lemma same_references_distinct_kept s s' :
  Enhanced.references s' = Enhanced.references s →
  Enhanced.distinct_kept s s'.
Proof. intros Heq. unfold Enhanced.distinct_kept. by rewrite Heq. Qed.

Lemma getOrCreateUser_distinct_kept now phone :
  Enhanced.preserves Enhanced.distinct_kept (Enhanced.getOrCreateUser now phone).
Proof.
  intros s. apply same_references_distinct_kept. unfold Enhanced.references.
  by rewrite getOrCreateUser_transactions.
Qed.

Lemma updateUserBalance_distinct_kept now phone amt op :
  Enhanced.preserves Enhanced.distinct_kept
    (Enhanced.updateUserBalance now phone amt op).
Proof.
  intros s. apply same_references_distinct_kept.
  unfold Enhanced.updateUserBalance. destruct (_ !! phone); [| done].
  by destruct (Enhanced.fits_numeric _).
Qed.

Lemma markUserFeePaid_distinct_kept now phone :
  Enhanced.preserves Enhanced.distinct_kept (Enhanced.markUserFeePaid now phone).
Proof.
  intros s. apply same_references_distinct_kept.
  unfold Enhanced.markUserFeePaid. by destruct (_ !! phone).
Qed.

Lemma createTransaction_distinct_kept now data :
  Enhanced.preserves Enhanced.distinct_kept (Enhanced.createTransaction now data).
Proof.
  intros s. unfold Enhanced.createTransaction.
  destruct (Enhanced.d_amount data); [| apply distinct_kept_refl].
  destruct (Enhanced.fits_numeric _); simpl; [| apply distinct_kept_refl].
  destruct (Enhanced.find_transaction _ _) eqn:Hfind; [apply distinct_kept_refl |].
  apply find_transaction_None in Hfind.
  intros Hnodup. unfold Enhanced.references in *. simpl.
  rewrite fmap_app. apply NoDup_app. split; [done |].
  split; [| apply NoDup_singleton].
  intros ref Hin. simpl. rewrite list_elem_of_singleton. by intros ->.
Qed.

Lemma updateTransaction_distinct_kept now ref st :
  Enhanced.preserves Enhanced.distinct_kept
    (Enhanced.updateTransaction now ref st).
Proof.
  intros s. apply same_references_distinct_kept.
  unfold Enhanced.references, Enhanced.updateTransaction. simpl.
  apply references_set_status.
Qed.

Lemma getUserTransactions_distinct_kept phone limit :
  Enhanced.preserves Enhanced.distinct_kept
    (Enhanced.getUserTransactions phone limit).
Proof. intros s. apply distinct_kept_refl. Qed.

Ltac distinct_kept_tac :=
  preserves_tac distinct_kept_refl distinct_kept_trans
    ltac:(first [ apply getOrCreateUser_distinct_kept
                | apply updateUserBalance_distinct_kept
                | apply markUserFeePaid_distinct_kept
                | apply createTransaction_distinct_kept
                | apply updateTransaction_distinct_kept
                | apply getUserTransactions_distinct_kept ]).

Lemma handle_distinct_kept s e : Enhanced.distinct_kept s (Enhanced.handle s e).
Proof.
  destruct e; simpl.
  - revert s. change (Enhanced.preserves Enhanced.distinct_kept
                        (Enhanced.get_balance now phone_param)).
    unfold Enhanced.get_balance. distinct_kept_tac.
  - revert s. change (Enhanced.preserves Enhanced.distinct_kept
                        (Enhanced.get_transactions phone_param)).
    unfold Enhanced.get_transactions. distinct_kept_tac.
  - revert s. change (Enhanced.preserves Enhanced.distinct_kept
                        (Enhanced.withdraw now req)).
    unfold Enhanced.withdraw. distinct_kept_tac.
  - revert s. change (Enhanced.preserves Enhanced.distinct_kept
                        (Enhanced.pay now now_err req gw)).
    unfold Enhanced.pay, Enhanced.pay_try, Enhanced.pay_catch. distinct_kept_tac.
  - revert s. change (Enhanced.preserves Enhanced.distinct_kept
                        (Enhanced.poll_tick now p gw)).
    unfold Enhanced.poll_tick. distinct_kept_tac.
  - apply distinct_kept_refl.
  - rewrite get_receipt_unchanged. apply distinct_kept_refl.
Qed.

(** X9: no two stored transactions ever share a reference: if the
    references are pairwise distinct they stay so through any events
    (an insert under a taken reference is refused), so a receipt lookup
    by reference is never ambiguous. *)
Theorem references_stay_distinct (s : Enhanced.db) (events : list Enhanced.event) :
  NoDup (Enhanced.references s) →
  NoDup (Enhanced.references (Enhanced.run s events)).
Proof.
  revert s. induction events as [|e events IH]; intros s Hnodup; [done |].
  simpl. by apply IH, handle_distinct_kept.
Qed.

Lemma references_stay_distinct_witness :
  NoDup (Enhanced.references
           (Enhanced.run Scenario.empty_db
              [Enhanced.Pay 1000 1000 Scenario.alice (Scenario.gateway_accepts "TXA");
               Enhanced.Pay 1000 1000 Scenario.bob (Scenario.gateway_accepts "TXB")])).
Proof.
  apply (references_stay_distinct Scenario.empty_db). apply NoDup_nil_2.
Defined.

(** *** Listing, updating and inserting transactions *)

#[local] Instance newer_first_total : Total Enhanced.newer_first.
Proof. intros a b. unfold Enhanced.newer_first. lia. Qed.

#[local] Instance newer_first_trans : Transitive Enhanced.newer_first.
Proof. intros a b c. unfold Enhanced.newer_first. lia. Qed.

(** X10: the page of transactions read for a phone has at most [limit]
    rows, every row is a stored transaction of that phone, the rows are
    ordered newest first, and when the phone has no more than [limit]
    transactions the page holds them all. The store is not changed. *)
Theorem getUserTransactions_page (phone : string) (limit : nat) (s : Enhanced.db) :
  ∃ page,
    Enhanced.getUserTransactions phone limit s = (Enhanced.Returned page, s)
    ∧ (length page ≤ limit)%nat
    ∧ StronglySorted Enhanced.newer_first page
    ∧ (∀ t, t ∈ page → t ∈ Enhanced.transactions s ∧ Enhanced.user_phone t = phone)
    ∧ ((length (List.filter (λ t, String.eqb (Enhanced.user_phone t) phone)
                  (Enhanced.transactions s)) ≤ limit)%nat →
       ∀ t, t ∈ Enhanced.transactions s → Enhanced.user_phone t = phone →
            t ∈ page).
Proof.
  eexists. split; [reflexivity |].
  set (mine := List.filter _ (Enhanced.transactions s)).
  set (sorted := merge_sort Enhanced.newer_first mine).
  assert (sorted ≡ₚ mine) as Hperm by apply merge_sort_Permutation.
  assert (∀ t, t ∈ mine ↔ t ∈ Enhanced.transactions s ∧ Enhanced.user_phone t = phone)
    as Hmine.
  { intros t. unfold mine. rewrite !list_elem_of_In, List.filter_In.
    rewrite String.eqb_eq. tauto. }
  split; [rewrite length_take; lia |].
  split.
  { apply (StronglySorted_app_1_l _ _ (drop limit sorted)).
    rewrite take_drop. apply StronglySorted_merge_sort; apply _. }
  split.
  - intros t Hin. apply Hmine. rewrite <- Hperm.
    by apply (subseteq_take limit sorted).
  - intros Hfits t Hin Hphone.
    rewrite take_ge; [rewrite Hperm; by apply Hmine |].
    by rewrite Hperm.
Qed.

Lemma set_status_other now ref st (txs : list Enhanced.transaction) :
  Enhanced.find_transaction ref txs = None →
  Enhanced.set_status now ref st <$> txs = txs.
Proof.
  intros Hnone%find_transaction_None.
  induction txs as [|t txs IH]; [done |].
  rewrite fmap_cons in *. apply not_elem_of_cons in Hnone as [Hne Hnone].
  rewrite IH by done. f_equal. unfold Enhanced.set_status.
  destruct (String.eqb_spec (Enhanced.reference t) ref); [congruence | done].
Qed.

(** X11: updating the status of a reference that is not stored is not
    an error: it returns no row and leaves the store as it was. For a
    stored reference it returns the row with the new status and update
    stamp, and a lookup of any other reference gives what it gave
    before. *)
Theorem updateTransaction_effect (now : Z) (ref st : string) (s : Enhanced.db) :
  (Enhanced.find_transaction ref (Enhanced.transactions s) = None →
   Enhanced.updateTransaction now ref st s = (Enhanced.Returned None, s))
  ∧ (∀ t, Enhanced.find_transaction ref (Enhanced.transactions s) = Some t →
       (Enhanced.updateTransaction now ref st s).1
       = Enhanced.Returned
           (Some (Enhanced.mkTransaction (Enhanced.reference t)
                    (Enhanced.user_phone t) (Enhanced.type t) (Enhanced.amount t)
                    st (Enhanced.description t) (Enhanced.metadata t)
                    (Enhanced.created_at t) now)))
  ∧ (∀ other, other ≠ ref →
       Enhanced.find_transaction other
         (Enhanced.transactions (Enhanced.updateTransaction now ref st s).2)
       = Enhanced.find_transaction other (Enhanced.transactions s))
  ∧ Enhanced.users (Enhanced.updateTransaction now ref st s).2 = Enhanced.users s.
Proof.
  unfold Enhanced.updateTransaction. simpl. repeat split.
  - intros Hnone. rewrite find_transaction_set_status, Hnone.
    rewrite set_status_other by done. by destruct s.
  - intros t Ht. rewrite find_transaction_set_status, Ht. simpl.
    apply find_transaction_Some in Ht as [_ Href].
    unfold Enhanced.set_status. by rewrite Href, String.eqb_refl.
  - intros other Hne. rewrite find_transaction_set_status.
    destruct (Enhanced.find_transaction other _) as [t|] eqn:Ht; [| done].
    apply find_transaction_Some in Ht as [_ Href]. simpl.
    unfold Enhanced.set_status.
    destruct (String.eqb_spec (Enhanced.reference t) ref); [congruence | done].
Qed.

Lemma updateTransaction_effect_witness :
  Enhanced.updateTransaction 2000 "ORDER-9" "completed" Scenario.after_alice
  = (Enhanced.Returned None, Scenario.after_alice).
Proof.
  apply (proj1 (updateTransaction_effect 2000 "ORDER-9" "completed"
                  Scenario.after_alice)).
  by vm_compute.
Defined.

(** X12: a transaction inserted under a free reference, with an
    amount that fits DECIMAL(15, 2), is what a lookup of that
    reference, and the receipt endpoint, give back right after, and
    lookups of other references are not affected; under a taken
    reference, with a null amount or with an amount of 10^13 or more
    in absolute value, the insert throws and the store is as before. *)
Theorem createTransaction_round_trip (now : Z) (data : Enhanced.tx_data)
    (s : Enhanced.db) :
  (∀ amt,
     Enhanced.d_amount data = Some amt →
     (Z.abs amt < 10 ^ 13)%Z →
     Enhanced.find_transaction (Enhanced.d_reference data) (Enhanced.transactions s)
       = None →
     ∃ t s' r,
       Enhanced.createTransaction now data s = (Enhanced.Returned t, s')
       ∧ Enhanced.find_transaction (Enhanced.d_reference data)
           (Enhanced.transactions s') = Some t
       ∧ Enhanced.amount t = amt
       ∧ Enhanced.status t = Enhanced.d_status data
       ∧ Enhanced.get_receipt (Enhanced.d_reference data) s'
         = (Enhanced.Returned r, s')
       ∧ http_status r = 200%nat
       ∧ get_prop (get_prop (body r) "receipt") "amount" = JNum amt
       ∧ get_prop (get_prop (body r) "receipt") "status"
         = JStr (Enhanced.d_status data)
       ∧ (∀ other, other ≠ Enhanced.d_reference data →
            Enhanced.find_transaction other (Enhanced.transactions s')
            = Enhanced.find_transaction other (Enhanced.transactions s)))
  ∧ (is_Some (Enhanced.find_transaction (Enhanced.d_reference data)
                (Enhanced.transactions s))
     ∨ Enhanced.d_amount data = None
     ∨ (∃ amt, Enhanced.d_amount data = Some amt ∧ (10 ^ 13 ≤ Z.abs amt)%Z) →
     ∃ err, Enhanced.createTransaction now data s = (Enhanced.Thrown err, s)).
Proof.
  split.
  - intros amt Hamt Hfits Hfree. unfold Enhanced.createTransaction.
    rewrite Hamt, Hfree.
    replace (Enhanced.fits_numeric amt) with true
      by (unfold Enhanced.fits_numeric, Enhanced.numeric_limit; lia).
    cbn [negb].
    set (t := Enhanced.mkTransaction _ _ _ _ _ _ _ _ _).
    assert (Enhanced.find_transaction (Enhanced.d_reference data)
              (Enhanced.transactions s ++ [t])%list = Some t) as Hfound.
    { rewrite find_transaction_app, Hfree. unfold Enhanced.find_transaction.
      simpl. by rewrite String.eqb_refl. }
    eexists t, _, _. split; [reflexivity |]. simpl.
    split; [done |]. split; [done |]. split; [done |].
    split; [unfold Enhanced.get_receipt, Enhanced.try_catch; simpl;
            rewrite Hfound; reflexivity |].
    split; [done |]. split; [done |]. split; [done |].
    intros other Hne. rewrite find_transaction_app.
    destruct (Enhanced.find_transaction other _); [done |].
    unfold Enhanced.find_transaction. simpl.
    destruct (String.eqb_spec (Enhanced.d_reference data) other); [congruence | done].
  - unfold Enhanced.createTransaction. intros [[t Ht]|[Hnull|(amt & Hamt & Hbig)]].
    + rewrite Ht. destruct (Enhanced.d_amount data); [| eauto].
      destruct (Enhanced.fits_numeric _); simpl; eauto.
    + rewrite Hnull. eauto.
    + rewrite Hamt.
      replace (Enhanced.fits_numeric amt) with false
        by (unfold Enhanced.fits_numeric, Enhanced.numeric_limit; lia).
      simpl. eauto.
Qed.

Lemma createTransaction_round_trip_witness :
  ∃ err,
    Enhanced.createTransaction 2000
      (Enhanced.mkTxData "ORDER-1000" Scenario.alice_phone "service_fee"
         (Some 200%Z) "pending" "again" (JObj []))
      Scenario.after_alice
    = (Enhanced.Thrown err, Scenario.after_alice).
Proof.
  apply (proj2 (createTransaction_round_trip 2000 _ Scenario.after_alice)).
  left. eexists. vm_compute. reflexivity.
Defined.

(** ** Withdrawals *)

(** X13: a withdrawal of 100 or more by a user who has paid the fee and
    holds at least that much (the stored balance being a value of its
    column, below 10^13), under a free reference WD-<clock>, is
    answered 200 with the new balance, debits exactly the amount (a
    withdrawal of the whole balance leaves 0), and records one
    processing withdrawal transaction for that phone and amount. *)
Theorem withdraw_debits (now : Z) (req : pay_body) (s : Enhanced.db)
    (phone : string) (amt : Z) (u : Enhanced.user) :
  formatPhone (pb_phone req) = Some phone →
  pb_amount req = Some amt →
  (100 ≤ amt)%Z →
  Enhanced.users s !! phone = Some u →
  Enhanced.has_paid_fee u = true →
  (amt ≤ Enhanced.balance u)%Z →
  (Enhanced.balance u < 10 ^ 13)%Z →
  Enhanced.find_transaction ("WD-" +:+ dec_of_Z now) (Enhanced.transactions s)
    = None →
  ∃ resp s' t,
    Enhanced.withdraw now req s = (Enhanced.Returned resp, s')
    ∧ http_status resp = 200%nat
    ∧ get_prop (body resp) "reference" = JStr ("WD-" +:+ dec_of_Z now)
    ∧ get_prop (body resp) "new_balance" = JNum (Enhanced.balance u - amt)
    ∧ Enhanced.balance_of phone s' = Some (Enhanced.balance u - amt)%Z
    ∧ (amt = Enhanced.balance u → Enhanced.balance_of phone s' = Some 0%Z)
    ∧ Enhanced.transactions s' = (Enhanced.transactions s ++ [t])%list
    ∧ Enhanced.reference t = "WD-" +:+ dec_of_Z now
    ∧ Enhanced.user_phone t = phone
    ∧ Enhanced.type t = "withdrawal"
    ∧ Enhanced.amount t = amt
    ∧ Enhanced.status t = "processing".
Proof.
  intros Hphone Hamt Hmin Hu Hfee Hmax Hfits Hfree.
  unfold Enhanced.withdraw, Enhanced.try_catch. rewrite Hphone, Hamt.
  replace ((amt =? 0)%Z || (amt <? 100)%Z) with false by lia.
  unfold Enhanced.bind, Enhanced.getOrCreateUser. rewrite Hu. simpl.
  rewrite Hfee. simpl.
  replace (Enhanced.balance u <? amt)%Z with false by lia.
  unfold Enhanced.createTransaction, Enhanced.updateUserBalance. simpl.
  replace (Enhanced.fits_numeric amt) with true
    by (unfold Enhanced.fits_numeric, Enhanced.numeric_limit; lia).
  simpl. rewrite Hfree. simpl. rewrite Hu. simpl.
  replace (Enhanced.fits_numeric (Enhanced.balance u - amt)) with true
    by (unfold Enhanced.fits_numeric, Enhanced.numeric_limit; lia).
  eexists _, _, _. split; [reflexivity |]. simpl.
  unfold Enhanced.balance_of. simpl. rewrite lookup_insert_eq. simpl.
  repeat split; try done. intros ->. f_equal. lia.
Qed.

Lemma withdraw_debits_witness :
  ∃ resp s' t,
    Enhanced.withdraw 17000 Scenario.withdraw_500 Scenario.paid_db
    = (Enhanced.Returned resp, s')
    ∧ http_status resp = 200%nat
    ∧ get_prop (body resp) "reference" = JStr ("WD-" +:+ dec_of_Z 17000)
    ∧ get_prop (body resp) "new_balance" = JNum (500 - 500)
    ∧ Enhanced.balance_of Scenario.alice_phone s' = Some (500 - 500)%Z
    ∧ (500%Z = 500%Z → Enhanced.balance_of Scenario.alice_phone s' = Some 0%Z)
    ∧ Enhanced.transactions s' = (Enhanced.transactions Scenario.paid_db ++ [t])%list
    ∧ Enhanced.reference t = "WD-" +:+ dec_of_Z 17000
    ∧ Enhanced.user_phone t = Scenario.alice_phone
    ∧ Enhanced.type t = "withdrawal"
    ∧ Enhanced.amount t = 500%Z
    ∧ Enhanced.status t = "processing".
Proof.
  apply (withdraw_debits 17000 Scenario.withdraw_500 Scenario.paid_db
           Scenario.alice_phone 500 Scenario.paid_user);
    first [by vm_compute | simpl; lia | reflexivity].
Defined.

(** X14: a withdrawal is all or nothing. It is always answered; on a
    store whose balances are values of their column, unless the answer
    is 200 it records no transaction and changes no existing user. In
    particular a user who holds less than the amount is answered 400,
    and a taken reference WD-<clock> makes the insert fail before the
    debit and is answered 500 with the balance as it was. *)
Theorem withdraw_all_or_nothing (now : Z) (req : pay_body) (s : Enhanced.db) :
  (∃ resp, (Enhanced.withdraw now req s).1 = Enhanced.Returned resp
           ∧ (Enhanced.balances_fit s →
              http_status resp ≠ 200%nat →
              Enhanced.transactions (Enhanced.withdraw now req s).2
              = Enhanced.transactions s
              ∧ Enhanced.users_kept s (Enhanced.withdraw now req s).2))
  ∧ (∀ phone amt u,
       formatPhone (pb_phone req) = Some phone →
       pb_amount req = Some amt → (100 ≤ amt)%Z →
       Enhanced.users s !! phone = Some u →
       Enhanced.has_paid_fee u = true →
       ((Enhanced.balance u < amt)%Z →
        Enhanced.withdraw now req s
        = (Enhanced.Returned
             (json 400 [("success", JBool false);
                        ("error", JStr "Insufficient balance")]), s))
       ∧ ((amt ≤ Enhanced.balance u)%Z →
          is_Some (Enhanced.find_transaction ("WD-" +:+ dec_of_Z now)
                     (Enhanced.transactions s)) →
          Enhanced.withdraw now req s
          = (Enhanced.Returned Enhanced.server_error, s))).
Proof.
  split.
  - unfold Enhanced.withdraw, Enhanced.try_catch, Enhanced.bind.
    destruct (formatPhone (pb_phone req)) as [phone|];
      [| eexists; split; [reflexivity | by intros _ _; split; [| intros ? ?]]].
    destruct (pb_amount req) as [amt|];
      [| eexists; split; [reflexivity | by intros _ _; split; [| intros ? ?]]].
    destruct (_ || _) eqn:Hamt;
      [eexists; split; [reflexivity | by intros _ _; split; [| intros ? ?]] |].
    pose proof (getOrCreateUser_only_creates now phone s) as [Hkept _].
    pose proof (getOrCreateUser_transactions now phone s) as Htxs.
    unfold Enhanced.getOrCreateUser in *.
    destruct (Enhanced.users s !! phone) as [u|] eqn:Hu; simpl in *;
      [| eexists; split; [reflexivity | by intros _ _] ].
    destruct (Enhanced.has_paid_fee u); simpl;
      [| eexists; split; [reflexivity | by intros _ _] ].
    destruct (Z.ltb_spec (Enhanced.balance u) amt) as [Hlt|Hle]; simpl;
      [eexists; split; [reflexivity | by intros _ _] |].
    unfold Enhanced.createTransaction, Enhanced.updateUserBalance. simpl.
    destruct (Enhanced.fits_numeric amt) eqn:Hfits; simpl;
      [| eexists; split; [reflexivity | by intros _ _] ].
    destruct (Enhanced.find_transaction _ _); simpl;
      [eexists; split; [reflexivity | by intros _ _] |].
    rewrite Hu. simpl.
    destruct (Enhanced.fits_numeric (Enhanced.balance u - amt)) eqn:Hnew; simpl;
      [eexists; split; [reflexivity | done] |].
    eexists; split; [reflexivity |]. intros Hinv _. exfalso.
    specialize (Hinv phone u Hu). revert Hinv Hnew.
    unfold Enhanced.fits_numeric, Enhanced.numeric_limit. lia.
  - intros phone amt u Hphone Hamt Hmin Hu Hfee.
    unfold Enhanced.withdraw, Enhanced.try_catch. rewrite Hphone, Hamt.
    replace ((amt =? 0)%Z || (amt <? 100)%Z) with false by lia.
    unfold Enhanced.bind, Enhanced.getOrCreateUser. rewrite Hu. simpl.
    rewrite Hfee. simpl. split.
    + intros Hlt. by replace (Enhanced.balance u <? amt)%Z with true by lia.
    + intros Hle [t Ht].
      replace (Enhanced.balance u <? amt)%Z with false by lia.
      unfold Enhanced.createTransaction. simpl. rewrite Ht.
      by destruct (Enhanced.fits_numeric amt).
Qed.

Lemma withdraw_all_or_nothing_witness :
  Enhanced.withdraw 17000
    (mkPayBody (JStr "0712345678") (Some 600%Z) None eq_refl) Scenario.paid_db
  = (Enhanced.Returned
       (json 400 [("success", JBool false);
                  ("error", JStr "Insufficient balance")]), Scenario.paid_db).
Proof.
  apply (proj2 (withdraw_all_or_nothing 17000 _ Scenario.paid_db)
           Scenario.alice_phone 600%Z Scenario.paid_user);
    first [by vm_compute | lia | reflexivity].
Defined.

(** ** More on the poll driver *)

(** X15: when the gateway says failed or cancelled, a poll tick marks
    the payment's transaction failed (also for cancelled), clears the
    timer, records no transaction and touches no user: there is no
    balance effect. *)
Theorem failure_tick (now : Z) (p : Enhanced.poll) (data : jsval)
    (s : Enhanced.db) :
  fails data →
  Enhanced.poll_tick now p (GwReply data) s
  = (Enhanced.Returned true,
     Enhanced.mkDb (Enhanced.users s)
       (Enhanced.set_status now (Enhanced.p_reference p) "failed"
          <$> Enhanced.transactions s))
  ∧ (∀ t, Enhanced.find_transaction (Enhanced.p_reference p)
            (Enhanced.transactions s) = Some t →
          Enhanced.status
            <$> Enhanced.find_transaction (Enhanced.p_reference p)
                  (Enhanced.transactions
                     (Enhanced.poll_tick now p (GwReply data) s).2)
          = Some "failed").
Proof.
  unfold fails, payStatus_of, payData_of. intros Hfails.
  assert (Enhanced.poll_tick now p (GwReply data) s
          = (Enhanced.Returned true,
             Enhanced.mkDb (Enhanced.users s)
               (Enhanced.set_status now (Enhanced.p_reference p) "failed"
                  <$> Enhanced.transactions s))) as Htick.
  { unfold Enhanced.poll_tick, Enhanced.try_catch, Enhanced.bind. simpl.
    destruct (lowered_status _) as [err|st]; [done |]. simpl.
    assert (String.eqb st "completed" || String.eqb st "processing" = false)
      as ->.
    { apply orb_prop in Hfails as [->%String.eqb_eq | ->%String.eqb_eq]; done. }
    by rewrite Hfails. }
  split; [done |].
  intros t Ht. rewrite Htick. simpl.
  rewrite find_transaction_set_status, Ht. simpl.
  apply find_transaction_Some in Ht as [_ Href].
  unfold Enhanced.set_status. by rewrite Href, String.eqb_refl.
Qed.

Lemma failure_tick_witness :
  Enhanced.poll_tick 16000 Scenario.alice_poll
    (GwReply (Scenario.status_answer "Cancelled")) Scenario.after_alice
  = (Enhanced.Returned true,
     Enhanced.mkDb (Enhanced.users Scenario.after_alice)
       (Enhanced.set_status 16000 "ORDER-1000" "failed"
          <$> Enhanced.transactions Scenario.after_alice)).
Proof.
  apply (failure_tick 16000 Scenario.alice_poll
           (Scenario.status_answer "Cancelled") Scenario.after_alice).
  by vm_compute.
Defined.

Lemma poll_tick_bad_status now p data err s :
  payStatus_of data = inl err →
  Enhanced.poll_tick now p (GwReply data) s = (Enhanced.Returned false, s).
Proof.
  unfold payStatus_of, payData_of. intros Hst.
  unfold Enhanced.poll_tick, Enhanced.try_catch, Enhanced.bind. simpl.
  by rewrite Hst.
Qed.

(** X16: a poll whose request fails (network error, timeout, error
    status), or whose answer carries a status that is not a string, is
    swallowed: in both variants the tick changes nothing and leaves
    the timer running, so the poll is tried again on the next tick. *)
Theorem poll_errors_are_swallowed (now : Z) :
  (∀ p err s,
     Enhanced.poll_tick now p (GwThrows err) s = (Enhanced.Returned false, s))
  ∧ (∀ p err (s : Legacy.receipts),
       Legacy.poll_tick now p (GwThrows err) s = (false, s))
  ∧ (∀ p data err s,
       payStatus_of data = inl err →
       Enhanced.poll_tick now p (GwReply data) s = (Enhanced.Returned false, s))
  ∧ (∀ p data err (s : Legacy.receipts),
       payStatus_of data = inl err →
       Legacy.poll_tick now p (GwReply data) s = (false, s)).
Proof.
  repeat split.
  - intros p data err s Hst. by apply (poll_tick_bad_status now p data err).
  - intros p data err s Hst. unfold payStatus_of, payData_of in Hst.
    unfold Legacy.poll_tick. simpl. by rewrite Hst.
Qed.

Lemma poll_errors_are_swallowed_witness :
  Enhanced.poll_tick 16000 Scenario.alice_poll
    (GwReply (JObj [("data", JObj [("status", JNum 7)])])) Scenario.after_alice
  = (Enhanced.Returned false, Scenario.after_alice).
Proof.
  apply (proj1 (proj2 (proj2 (poll_errors_are_swallowed 16000)))
           Scenario.alice_poll _
           (type_error "toLowerCase is not a function")).
  reflexivity.
Defined.

Lemma poll_tick_transactions now p gw s :
  let txs := Enhanced.transactions s in
  let txs' := Enhanced.transactions (Enhanced.poll_tick now p gw s).2 in
  txs' = txs
  ∨ (∃ st, txs' = Enhanced.set_status now (Enhanced.p_reference p) st <$> txs)
  ∨ (Enhanced.find_transaction ("LOAN-" +:+ dec_of_Z now) txs = None
     ∧ txs' = (Enhanced.set_status now (Enhanced.p_reference p) "completed" <$> txs)
              ++ [Enhanced.disbursement now p])%list.
Proof.
  intros txs txs'. subst txs txs'.
  destruct gw as [data|err]; [| by left].
  destruct (payStatus_of data) as [err|st] eqn:Hst.
  { left. by rewrite (poll_tick_bad_status now p data err s Hst). }
  destruct (String.eqb st "completed" || String.eqb st "processing") eqn:Hsettle.
  - assert (settles data) as Hs by (unfold settles; by rewrite Hst).
    destruct (Enhanced.users s !! Enhanced.p_phone p) as [u|] eqn:Hu.
    + destruct (Enhanced.fits_numeric
                  (Enhanced.balance u
                   + num_or (Enhanced.p_loan_amount p) 50000)) eqn:Hsum;
        [| right; left; exists "completed";
           by rewrite (poll_tick_overflows now p data s u)].
      destruct (Enhanced.fits_numeric (num_or (Enhanced.p_loan_amount p) 50000))
        eqn:Hloan;
        [| right; left; exists "completed";
           rewrite (poll_tick_collides now p data s u); auto].
      destruct (Enhanced.find_transaction ("LOAN-" +:+ dec_of_Z now)
                  (Enhanced.transactions s)) as [t|] eqn:Hfind.
      * right. left. exists "completed".
        rewrite (poll_tick_collides now p data s u); eauto.
      * right. right. split; [done |].
        by rewrite (poll_tick_settles now p data s u).
    + destruct (poll_tick_without_user now p data s Hs Hu)
        as (cleared & txs & -> & [->|[Hfree ->]]); simpl.
      * right. left. by exists "completed".
      * right. right. by split.
  - unfold Enhanced.poll_tick, Enhanced.try_catch, Enhanced.bind. simpl.
    unfold payStatus_of, payData_of in Hst. rewrite Hst. simpl.
    rewrite Hsettle. clear Hsettle. unfold Enhanced.updateTransaction.
    destruct (_ || _); simpl; [right; left; eauto | by left].
Qed.

(** X17: a poll tick acts on its own payment only. Whatever the gateway
    answers, the rows of all other users are as before, and so is every
    transaction other than the payment's own and the disbursement the
    tick may add under LOAN-<clock>. *)
Theorem poll_tick_frame (now : Z) (p : Enhanced.poll) (gw : gateway_reply)
    (s : Enhanced.db) :
  (∀ phone, phone ≠ Enhanced.p_phone p →
     Enhanced.users (Enhanced.poll_tick now p gw s).2 !! phone
     = Enhanced.users s !! phone)
  ∧ (∀ ref, ref ≠ Enhanced.p_reference p → ref ≠ "LOAN-" +:+ dec_of_Z now →
       Enhanced.find_transaction ref
         (Enhanced.transactions (Enhanced.poll_tick now p gw s).2)
       = Enhanced.find_transaction ref (Enhanced.transactions s)).
Proof.
  split.
  - intros phone Hne.
    destruct (poll_tick_users now p gw s) as [->|(u & _ & [->| ->])];
      [done | |]; by rewrite lookup_insert_ne.
  - intros ref Hne1 Hne2.
    assert (∀ st, Enhanced.find_transaction ref
                    (Enhanced.set_status now (Enhanced.p_reference p) st
                       <$> Enhanced.transactions s)
                  = Enhanced.find_transaction ref (Enhanced.transactions s))
      as Hset.
    { intros st. rewrite find_transaction_set_status.
      destruct (Enhanced.find_transaction ref _) as [t|] eqn:Ht; [| done].
      apply find_transaction_Some in Ht as [_ Href]. simpl.
      unfold Enhanced.set_status.
      destruct (String.eqb_spec (Enhanced.reference t) (Enhanced.p_reference p));
        [congruence | done]. }
    destruct (poll_tick_transactions now p gw s) as [->|[[st ->]|[_ ->]]];
      [done | apply Hset |].
    rewrite find_transaction_app, Hset.
    destruct (Enhanced.find_transaction ref _); [done |].
    unfold Enhanced.find_transaction, Enhanced.disbursement.
    cbn [List.find Enhanced.reference].
    destruct (String.eqb_spec ("LOAN-" +:+ dec_of_Z now) ref); [congruence | done].
Qed.

Lemma poll_tick_frame_witness :
  Enhanced.users
    (Enhanced.poll_tick 16000 Scenario.alice_poll
       (GwReply (Scenario.status_answer "completed")) Scenario.after_bob).2
    !! Scenario.bob_phone
  = Enhanced.users Scenario.after_bob !! Scenario.bob_phone.
Proof.
  apply (proj1 (poll_tick_frame 16000 Scenario.alice_poll
                  (GwReply (Scenario.status_answer "completed"))
                  Scenario.after_bob)).
  by vm_compute.
Defined.

(** ** More on payment initiation *)

(** X18: a payment request with a phone the normalizer rejects, or with
    an amount that is absent, zero or below 1, is answered 400 before
    anything happens: in both variants no user, transaction or receipt
    is written, no timer is started, and the gateway's answer plays no
    part. *)
Theorem pay_rejects_invalid_input (now now_err : Z) (req : pay_body)
    (gw : gateway_reply) :
  (formatPhone (pb_phone req) = None →
   (∀ s, Enhanced.pay now now_err req gw s
         = (Enhanced.Returned
              (json 400 [("success", JBool false);
                         ("error", JStr "Invalid phone format")], None), s))
   ∧ (∀ s : Legacy.receipts,
        Legacy.pay now now_err req gw s
        = (json 400 [("success", JBool false);
                     ("error", JStr "Invalid phone format")], None, s)))
  ∧ (is_Some (formatPhone (pb_phone req)) →
     match pb_amount req with
     | Some amt => (amt < 1)%Z
     | None => True
     end →
     (∀ s, Enhanced.pay now now_err req gw s
           = (Enhanced.Returned
                (json 400 [("success", JBool false);
                           ("error", JStr "Amount must be >= 1")], None), s))
     ∧ (∀ s : Legacy.receipts,
          Legacy.pay now now_err req gw s
          = (json 400 [("success", JBool false);
                       ("error", JStr "Amount must be >= 1")], None, s))).
Proof.
  split.
  - intros Hphone. split; intros s.
    + unfold Enhanced.pay, Enhanced.try_catch, Enhanced.pay_try.
      by rewrite Hphone.
    + unfold Legacy.pay. by rewrite Hphone.
  - intros [phone Hphone] Hamt. split; intros s.
    + unfold Enhanced.pay, Enhanced.try_catch, Enhanced.pay_try.
      rewrite Hphone. simpl. destruct (pb_amount req) as [amt|]; [| done].
      by replace ((amt =? 0)%Z || (amt <? 1)%Z) with true by lia.
    + unfold Legacy.pay. rewrite Hphone.
      destruct (pb_amount req) as [amt|]; [| done].
      by replace ((amt =? 0)%Z || (amt <? 1)%Z) with true by lia.
Qed.

Lemma pay_rejects_invalid_input_witness :
  Enhanced.pay 1000 1000 (mkPayBody (JStr "12345") (Some 200%Z) None eq_refl)
    (Scenario.gateway_accepts "TXA") Scenario.empty_db
  = (Enhanced.Returned
       (json 400 [("success", JBool false);
                  ("error", JStr "Invalid phone format")], None),
     Scenario.empty_db).
Proof.
  apply (proj1 (pay_rejects_invalid_input 1000 1000
                  (mkPayBody (JStr "12345") (Some 200%Z) None eq_refl)
                  (Scenario.gateway_accepts "TXA"))).
  reflexivity.
Defined.






(** ** The legacy variant: more on the receipts file *)

Lemma release_released parse now (r : Legacy.receipt) :
  Legacy.release parse now (Legacy.released r) = inr (Legacy.released r).
Proof.
  unfold Legacy.release, Legacy.field, Legacy.released.
  rewrite lookup_insert_ne by done. by rewrite lookup_insert_eq.
Qed.

(** What the loop body makes of a receipt it makes again. *)
Lemma release_twice parse now (r : Legacy.receipt) :
  match Legacy.release parse now r with
  | inr r' => Legacy.release parse now r' = inr r'
  | inl _ => True
  end.
Proof.
  destruct (release_result parse now r)
    as [[_ [err ->]]|[[_ ->]|(_ & _ & Hsame)]]; [done | |].
  - apply release_released.
  - by rewrite Hsame.
Qed.

Lemma cron_fold_inr parse now (refs : list string) (acc acc' : Legacy.receipts) :
  NoDup refs →
  foldl (Legacy.cron_step parse now) (inr acc) refs = inr acc' →
  ∀ ref,
    acc' !! ref
    = if decide (ref ∈ refs)
      then (λ r, match Legacy.release parse now r with
                 | inr r' => r'
                 | inl _ => r
                 end) <$> acc !! ref
      else acc !! ref.
Proof.
  intros Hnodup. revert acc.
  induction Hnodup as [|k refs Hk Hnodup IH]; intros acc Hfold ref.
  { simpl in Hfold. injection Hfold as <-.
    case_decide as Hin; [by apply elem_of_nil in Hin | done]. }
  cbn [foldl Legacy.cron_step] in Hfold.
  destruct (acc !! k) as [rk|] eqn:Hrk.
  - destruct (Legacy.release parse now rk) as [err|rk'] eqn:Hrel.
    { rewrite cron_fold_thrown in Hfold. discriminate Hfold. }
    rewrite (IH _ Hfold). destruct (decide (ref = k)) as [->|Hne].
    + rewrite (decide_False (P := k ∈ refs)) by done.
      rewrite (decide_True (P := k ∈ k :: refs)) by apply list_elem_of_here.
      rewrite lookup_insert_eq, Hrk. simpl. by rewrite Hrel.
    + rewrite lookup_insert_ne by done.
      destruct (decide (ref ∈ refs)) as [Hin|Hnin].
      * by rewrite (decide_True (P := ref ∈ k :: refs))
          by (by apply list_elem_of_further).
      * rewrite (decide_False (P := ref ∈ k :: refs)); [done |].
        rewrite elem_of_cons. by intros [|].
  - rewrite (IH _ Hfold). destruct (decide (ref = k)) as [->|Hne].
    + rewrite (decide_False (P := k ∈ refs)) by done.
      rewrite (decide_True (P := k ∈ k :: refs)) by apply list_elem_of_here.
      by rewrite Hrk.
    + destruct (decide (ref ∈ refs)) as [Hin|Hnin].
      * by rewrite (decide_True (P := ref ∈ k :: refs))
          by (by apply list_elem_of_further).
      * rewrite (decide_False (P := ref ∈ k :: refs)); [done |].
        rewrite elem_of_cons. by intros [|].
Qed.

(** The job writes nothing, or it has run its loop body on every
    receipt. *)
Lemma cron_job_cases parse now (s : Legacy.receipts) :
  Legacy.cron_job parse now s = s
  ∨ ∀ ref,
      Legacy.cron_job parse now s !! ref
      = (λ r, match Legacy.release parse now r with
              | inr r' => r'
              | inl _ => r
              end) <$> s !! ref.
Proof.
  unfold Legacy.cron_job.
  destruct (foldl _ _ _) as [err|s'] eqn:Hfold; [by left |]. right.
  intros ref.
  rewrite (cron_fold_inr parse now _ s s' (NoDup_fst_map_to_list s) Hfold).
  case_decide as Hin; [done |].
  destruct (s !! ref) as [r|] eqn:Hr; [| done].
  exfalso. apply Hin, keys_of_file. by rewrite Hr.
Qed.

(** X20: the loan-release job neither adds nor removes receipts, and
    running it again at once changes nothing. On a file in which no
    timestamp makes the job throw a release is final: a receipt the
    job has released is left alone by every later run. (On a file in
    which some timestamp makes it throw, the job releases nothing.) *)
Theorem cron_job_settles (parse : string → option Z) (now : Z)
    (s : Legacy.receipts) :
  dom (Legacy.cron_job parse now s) = dom s
  ∧ Legacy.cron_job parse now (Legacy.cron_job parse now s)
    = Legacy.cron_job parse now s
  ∧ ((∀ k r, s !! k = Some r → ¬ Legacy.jams r) →
     ∀ later ref r,
       s !! ref = Some r → Legacy.due parse now r →
       Legacy.cron_job parse later (Legacy.cron_job parse now s) !! ref
       = Some (Legacy.released r)).
Proof.
  split; [| split].
  - destruct (cron_job_cases parse now s) as [->|Hlookup]; [done |].
    apply set_eq. intros ref. rewrite !elem_of_dom, Hlookup.
    by rewrite fmap_is_Some.
  - destruct (cron_job_cases parse now s) as [Hsame|Hlookup].
    { by rewrite !Hsame. }
    destruct (cron_job_cases parse now (Legacy.cron_job parse now s))
      as [Hsame|Hagain]; [done |].
    apply map_eq. intros ref. rewrite Hagain, Hlookup.
    destruct (s !! ref) as [r|]; [| done]. simpl. f_equal.
    pose proof (release_twice parse now r) as Htwice.
    destruct (Legacy.release parse now r) as [err|r'] eqn:Hrel.
    + by rewrite Hrel.
    + by rewrite Htwice.
  - intros Hclear later ref r Hr Hdue.
    assert (Legacy.cron_job parse now s !! ref = Some (Legacy.released r))
      as Hreleased.
    { rewrite cron_job_lookup by done. rewrite Hr. simpl.
      by rewrite (release_due parse now r Hdue). }
    destruct (cron_job_cases parse later (Legacy.cron_job parse now s))
      as [->|Hlater]; [done |].
    rewrite Hlater, Hreleased. simpl. by rewrite release_released.
Qed.

Lemma cron_job_settles_witness :
  Legacy.cron_job Scenario.no_dates 90000000
    (Legacy.cron_job Scenario.no_dates 86400000
       {["ORDER-1" := Scenario.processing_receipt]})
    !! "ORDER-1"
  = Some (Legacy.released Scenario.processing_receipt).
Proof.
  refine (proj2 (proj2 (cron_job_settles Scenario.no_dates 86400000
                          {["ORDER-1" := Scenario.processing_receipt]}))
            _ 90000000%Z "ORDER-1" Scenario.processing_receipt _ _).
  - intros k r Hr [_ Hthrows].
    destruct (decide (k = "ORDER-1")) as [->|Hne].
    + vm_compute in Hr. injection Hr as <-. vm_compute in Hthrows. discriminate.
    + rewrite lookup_singleton_ne in Hr by done. discriminate.
  - vm_compute. reflexivity.
  - split; [vm_compute; reflexivity |].
    exists 0%Z. split; [vm_compute; reflexivity | lia].
Defined.

Lemma in_Object_prototype_false (key : string) :
  existsb (String.eqb key) Legacy.Object_prototype = false →
  key ∉ Legacy.Object_prototype.
Proof. intros Hnot Hin%in_Object_prototype. congruence. Qed.

(** X21: a webhook whose key names no receipt, its key and status
    being readable: when the key is not the name of a member of
    Object.prototype the webhook creates a receipt under that key
    holding a status, a note and a timestamp and nothing else (no
    amount, phone or reference field), which the receipt endpoint then
    serves; when the key is such a name (constructor, toString,
    __proto__, ...) the webhook is acknowledged and the file holds what
    it held, so that no receipt is created. *)
Theorem webhook_creates_receipt (now : Z) (data : jsval) (s : Legacy.receipts)
    (ref : jsval) (rest : list jsval) (key st : string) :
  Legacy.refCandidates data = ref :: rest →
  to_String ref = inr key →
  Legacy.webhook_status data = inr st →
  s !! key = None →
  (key ∉ Legacy.Object_prototype →
   ∃ r s',
     Legacy.callback now data s = (Legacy.ack, s')
     ∧ s' !! key = Some r
     ∧ dom r = {["status"; "status_note"; "timestamp"]}
     ∧ r !! "timestamp" = Some (JNum now)
     ∧ Legacy.get_receipt key s'
       = json 200 [("success", JBool true); ("receipt", Legacy.receipt_json r)])
  ∧ (key ∈ Legacy.Object_prototype →
     Legacy.callback now data s = (Legacy.ack, s)
     ∧ http_status (Legacy.get_receipt key s) = 200%nat).
Proof.
  intros Href Hkey Hst Hnone.
  destruct (webhook_writes now data s ref rest key st Href Hkey Hst)
    as (r & _ & Htime & Heffect & Hdom).
  split.
  - intros Hnin. rewrite receipt_at_Absent in Heffect, Hdom by done.
    exists r, (<[key := r]> s). unfold Legacy.callback. rewrite Heffect.
    split; [done |]. split; [apply lookup_insert_eq |].
    split; [by apply Hdom |]. split; [done |].
    unfold Legacy.get_receipt, Legacy.receipt_at. by rewrite lookup_insert_eq.
  - intros Hin. rewrite receipt_at_Member in Heffect by done.
    unfold Legacy.callback. rewrite Heffect. split; [done |].
    unfold Legacy.get_receipt. rewrite receipt_at_Member by done.
    by destruct (String.eqb key "__proto__").
Qed.

Lemma webhook_creates_receipt_witness :
  ∃ r s',
    Legacy.callback 2000 (Scenario.webhook_with_status "failed") ∅
    = (Legacy.ack, s')
    ∧ s' !! "ORDER-1000" = Some r
    ∧ dom r = {["status"; "status_note"; "timestamp"]}
    ∧ r !! "timestamp" = Some (JNum 2000)
    ∧ Legacy.get_receipt "ORDER-1000" s'
      = json 200 [("success", JBool true); ("receipt", Legacy.receipt_json r)].
Proof.
  apply (proj1 (webhook_creates_receipt 2000
                  (Scenario.webhook_with_status "failed")
                  ∅ (JStr "ORDER-1000") [] "ORDER-1000" "failed"
                  ltac:(vm_compute; reflexivity) ltac:(vm_compute; reflexivity)
                  ltac:(vm_compute; reflexivity) ltac:(reflexivity))).
  apply in_Object_prototype_false. vm_compute. reflexivity.
Defined.

(** X22: the webhook is acknowledged when its body names no reference,
    and when the reference can be converted to a key and the status is
    a string or falsy. A body whose reference cannot be converted (an
    object with a property toString), or that names a reference and
    carries a truthy status that is not a string, makes the handler
    throw before anything is written: the answer is then not the
    acknowledgement and the receipts are as before. *)
Theorem webhook_acknowledgement (now : Z) (data : jsval) (s : Legacy.receipts) :
  (Legacy.refCandidates data = [] →
   Legacy.callback now data s = (Legacy.ack, s))
  ∧ (∀ ref rest key st,
       Legacy.refCandidates data = ref :: rest →
       to_String ref = inr key →
       Legacy.webhook_status data = inr st →
       (Legacy.callback now data s).1 = Legacy.ack)
  ∧ (∀ ref rest,
       Legacy.refCandidates data = ref :: rest →
       String_throws ref = true
       ∨ (∃ err, Legacy.webhook_status data = inl err) →
       (Legacy.callback now data s).1 ≠ Legacy.ack
       ∧ (Legacy.callback now data s).2 = s).
Proof.
  split; [| split].
  - intros Hnone. unfold Legacy.callback, Legacy.processWebhookData.
    by rewrite Hnone.
  - intros ref rest key st Href Hkey Hst.
    destruct (webhook_writes now data s ref rest key st Href Hkey Hst)
      as (r & _ & _ & Heffect & _).
    unfold Legacy.callback. by rewrite Heffect.
  - intros ref rest Href Hthrows.
    unfold Legacy.webhook_status, Legacy.webhook_payData in Hthrows.
    unfold Legacy.callback, Legacy.processWebhookData. rewrite Href.
    unfold to_String. destruct (String_throws ref); [done |].
    destruct Hthrows as [?|[err Hst]]; [done |]. by rewrite Hst.
Qed.

Lemma webhook_acknowledgement_witness :
  (Legacy.callback 2000
     (JObj [("reference", JStr "ORDER-1000"); ("status", JNum 1)])
     Scenario.legacy_after_alice).1 ≠ Legacy.ack
  ∧ (Legacy.callback 2000
       (JObj [("reference", JStr "ORDER-1000"); ("status", JNum 1)])
       Scenario.legacy_after_alice).2 = Scenario.legacy_after_alice.
Proof.
  apply (proj2 (proj2 (webhook_acknowledgement 2000
                         (JObj [("reference", JStr "ORDER-1000");
                                ("status", JNum 1)])
                         Scenario.legacy_after_alice))
           (JStr "ORDER-1000") []).
  - vm_compute. reflexivity.
  - right. eexists. vm_compute. reflexivity.
Defined.

(** X23: in the legacy variant a poll tick that finds no receipt under
    its reference stops the timer at once, whatever status the gateway
    reports, and writes nothing. *)
Theorem legacy_poll_without_receipt (now : Z) (p : Legacy.poll) (data : jsval)
    (s : Legacy.receipts) (st : string) :
  payStatus_of data = inr st →
  s !! Legacy.p_reference p = None →
  Legacy.poll_tick now p (GwReply data) s = (true, s).
Proof.
  unfold payStatus_of, payData_of. intros Hst Hnone.
  unfold Legacy.poll_tick. simpl. by rewrite Hst, Hnone.
Qed.

Lemma legacy_poll_without_receipt_witness :
  Legacy.poll_tick 16000 Scenario.legacy_alice_poll
    (GwReply (Scenario.status_answer "queued")) ∅
  = (true, ∅).
Proof.
  apply (legacy_poll_without_receipt 16000 Scenario.legacy_alice_poll
           (Scenario.status_answer "queued") ∅ "queued"); reflexivity.
Defined.

(** What a settling legacy tick writes. *)
Lemma legacy_tick_settles now p data (s : Legacy.receipts) current :
  settles data →
  s !! Legacy.p_reference p = Some current →
  ∃ r, Legacy.poll_tick now p (GwReply data) s
       = (true, <[Legacy.p_reference p := r]> s)
       ∧ r !! "status" = Some (JStr "processing")
       ∧ r !! "timestamp" = Some (JNum now).
Proof.
  unfold settles, payStatus_of, payData_of. intros Hsettle Hcurrent.
  unfold Legacy.poll_tick, axios.
  destruct (lowered_status _) as [err|st]; [done |].
  rewrite Hcurrent, Hsettle.
  eexists. split; [reflexivity |]. split.
  - rewrite !set_field_lookup_ne by done. apply set_field_lookup_str.
  - apply lookup_insert_eq.
Qed.

(** X24: a legacy payment settled by a poll tick at an instant [t]
    that is a time value (within 8.64e15 ms of the epoch), in a file
    whose other receipts do not make the release job throw, is in
    processing until the first run of the job at or after [t] + 24
    hours, which makes it loan_released; a run before that leaves it
    in processing. *)
Theorem settled_payment_is_released_after_a_day (parse : string → option Z)
    (t now : Z) (p : Legacy.poll) (data : jsval) (s : Legacy.receipts)
    (current : Legacy.receipt) :
  settles data →
  s !! Legacy.p_reference p = Some current →
  (Z.abs t ≤ 8640000000000000)%Z →
  (∀ k r, k ≠ Legacy.p_reference p → s !! k = Some r → ¬ Legacy.jams r) →
  Legacy.stored_status (Legacy.p_reference p)
    (Legacy.cron_job parse now (Legacy.poll_tick t p (GwReply data) s).2)
  = if (t + 24 * 60 * 60 * 1000 <=? now)%Z
    then JStr "loan_released" else JStr "processing".
Proof.
  intros Hsettle Hcurrent Hrange Hclear.
  destruct (legacy_tick_settles t p data s current Hsettle Hcurrent)
    as (r & -> & Hstatus & Htime).
  unfold Legacy.stored_status. cbn [snd].
  rewrite cron_job_lookup.
  2:{ intros k r' Hr' Hjam.
      destruct (decide (k = Legacy.p_reference p)) as [->|Hne].
      - rewrite lookup_insert_eq in Hr'. injection Hr' as <-.
        destruct Hjam as [_ Hthrows].
        unfold Legacy.field in Hthrows. by rewrite Htime in Hthrows.
      - rewrite lookup_insert_ne in Hr' by done.
        exact (Hclear k r' Hne Hr' Hjam). }
  rewrite lookup_insert_eq. simpl.
  assert (Legacy.release parse now r
          = inr (if (t + 24 * 60 * 60 * 1000 <=? now)%Z
                 then Legacy.released r else r)) as ->.
  { unfold Legacy.release, Legacy.field. rewrite Hstatus, Htime. simpl.
    unfold Legacy.time_limit, Legacy.release_delay.
    replace (Z.abs t <=? 8640000000000000)%Z with true by lia.
    by destruct (_ <=? _)%Z. }
  unfold Legacy.field. destruct (_ <=? _)%Z.
  - unfold Legacy.released. rewrite lookup_insert_ne by done.
    by rewrite lookup_insert_eq.
  - by rewrite Hstatus.
Qed.

Lemma settled_payment_is_released_after_a_day_witness :
  Legacy.stored_status (Legacy.p_reference Scenario.legacy_alice_poll)
    (Legacy.cron_job Scenario.no_dates 86416000
       (Legacy.poll_tick 16000 Scenario.legacy_alice_poll
          (GwReply (Scenario.status_answer "completed"))
          Scenario.legacy_after_alice).2)
  = if (16000 + 24 * 60 * 60 * 1000 <=? 86416000)%Z
    then JStr "loan_released" else JStr "processing".
Proof.
  refine (settled_payment_is_released_after_a_day Scenario.no_dates
            16000 86416000
            Scenario.legacy_alice_poll (Scenario.status_answer "completed")
            Scenario.legacy_after_alice Scenario.legacy_alice_receipt _ _ _ _).
  - vm_compute. reflexivity.
  - vm_compute. reflexivity.
  - lia.
  - intros k r Hne Hr. exfalso.
    assert (Scenario.legacy_after_alice
            = {["ORDER-1000" := Scenario.legacy_alice_receipt]}) as Hfile
      by (vm_compute; reflexivity).
    rewrite Hfile in Hr.
    rewrite lookup_singleton_ne in Hr by (intros Hk; apply Hne; by rewrite <- Hk).
    discriminate Hr.
Defined.

(** ** Receipts as documents *)



(** ** Withdrawals that overlap *)

Lemma overlap_first w1 w2 s (schedule : list bool) :
  Enhanced.overlap w1 w2 s (false :: schedule)
  = Enhanced.overlap (Enhanced.withdraw_step w1 s).1 w2
      (Enhanced.withdraw_step w1 s).2 schedule.
Proof.
  unfold Enhanced.overlap. simpl. by destruct (Enhanced.withdraw_step w1 s).
Qed.

Lemma overlap_second w1 w2 s (schedule : list bool) :
  Enhanced.overlap w1 w2 s (true :: schedule)
  = Enhanced.overlap w1 (Enhanced.withdraw_step w2 s).1
      (Enhanced.withdraw_step w2 s).2 schedule.
Proof.
  unfold Enhanced.overlap. simpl. by destruct (Enhanced.withdraw_step w2 s).
Qed.

(** The statements of one withdrawal, run without another request in
    between, are the handler. *)
Lemma withdraw_in_steps now req s w2 :
  ∃ resp s',
    Enhanced.withdraw now req s = (Enhanced.Returned resp, s')
    ∧ Enhanced.overlap (Enhanced.Reading now req) w2 s [false; false; false]
      = (Enhanced.Answered resp, w2, s').
Proof.
  rewrite !overlap_first. unfold Enhanced.overlap. cbn [foldl].
  unfold Enhanced.withdraw, Enhanced.try_catch.
  cbn [Enhanced.withdraw_step].
  destruct (formatPhone (pb_phone req)) as [phone|];
    [| eexists _, _; split; reflexivity].
  destruct (pb_amount req) as [amt|]; [| eexists _, _; split; reflexivity].
  destruct ((amt =? 0)%Z || (amt <? 100)%Z);
    [eexists _, _; split; reflexivity |].
  unfold Enhanced.bind at 1.
  destruct (Enhanced.getOrCreateUser now phone s) as [[u|err] s1];
    [| eexists _, _; split; reflexivity].
  destruct (negb (Enhanced.has_paid_fee u));
    [eexists _, _; split; reflexivity |].
  destruct (Enhanced.balance u <? amt)%Z;
    [eexists _, _; split; reflexivity |].
  cbn [fst snd Enhanced.withdraw_step]. unfold Enhanced.bind at 1.
  destruct (Enhanced.createTransaction now _ s1) as [[t|err] s2];
    [| eexists _, _; split; reflexivity].
  cbn [fst snd Enhanced.withdraw_step]. unfold Enhanced.bind at 1.
  destruct (Enhanced.updateUserBalance now phone amt "subtract" s2)
    as [[v|err] s3]; eexists _, _; split; reflexivity.
Qed.

Lemma reading_step now req s phone amt u :
  formatPhone (pb_phone req) = Some phone →
  pb_amount req = Some amt →
  (100 ≤ amt)%Z →
  Enhanced.users s !! phone = Some u →
  Enhanced.has_paid_fee u = true →
  Enhanced.withdraw_step (Enhanced.Reading now req) s
  = (if (Enhanced.balance u <? amt)%Z
     then Enhanced.Answered
            (json 400 [("success", JBool false);
                       ("error", JStr "Insufficient balance")])
     else Enhanced.Inserting now phone amt u, s).
Proof.
  intros Hphone Hamt Hmin Hu Hfee. cbn [Enhanced.withdraw_step].
  rewrite Hphone, Hamt.
  replace ((amt =? 0)%Z || (amt <? 100)%Z) with false by lia.
  unfold Enhanced.getOrCreateUser. rewrite Hu, Hfee. simpl.
  by destruct (_ <? _)%Z.
Qed.

Lemma inserting_step now phone amt u s :
  Enhanced.fits_numeric amt = true →
  Enhanced.find_transaction ("WD-" +:+ dec_of_Z now) (Enhanced.transactions s)
    = None →
  Enhanced.withdraw_step (Enhanced.Inserting now phone amt u) s
  = (Enhanced.Debiting now phone amt u,
     Enhanced.mkDb (Enhanced.users s)
       (Enhanced.transactions s
          ++ [Enhanced.mkTransaction ("WD-" +:+ dec_of_Z now) phone "withdrawal"
                amt "processing" ("Withdrawal of KES " +:+ number_string amt)
                (JObj [("withdrawal_to", JStr phone)]) now now])).
Proof.
  intros Hfits Hfree. cbn [Enhanced.withdraw_step].
  unfold Enhanced.createTransaction. simpl. by rewrite Hfits, Hfree.
Qed.

Lemma debiting_step now phone amt u s v :
  Enhanced.users s !! phone = Some v →
  Enhanced.fits_numeric (Enhanced.balance v - amt) = true →
  Enhanced.withdraw_step (Enhanced.Debiting now phone amt u) s
  = (Enhanced.Answered
       (json 200 [("success", JBool true);
                  ("message", JStr "Withdrawal request submitted successfully");
                  ("reference", JStr ("WD-" +:+ dec_of_Z now));
                  ("amount", JNum amt);
                  ("new_balance", JNum (Enhanced.balance u - amt))]),
     Enhanced.mkDb
       (<[phone := Enhanced.mkUser (Enhanced.balance v - amt)
                     (Enhanced.has_paid_fee v) (Enhanced.u_created_at v) now]>
          (Enhanced.users s))
       (Enhanced.transactions s)).
Proof.
  intros Hv Hfits. cbn [Enhanced.withdraw_step].
  unfold Enhanced.updateUserBalance. rewrite Hv. simpl. by rewrite Hfits.
Qed.

(** X26: two withdrawals by one user who has paid the fee, each of 100
    or more and within the balance, together exceeding it, under free
    and distinct references. The statements of one request run in a
    row are the handler. When the second request starts after the
    first was answered, the first is answered 200 and the second 400
    (insufficient balance), and the balance is debited once. When the
    two overlap, each reading the user row before the other has
    debited it, both are answered 200, each announcing a balance that
    ignores the other, and the stored balance is debited twice and
    ends below zero. *)
Theorem overlapping_withdrawals_overdraw (now1 now2 : Z) (req1 req2 : pay_body)
    (s : Enhanced.db) (phone : string) (a1 a2 : Z) (u : Enhanced.user) :
  formatPhone (pb_phone req1) = Some phone →
  formatPhone (pb_phone req2) = Some phone →
  pb_amount req1 = Some a1 →
  pb_amount req2 = Some a2 →
  (100 ≤ a1)%Z → (100 ≤ a2)%Z →
  Enhanced.users s !! phone = Some u →
  Enhanced.has_paid_fee u = true →
  (a1 ≤ Enhanced.balance u)%Z →
  (a2 ≤ Enhanced.balance u)%Z →
  (Enhanced.balance u < a1 + a2)%Z →
  (Enhanced.balance u < 10 ^ 13)%Z →
  now1 ≠ now2 →
  Enhanced.find_transaction ("WD-" +:+ dec_of_Z now1) (Enhanced.transactions s)
    = None →
  Enhanced.find_transaction ("WD-" +:+ dec_of_Z now2) (Enhanced.transactions s)
    = None →
  (∀ w2, ∃ resp s',
     Enhanced.withdraw now1 req1 s = (Enhanced.Returned resp, s')
     ∧ Enhanced.overlap (Enhanced.Reading now1 req1) w2 s [false; false; false]
       = (Enhanced.Answered resp, w2, s'))
  ∧ (∃ r1 r2 s',
       Enhanced.overlap (Enhanced.Reading now1 req1) (Enhanced.Reading now2 req2)
         s [false; false; false; true; true; true]
       = (Enhanced.Answered r1, Enhanced.Answered r2, s')
       ∧ http_status r1 = 200%nat
       ∧ http_status r2 = 400%nat
       ∧ Enhanced.balance_of phone s' = Some (Enhanced.balance u - a1)%Z)
  ∧ (∃ r1 r2 s',
       Enhanced.overlap (Enhanced.Reading now1 req1) (Enhanced.Reading now2 req2)
         s [false; true; false; true; false; true]
       = (Enhanced.Answered r1, Enhanced.Answered r2, s')
       ∧ http_status r1 = 200%nat
       ∧ http_status r2 = 200%nat
       ∧ get_prop (body r1) "new_balance" = JNum (Enhanced.balance u - a1)
       ∧ get_prop (body r2) "new_balance" = JNum (Enhanced.balance u - a2)
       ∧ Enhanced.balance_of phone s'
         = Some (Enhanced.balance u - a1 - a2)%Z
       ∧ (Enhanced.balance u - a1 - a2 < 0)%Z).
Proof.
  intros Hphone1 Hphone2 Hamt1 Hamt2 Hmin1 Hmin2 Hu Hfee Hmax1 Hmax2 Hsum Hfits
    Hclock Hfree1 Hfree2.
  assert (∀ z, (- 10 ^ 13 < z < 10 ^ 13)%Z → Enhanced.fits_numeric z = true)
    as Hrange
    by (intros z ?; unfold Enhanced.fits_numeric, Enhanced.numeric_limit; lia).
  split; [intros w2; apply withdraw_in_steps |].
  split.
  - rewrite !overlap_first.
    rewrite (reading_step now1 req1 s phone a1 u) by done.
    replace (Enhanced.balance u <? a1)%Z with false by lia. cbn [fst snd].
    rewrite inserting_step by (try apply Hrange; done || lia). cbn [fst snd].
    rewrite (debiting_step _ _ _ _ _ u) by (try apply Hrange; done || lia).
    cbn [fst snd]. rewrite !overlap_second.
    erewrite (reading_step now2 req2 _ phone a2);
      [| done | done | done | simpl; apply lookup_insert_eq | done].
    cbn [Enhanced.balance].
    replace (Enhanced.balance u - a1 <? a2)%Z with true by lia. cbn [fst snd].
    unfold Enhanced.overlap. cbn [foldl Enhanced.withdraw_step fst snd].
    eexists _, _, _. split; [reflexivity |]. split; [done |]. split; [done |].
    unfold Enhanced.balance_of. simpl. by rewrite lookup_insert_eq.
  - rewrite overlap_first.
    rewrite (reading_step now1 req1 s phone a1 u) by done.
    replace (Enhanced.balance u <? a1)%Z with false by lia. cbn [fst snd].
    rewrite overlap_second.
    rewrite (reading_step now2 req2 s phone a2 u) by done.
    replace (Enhanced.balance u <? a2)%Z with false by lia. cbn [fst snd].
    rewrite overlap_first.
    rewrite inserting_step by (try apply Hrange; done || lia). cbn [fst snd].
    rewrite overlap_second.
    rewrite inserting_step; [| apply Hrange; lia |].
    2:{ cbn [Enhanced.transactions]. rewrite find_transaction_app, Hfree2.
        unfold Enhanced.find_transaction. cbn [List.find Enhanced.reference].
        destruct (String.eqb_spec ("WD-" +:+ dec_of_Z now1)
                    ("WD-" +:+ dec_of_Z now2)) as [Heq|]; [| done].
        by apply reference_inj in Heq. }
    cbn [fst snd]. rewrite overlap_first.
    rewrite (debiting_step _ _ _ _ _ u) by (try apply Hrange; done || lia).
    cbn [fst snd]. rewrite overlap_second.
    erewrite debiting_step;
      [| simpl; apply lookup_insert_eq | apply Hrange; simpl; lia].
    unfold Enhanced.overlap. cbn [foldl fst snd].
    eexists _, _, _. split; [reflexivity |]. split; [done |]. split; [done |].
    split; [done |]. split; [done |].
    split; [| lia].
    unfold Enhanced.balance_of. simpl. by rewrite lookup_insert_eq.
Qed.

Lemma overlapping_withdrawals_overdraw_witness :
  ∃ r1 r2 s',
    Enhanced.overlap (Enhanced.Reading 17000 Scenario.withdraw_500)
      (Enhanced.Reading 17001 Scenario.withdraw_500)
      Scenario.paid_db [false; true; false; true; false; true]
    = (Enhanced.Answered r1, Enhanced.Answered r2, s')
    ∧ http_status r1 = 200%nat
    ∧ http_status r2 = 200%nat
    ∧ get_prop (body r1) "new_balance" = JNum (500 - 500)
    ∧ get_prop (body r2) "new_balance" = JNum (500 - 500)
    ∧ Enhanced.balance_of Scenario.alice_phone s' = Some (500 - 500 - 500)%Z
    ∧ (500 - 500 - 500 < 0)%Z.
Proof.
  refine (proj2 (proj2 (overlapping_withdrawals_overdraw 17000 17001
                          Scenario.withdraw_500 Scenario.withdraw_500
                          Scenario.paid_db Scenario.alice_phone 500 500
                          Scenario.paid_user
                          _ _ _ _ _ _ _ _ _ _ _ _ _ _ _)));
    first [by vm_compute | simpl; lia | lia | reflexivity].
Defined.

(** ** The range of the balance column *)

Lemma stays_in_range_refl s : Enhanced.stays_in_range s s.
Proof. by intros ?. Qed.

Lemma stays_in_range_trans s1 s2 s3 :
  Enhanced.stays_in_range s1 s2 → Enhanced.stays_in_range s2 s3 →
  Enhanced.stays_in_range s1 s3.
Proof. unfold Enhanced.stays_in_range. auto. Qed.

Lemma insert_fits (s : Enhanced.db) phone u txs :
  Enhanced.fits_numeric (Enhanced.balance u) = true →
  Enhanced.stays_in_range s
    (Enhanced.mkDb (<[phone := u]> (Enhanced.users s)) txs).
Proof.
  intros Hu Hs q v. simpl. rewrite lookup_insert.
  case_decide; [by intros [= <-] | apply Hs].
Qed.

Lemma getOrCreateUser_fits now phone :
  Enhanced.preserves Enhanced.stays_in_range (Enhanced.getOrCreateUser now phone).
Proof.
  intros s. unfold Enhanced.getOrCreateUser.
  destruct (_ !! phone) eqn:Hu; simpl; [apply stays_in_range_refl |].
  by apply insert_fits.
Qed.

Lemma updateUserBalance_fits now phone amt op :
  Enhanced.preserves Enhanced.stays_in_range
    (Enhanced.updateUserBalance now phone amt op).
Proof.
  intros s. unfold Enhanced.updateUserBalance.
  destruct (_ !! phone) eqn:Hu; simpl; [| apply stays_in_range_refl].
  destruct (Enhanced.fits_numeric _) eqn:Hfits; simpl;
    [| apply stays_in_range_refl].
  by apply insert_fits.
Qed.

Lemma markUserFeePaid_fits now phone :
  Enhanced.preserves Enhanced.stays_in_range (Enhanced.markUserFeePaid now phone).
Proof.
  intros s. unfold Enhanced.markUserFeePaid.
  destruct (_ !! phone) eqn:Hu; simpl; [| apply stays_in_range_refl].
  intros Hs. apply insert_fits; [| done]. simpl. by eapply Hs.
Qed.

Lemma createTransaction_fits now data :
  Enhanced.preserves Enhanced.stays_in_range (Enhanced.createTransaction now data).
Proof.
  intros s. unfold Enhanced.createTransaction.
  repeat case_match; simpl; by intros ?.
Qed.

Lemma updateTransaction_fits now ref st :
  Enhanced.preserves Enhanced.stays_in_range
    (Enhanced.updateTransaction now ref st).
Proof. intros s. unfold Enhanced.updateTransaction. simpl. by intros ?. Qed.

Ltac fits_tac :=
  repeat first
    [ apply getOrCreateUser_fits
    | apply updateUserBalance_fits
    | apply markUserFeePaid_fits
    | apply createTransaction_fits
    | apply updateTransaction_fits
    | apply (preserves_try_catch _ stays_in_range_trans)
    | apply (preserves_bind _ stays_in_range_trans)
    | apply (preserves_ret _ stays_in_range_refl)
    | apply (preserves_throw _ stays_in_range_refl)
    | apply (preserves_lift _ stays_in_range_refl)
    | progress intros
    | case_match ].

Lemma handle_fits s e : Enhanced.stays_in_range s (Enhanced.handle s e).
Proof.
  destruct e; simpl.
  - unfold Enhanced.get_balance. fits_tac.
  - unfold Enhanced.get_transactions. fits_tac.
    intros s'. apply stays_in_range_refl.
  - unfold Enhanced.withdraw. fits_tac.
  - unfold Enhanced.pay, Enhanced.pay_try, Enhanced.pay_catch. fits_tac.
  - unfold Enhanced.poll_tick. fits_tac.
  - apply stays_in_range_refl.
  - rewrite get_receipt_unchanged. apply stays_in_range_refl.
Qed.

Lemma withdraw_step_fits w s :
  Enhanced.stays_in_range s (Enhanced.withdraw_step w s).2.
Proof.
  destruct w as [now req|now phone amt u|now phone amt u|resp];
    cbn [Enhanced.withdraw_step].
  - destruct (formatPhone _); [| apply stays_in_range_refl].
    destruct (pb_amount req); [| apply stays_in_range_refl].
    destruct (_ || _); [apply stays_in_range_refl |].
    pose proof (getOrCreateUser_fits now s0 s) as Hstep.
    destruct (Enhanced.getOrCreateUser now s0 s) as [[v|err] s1]; [| done].
    by repeat case_match.
  - pose proof (createTransaction_fits now
                  (Enhanced.mkTxData ("WD-" +:+ dec_of_Z now) phone "withdrawal"
                     (Some amt) "processing"
                     ("Withdrawal of KES " +:+ number_string amt)
                     (JObj [("withdrawal_to", JStr phone)])) s) as Hstep.
    by destruct (Enhanced.createTransaction _ _ _) as [[t|err] s1].
  - pose proof (updateUserBalance_fits now phone amt "subtract" s) as Hstep.
    by destruct (Enhanced.updateUserBalance _ _ _ _ _) as [[v|err] s1].
  - apply stays_in_range_refl.
Qed.

(** X27: the balance column holds values within DECIMAL(15, 2) only.
    Each statement that writes the users table leads from a table
    whose balances fit to one whose balances fit, an update that would
    leave the range failing instead; so the balances fit after every
    statement of a withdrawal, however two withdrawals overlap, and
    after every sequence of requests and poll ticks. *)
Theorem balances_stay_in_range :
  (∀ now phone,
     Enhanced.preserves Enhanced.stays_in_range
       (Enhanced.getOrCreateUser now phone))
  ∧ (∀ now phone amt op,
       Enhanced.preserves Enhanced.stays_in_range
         (Enhanced.updateUserBalance now phone amt op))
  ∧ (∀ now phone,
       Enhanced.preserves Enhanced.stays_in_range
         (Enhanced.markUserFeePaid now phone))
  ∧ (∀ now phone amt op s u,
       Enhanced.users s !! phone = Some u →
       (10 ^ 13 ≤ Z.abs (if String.eqb op "add"
                         then Enhanced.balance u + amt
                         else Enhanced.balance u - amt))%Z →
       ∃ err, Enhanced.updateUserBalance now phone amt op s
              = (Enhanced.Thrown err, s))
  ∧ (∀ w1 w2 s schedule,
       Enhanced.balances_fit s →
       Enhanced.balances_fit (Enhanced.overlap w1 w2 s schedule).2)
  ∧ (∀ s events,
       Enhanced.balances_fit s →
       Enhanced.balances_fit (Enhanced.run s events)).
Proof.
  split; [exact getOrCreateUser_fits |].
  split; [exact updateUserBalance_fits |].
  split; [exact markUserFeePaid_fits |].
  split; [| split].
  - intros now phone amt op s u Hu Hbig.
    unfold Enhanced.updateUserBalance. rewrite Hu. cbn zeta.
    replace (Enhanced.fits_numeric _) with false; [by eexists |].
    unfold Enhanced.fits_numeric, Enhanced.numeric_limit. lia.
  - intros w1 w2 s schedule. unfold Enhanced.overlap.
    revert w1 w2 s. induction schedule as [|b schedule IH]; intros w1 w2 s Hs;
      [done |].
    simpl. destruct b.
    + pose proof (withdraw_step_fits w2 s Hs) as Hstep.
      destruct (Enhanced.withdraw_step w2 s) as [w2' s']. by apply IH.
    + pose proof (withdraw_step_fits w1 s Hs) as Hstep.
      destruct (Enhanced.withdraw_step w1 s) as [w1' s']. by apply IH.
  - intros s events. revert s.
    induction events as [|e events IH]; intros s Hs; [done |].
    simpl. apply IH. by apply handle_fits.
Qed.

Lemma balances_stay_in_range_witness :
  Enhanced.balances_fit
    (Enhanced.overlap (Enhanced.Reading 17000 Scenario.withdraw_500)
       (Enhanced.Reading 17001 Scenario.withdraw_500)
       Scenario.paid_db [false; true; false; true; false; true]).2.
Proof.
  apply (proj1 (proj2 (proj2 (proj2 (proj2 balances_stay_in_range))))).
  intros phone u Hu.
  destruct (decide (phone = Scenario.alice_phone)) as [->|Hne].
  - vm_compute in Hu. injection Hu as <-. reflexivity.
  - unfold Scenario.paid_db in Hu. simpl in Hu.
    rewrite lookup_singleton_ne in Hu by done. discriminate Hu.
Defined.

(** ** Receipts the handlers have written *)

Lemma insert_dated (s : Legacy.receipts) k (r : Legacy.receipt) :
  Legacy.dated s →
  (∃ t, r !! "timestamp" = Some (JNum t)) →
  Legacy.dated (<[k := r]> s).
Proof.
  intros Hs Hr ref r'. rewrite lookup_insert.
  case_decide; [by intros [= <-] | apply Hs].
Qed.

Lemma legacy_pay_dated now now_err req gw (s : Legacy.receipts) :
  Legacy.dated s → Legacy.dated (Legacy.pay now now_err req gw s).2.
Proof.
  intros Hs. unfold Legacy.pay.
  repeat case_match; simplify_eq; simpl; try done;
    (apply insert_dated; [done |]); eexists; simpl;
    by repeat (rewrite lookup_insert_ne by done); rewrite lookup_insert_eq.
Qed.

Lemma legacy_poll_tick_dated now p gw (s : Legacy.receipts) :
  Legacy.dated s → Legacy.dated (Legacy.poll_tick now p gw s).2.
Proof.
  intros Hs. unfold Legacy.poll_tick.
  repeat case_match; simplify_eq; cbn [fst snd]; try done;
    (apply insert_dated; [done |]); eexists; apply lookup_insert_eq.
Qed.

Lemma legacy_callback_dated now data (s : Legacy.receipts) :
  Legacy.dated s → Legacy.dated (Legacy.callback now data s).2.
Proof.
  intros Hs. unfold Legacy.callback, Legacy.processWebhookData.
  repeat case_match; simplify_eq; cbn [fst snd Legacy.written]; try done;
    (apply insert_dated; [done |]); eexists; apply lookup_insert_eq.
Qed.

Lemma dated_not_jams (s : Legacy.receipts) ref r :
  Legacy.dated s → s !! ref = Some r → ¬ Legacy.jams r.
Proof.
  intros Hs Hr [_ Hthrows]. destruct (Hs ref r Hr) as [t Ht].
  unfold Legacy.field in Hthrows. by rewrite Ht in Hthrows.
Qed.

Lemma legacy_cron_dated parse now (s : Legacy.receipts) :
  Legacy.dated s → Legacy.dated (Legacy.cron_job parse now s).
Proof.
  intros Hs. destruct (cron_job_cases parse now s) as [->|Hlookup]; [done |].
  intros ref r'. rewrite Hlookup.
  destruct (s !! ref) as [r|] eqn:Hr; [| done]. simpl. intros [= <-].
  destruct (Hs ref r Hr) as [t Ht]. exists t.
  destruct (release_result parse now r)
    as [[_ [err ->]]|[[_ ->]|(_ & _ & ->)]]; [done | | done].
  unfold Legacy.released. by rewrite !lookup_insert_ne by done.
Qed.

(** X28: the receipts the legacy handlers write carry the instant they
    were written at. Each of the initiation, the poll tick, the webhook
    and the release job leads from a file in which every receipt has a
    number as its timestamp to such a file, the empty file being one;
    and in such a file no timestamp makes the release job throw, so
    that the job releases every receipt that is due. *)
Theorem handlers_write_dated_receipts (parse : string → option Z) :
  Legacy.dated ∅
  ∧ (∀ now now_err req gw (s : Legacy.receipts),
       Legacy.dated s → Legacy.dated (Legacy.pay now now_err req gw s).2)
  ∧ (∀ now p gw (s : Legacy.receipts),
       Legacy.dated s → Legacy.dated (Legacy.poll_tick now p gw s).2)
  ∧ (∀ now data (s : Legacy.receipts),
       Legacy.dated s → Legacy.dated (Legacy.callback now data s).2)
  ∧ (∀ now (s : Legacy.receipts),
       Legacy.dated s → Legacy.dated (Legacy.cron_job parse now s))
  ∧ (∀ now (s : Legacy.receipts) ref r,
       Legacy.dated s → s !! ref = Some r →
       ¬ Legacy.jams r
       ∧ (Legacy.due parse now r →
          Legacy.cron_job parse now s !! ref = Some (Legacy.released r))).
Proof.
  split; [intros ref r Hr; by rewrite lookup_empty in Hr |].
  split; [intros *; apply legacy_pay_dated |].
  split; [intros *; apply legacy_poll_tick_dated |].
  split; [intros *; apply legacy_callback_dated |].
  split; [intros *; apply legacy_cron_dated |].
  intros now s ref r Hs Hr. split; [by eapply dated_not_jams |].
  intros Hdue. rewrite cron_job_lookup by (intros k r'; by apply dated_not_jams).
  rewrite Hr. simpl. by rewrite (release_due parse now r Hdue).
Qed.

Lemma handlers_write_dated_receipts_witness :
  Legacy.dated
    (Legacy.pay 1000 1000 Scenario.alice (Scenario.gateway_accepts "TXA") ∅).2.
Proof.
  apply (proj1 (proj2 (handlers_write_dated_receipts Scenario.no_dates))).
  intros ref r Hr. rewrite lookup_empty in Hr. discriminate Hr.
Defined.
